(** * FlowGo: command pipeline, task store and runtime store

    A shallow embedding of the Go sources of MuixStudio/flowgo:
    - [internal/engine/interceptor.go], [engine/command_executor.go],
      [engine/command.go], [internal/flow.go]: commands, the command context,
      the interceptor chain and its builder, and the interceptors as
      objects with their [next] fields;
    - the [runtime] package: process instances, executions and their
      variable scopes;
    - the [task] package: tasks, comments, attachments, task variables;
    - the [repository] package ([internal/repository/service.go]):
      deployments and process definitions;
    - the [commands] package: the claim, complete, start and deploy
      commands.

    Conventions.  A Go [error] result is an [option error] ([None] is [nil]).
    A Go [map] object lives in a heap of map objects and is named by its
    location, so that copying and sharing a map are different things.
    [time.Now()] and [uuid.New()] are inputs of the operation that calls
    them.  Mutexes are not modelled: every service method is one sequential
    state transition.  Where the result of a [for ... range] over a map
    depends on the order of the visit, the order is an input of the
    operation, taken to be some permutation of the map's entries.
    [json.Unmarshal] is an input of the operations that decode. *)

From stdpp Require Import gmap strings list fin_maps pretty.
From Stdlib Require Import ZArith Lia Ascii.

(* ===================================================================== *)
(** ** Go values shared by all packages *)
(* ===================================================================== *)

Module Go.

(** [errors.New]/[fmt.Errorf] without [%w] build an [*errors.errorString];
    [fmt.Errorf] with one [%w] operand builds a [*fmt.wrapError] holding
    the formatted message and the wrapped error. *)
Inductive error : Type :=
| errorString (s : string)
| wrapError (msg : string) (err : error).

#[global] Instance error_eq_dec : EqDecision error.
Proof.
  unfold EqDecision, Decision. decide equality; apply (_ : EqDecision string).
Defined.

(** The [Error()] method. *)
Definition Error (e : error) : string :=
  match e with
  | errorString s => s
  | wrapError msg _ => msg
  end.

(** The [Unwrap()] method ([nil] for an [errorString]). *)
Definition Unwrap (e : error) : option error :=
  match e with
  | errorString _ => None
  | wrapError _ err => Some err
  end.

(** [errors.Is(err, target)] for non-nil arguments: compare, then follow
    [Unwrap]. *)
Fixpoint errors_Is (err target : error) : bool :=
  if decide (err = target) then true
  else match err with
       | errorString _ => false
       | wrapError _ inner => errors_Is inner target
       end.

(** [fmt.Errorf(prefix + "%s", arg)]. *)
Definition Errorf_s (prefix arg : string) : error :=
  errorString (prefix +:+ arg).

(** [fmt.Errorf(prefix + "%w", err)].  A nil operand is not an error, so
    the verb is reported as bad and nothing is wrapped. *)
Definition Errorf_w (prefix : string) (err : option error) : error :=
  match err with
  | Some e => wrapError (prefix +:+ Error e) e
  | None => errorString (prefix +:+ "%!w(<nil>)")
  end.

(** What a call produces: it returns, or the goroutine panics. *)
Inductive outcome (A : Type) : Type :=
| Ret (a : A)
| Panic (msg : string).
#[global] Arguments Ret {A} a.
#[global] Arguments Panic {A} msg.

(** A heap of Go [map[string]T] objects.  [make] allocates the next free
    location. *)
Abbreviation loc := positive (only parsing).

Definition make {T : Type} (h : gmap positive (gmap string T))
  : positive * gmap positive (gmap string T) :=
  let l := fresh (dom h) in (l, <[l := ∅]> h).

(** The entries of the map at [l]; a nil map reads as empty. *)
Definition entries {T : Type} (h : gmap positive (gmap string T))
    (l : option positive) : gmap string T :=
  match l with
  | Some a => default ∅ (h !! a)
  | None => ∅
  end.

(** [for k, v := range src { dst[k] = v }] on map values. *)
Definition copy_into {T : Type} (src dst : gmap string T) : gmap string T :=
  map_fold (λ k v acc, <[k := v]> acc) dst src.

(** The same loop, writing into the map object at [l]. *)
Definition range_assign {T : Type} (h : gmap positive (gmap string T))
    (src : option positive) (l : positive) : gmap positive (gmap string T) :=
  <[l := copy_into (entries h src) (entries h (Some l))]> h.

End Go.
Import Go.

(* ===================================================================== *)
(** ** Package engine: commands, command context, interceptors *)
(* ===================================================================== *)

Module Engine.

Section WithTypes.

(** [V] are the values behind [interface{}] ([None] is the nil interface),
    [W] is the state the command bodies act on (the engine's services),
    [E] stands for the [*Engine] handle kept in a command context. *)
Context {V W E : Type}.

(** [context.Context] as far as the sources use it: a chain of
    [context.WithValue] frames over the caller's context, and the
    [CommandContext] struct of [command.go], which points back to the
    context it was created from. *)
Inductive Context : Type :=
| Background
| WithValue (parent : Context) (key : string) (val : CommandContext)
with CommandContext : Type :=
| mkCommandContext (ctx : Context) (engine : E) (session : option V)
    (attributes : gmap string V) (exception : option error)
    (result : option V).

Definition cc_Context (c : CommandContext) : Context :=
  match c with mkCommandContext ctx _ _ _ _ _ => ctx end.
Definition cc_Engine (c : CommandContext) : E :=
  match c with mkCommandContext _ e _ _ _ _ => e end.
Definition cc_Session (c : CommandContext) : option V :=
  match c with mkCommandContext _ _ s _ _ _ => s end.
Definition cc_Attributes (c : CommandContext) : gmap string V :=
  match c with mkCommandContext _ _ _ a _ _ => a end.
Definition cc_Exception (c : CommandContext) : option error :=
  match c with mkCommandContext _ _ _ _ x _ => x end.
Definition cc_Result (c : CommandContext) : option V :=
  match c with mkCommandContext _ _ _ _ _ r => r end.

Definition commandContextKey : string := "commandContext".

(** [ctx.Value(key)]: the innermost frame with that key. *)
Fixpoint Value (ctx : Context) (key : string) : option CommandContext :=
  match ctx with
  | Background => None
  | WithValue parent k val =>
      if decide (k = key) then Some val else Value parent key
  end.

Definition GetCommandContext (ctx : Context) : option CommandContext :=
  Value ctx commandContextKey.

Definition NewCommandContext (ctx : Context) (engine : E) : CommandContext :=
  mkCommandContext ctx engine None ∅ None None.

Definition SetException (c : CommandContext) (err : error) : CommandContext :=
  mkCommandContext (cc_Context c) (cc_Engine c) (cc_Session c)
    (cc_Attributes c) (Some err) (cc_Result c).

Definition SetResult (c : CommandContext) (result : option V) : CommandContext :=
  mkCommandContext (cc_Context c) (cc_Engine c) (cc_Session c)
    (cc_Attributes c) (cc_Exception c) result.

(** What the pipeline writes besides the command's own effects: the lines
    sent to the standard logger (durations are wall-clock readings and are
    left out of the line), and a ghost trace of which interceptor ran and
    which one called [command.Execute]. *)
Inductive LogLine : Type :=
| LogExecuting (commandName : string)
| LogFailed (commandName : string) (err : error)
| LogCompleted (commandName : string)
| LogRetrying (attempt maxRetries : Z).

Inductive Kind : Type :=
| KLogging | KTransaction | KContext | KRetry | KInvoker | KCustom.

Inductive Event : Type :=
| Enter (k : Kind)
| CommandExecute (by_ : Kind)
| Closed (c : CommandContext).

Record State : Type := mkState {
  world : W;
  logs : list LogLine;
  trace : list Event
}.

(** A Go call returning [(interface{}, error)]. *)
Definition Result : Type := option V * option error.

Definition M (A : Type) : Type := State → outcome A * State.

Definition ret {A} (a : A) : M A := λ st, (Ret a, st).

Definition bind {A B} (m : M A) (f : A → M B) : M B :=
  λ st, match m st with
        | (Ret a, st') => f a st'
        | (Panic msg, st') => (Panic msg, st')
        end.

Definition panic {A} (msg : string) : M A := λ st, (Panic msg, st).

Definition log_Printf (l : LogLine) : M unit :=
  λ st, (Ret tt, mkState (world st) (logs st ++ [l]) (trace st)).

Definition emit (e : Event) : M unit :=
  λ st, (Ret tt, mkState (world st) (logs st) (trace st ++ [e])).

(** A command: its dynamic type name (what [%T] prints) and its [Execute]
    method, which acts on the services. *)
Record Command : Type := mkCommand {
  typeName : string;
  Execute : Context → CommandContext → W → Result * W
}.

Definition command_Execute (k : Kind) (command : Command) (ctx : Context)
    (commandContext : CommandContext) : M Result :=
  bind (emit (CommandExecute k)) (λ _,
  λ st, let '(r, w) := Execute command ctx commandContext (world st) in
        (Ret r, mkState w (logs st) (trace st))).

(** The [Execute] method of an interceptor, once its [next] is known. *)
Definition Exec : Type := Context → Command → M Result.

(** [i.next.Execute(...)]: a nil [next] is a nil-pointer dereference; the
    message is that of the [runtime.Error] the goroutine panics with. *)
Definition next_Execute (next : option Exec) : Exec :=
  match next with
  | Some f => f
  | None =>
      λ _ _,
      panic "runtime error: invalid memory address or nil pointer dereference"
  end.

Definition LoggingInterceptor_Execute (next : option Exec) : Exec :=
  λ ctx command,
  let commandName := typeName command in
  bind (emit (Enter KLogging)) (λ _,
  bind (log_Printf (LogExecuting commandName)) (λ _,
  bind (next_Execute next ctx command) (λ '(result, err),
  bind (match err with
        | Some e => log_Printf (LogFailed commandName e)
        | None => log_Printf (LogCompleted commandName)
        end) (λ _,
  ret (result, err))))).

Definition TransactionInterceptor_Execute (next : option Exec) : Exec :=
  λ ctx command,
  bind (emit (Enter KTransaction)) (λ _,
  bind (next_Execute next ctx command) (λ '(result, err),
  match err with
  | Some e => ret (None, Some e)
  | None => ret (result, None)
  end)).

(** [commandContext.Close()] releases nothing yet; the trace keeps the
    context as it was when it was closed. *)
Definition Close (c : CommandContext) : M unit := emit (Closed c).

(** The context interceptor calls [command.Execute] itself; it never uses
    its [next]. *)
Definition ContextInterceptor_Execute (engine : E) (next : option Exec) : Exec :=
  λ ctx command,
  bind (emit (Enter KContext)) (λ _,
  let commandContext := NewCommandContext ctx engine in
  let ctx' := WithValue ctx commandContextKey commandContext in
  λ st,
    match command_Execute KContext command ctx' commandContext st with
    | (Ret (result, Some e), st') =>
        (Ret (None, Some e), snd (Close (SetException commandContext e) st'))
    | (Ret (result, None), st') =>
        (Ret (result, None), snd (Close (SetResult commandContext result) st'))
    | (Panic msg, st') => (Panic msg, snd (Close commandContext st'))
    end).

Definition isRetryableError (err : error) : bool := false.

Definition retries_message (maxRetries : Z) : string :=
  "command failed after " +:+ pretty maxRetries +:+ " retries: ".

(** The loop of [RetryInterceptor.Execute].  [n] is the number of iterations
    the condition [attempt <= maxRetries] still admits; [err] is the
    function's [err] variable. *)
Fixpoint retry_loop (maxRetries : Z) (next : option Exec) (ctx : Context)
    (command : Command) (n : nat) (attempt : Z) (err : option error)
    : M Result :=
  match n with
  | O => ret (None, Some (Errorf_w (retries_message maxRetries) err))
  | S n' =>
      bind (if decide (0 < attempt)%Z
            then log_Printf (LogRetrying attempt maxRetries)
            else ret tt) (λ _,
      bind (next_Execute next ctx command) (λ '(result, err'),
      match err' with
      | None => ret (result, None)
      | Some e =>
          if isRetryableError e
          then retry_loop maxRetries next ctx command n' (attempt + 1)%Z (Some e)
          else ret (None, Some (Errorf_w (retries_message maxRetries) (Some e)))
      end))
  end.

Definition RetryInterceptor_Execute (maxRetries : Z) (next : option Exec) : Exec :=
  λ ctx command,
  bind (emit (Enter KRetry)) (λ _,
  retry_loop maxRetries next ctx command (Z.to_nat (maxRetries + 1)) 0%Z None).

Definition CommandInvoker_Execute (next : option Exec) : Exec :=
  λ ctx command,
  bind (emit (Enter KInvoker)) (λ _,
  match GetCommandContext ctx with
  | None => ret (None, Some (errorString "command context not found in context"))
  | Some commandContext => command_Execute KInvoker command ctx commandContext
  end).

(** The implementations of the [Interceptor] interface.  A caller-supplied
    interceptor is any function of its [next]. *)
Inductive Interceptor : Type :=
| LoggingInterceptor
| TransactionInterceptor
| ContextInterceptor (engine : E)
| RetryInterceptor (maxRetries : Z)
| CommandInvoker
| CustomInterceptor (f : option Exec → Exec).

Definition kind (i : Interceptor) : Kind :=
  match i with
  | LoggingInterceptor => KLogging
  | TransactionInterceptor => KTransaction
  | ContextInterceptor _ => KContext
  | RetryInterceptor _ => KRetry
  | CommandInvoker => KInvoker
  | CustomInterceptor _ => KCustom
  end.

Definition Interceptor_Execute (i : Interceptor) (next : option Exec) : Exec :=
  match i with
  | LoggingInterceptor => LoggingInterceptor_Execute next
  | TransactionInterceptor => TransactionInterceptor_Execute next
  | ContextInterceptor engine => ContextInterceptor_Execute engine next
  | RetryInterceptor maxRetries => RetryInterceptor_Execute maxRetries next
  | CommandInvoker => CommandInvoker_Execute next
  | CustomInterceptor f => λ ctx command,
      bind (emit (Enter KCustom)) (λ _, f next ctx command)
  end.

(** The chain after [SetNext] has linked each interceptor to its successor,
    for interceptors that come fresh from their constructors, each an
    object of its own: the last one keeps the nil [next] it was made with.
    [Linked] below keeps the interceptors as objects with their [next]
    fields, for lists that hold an interceptor twice or one that was
    linked before. *)
Fixpoint wired (interceptors : list Interceptor) : option Exec :=
  match interceptors with
  | [] => None
  | i :: rest => Some (Interceptor_Execute i (wired rest))
  end.

(** [CommandExecutor] keeps the first interceptor of the linked chain. *)
Record CommandExecutor : Type := mkCommandExecutor {
  chain : list Interceptor
}.

Definition first (e : CommandExecutor) : option Exec := wired (chain e).

Definition NewCommandExecutor (interceptors : list Interceptor)
    : outcome CommandExecutor :=
  if decide (length interceptors = 0)
  then Panic "at least one interceptor is required"
  else Ret (mkCommandExecutor interceptors).

Definition CommandExecutor_Execute (e : CommandExecutor) (ctx : Context)
    (command : option Command) : M Result :=
  match command with
  | None => ret (None, Some (errorString "command cannot be nil"))
  | Some c => next_Execute (first e) ctx c
  end.

Record CommandExecutorBuilder : Type := mkBuilder {
  b_engine : E;
  b_interceptors : list Interceptor;
  enableLogging : bool;
  enableTransaction : bool;
  enableRetry : bool;
  retryAttempts : Z
}.

Definition NewCommandExecutorBuilder (engine : E) : CommandExecutorBuilder :=
  mkBuilder engine [] true true false 3.

Definition WithLogging (b : CommandExecutorBuilder) (enabled : bool) :=
  mkBuilder (b_engine b) (b_interceptors b) enabled (enableTransaction b)
    (enableRetry b) (retryAttempts b).

Definition WithTransaction (b : CommandExecutorBuilder) (enabled : bool) :=
  mkBuilder (b_engine b) (b_interceptors b) (enableLogging b) enabled
    (enableRetry b) (retryAttempts b).

Definition WithRetry (b : CommandExecutorBuilder) (enabled : bool) (attempts : Z) :=
  mkBuilder (b_engine b) (b_interceptors b) (enableLogging b)
    (enableTransaction b) enabled attempts.

Definition AddInterceptor (b : CommandExecutorBuilder) (i : Interceptor) :=
  mkBuilder (b_engine b) (b_interceptors b ++ [i]) (enableLogging b)
    (enableTransaction b) (enableRetry b) (retryAttempts b).

Definition Build_interceptors (b : CommandExecutorBuilder) : list Interceptor :=
  (if enableLogging b then [LoggingInterceptor] else [])
  ++ (if enableRetry b then [RetryInterceptor (retryAttempts b)] else [])
  ++ b_interceptors b
  ++ (if enableTransaction b then [TransactionInterceptor] else [])
  ++ [ContextInterceptor (b_engine b)]
  ++ [CommandInvoker].

Definition Build (b : CommandExecutorBuilder) : outcome CommandExecutor :=
  NewCommandExecutor (Build_interceptors b).

End WithTypes.

Arguments Context : clear implicits.
Arguments CommandContext : clear implicits.
Arguments State : clear implicits.
Arguments Command : clear implicits.
Arguments Interceptor : clear implicits.
Arguments CommandExecutor : clear implicits.
Arguments CommandExecutorBuilder : clear implicits.
Arguments Exec : clear implicits.
Arguments M : clear implicits.
Arguments Result : clear implicits.
Arguments Event : clear implicits.

End Engine.

(* ===================================================================== *)
(** ** Interceptors as objects: the [next] field *)
(* ===================================================================== *)

Module Linked.

Section WithTypes.

Context {V W E : Type}.
Import Engine.

(** An interceptor object: which implementation it is, and the [next]
    field of its [BaseInterceptor] ([None] is nil). *)
Record object : Type := mkObject {
  impl : Interceptor V W E;
  next : option positive
}.

Local Abbreviation heap := (gmap positive object).

(** The constructors ([NewLoggingInterceptor] and the others) return a new
    object whose [next] is nil. *)
Definition New (h : heap) (i : Interceptor V W E) : positive * heap :=
  let a := fresh (dom h) in (a, <[a := mkObject i None]> h).

(** [i.SetNext(n)] *)
Definition SetNext (h : heap) (i n : positive) : heap :=
  alter (λ o, mkObject (impl o) (Some n)) i h.

(** The loop of [NewCommandExecutor]:
    [interceptors[i].SetNext(interceptors[i+1])] for every index but the
    last.  The [next] of the last interceptor is not assigned.  The list
    holds addresses of objects of the heap. *)
Fixpoint link (h : heap) (interceptors : list positive) : heap :=
  match interceptors with
  | i :: (j :: _) as rest => link (SetNext h i j) rest
  | _ => h
  end.

(** [NewCommandExecutor]: the executor keeps the pointer to the first
    interceptor. *)
Definition NewCommandExecutor (h : heap) (interceptors : list positive)
    : outcome positive * heap :=
  match interceptors with
  | [] => (Panic "at least one interceptor is required", h)
  | first :: _ => (Ret first, link h interceptors)
  end.

(** The implementations met from the object at [a] along the [next]
    fields, up to the first nil [next]; [None] when the links do not run
    out within [fuel] steps (they can form a cycle). *)
Fixpoint reached (fuel : nat) (h : heap) (a : positive)
    : option (list (Interceptor V W E)) :=
  match fuel with
  | O => None
  | S fuel' =>
      match h !! a with
      | None => None
      | Some o =>
          match next o with
          | None => Some [impl o]
          | Some n => cons (impl o) <$> reached fuel' h n
          end
      end
  end.

(** [CommandExecutor.Execute]: [e.first.Execute] runs along the [next]
    fields as they stand in the heap; no [Execute] method assigns to one. *)
Definition CommandExecutor_Execute (fuel : nat) (h : heap) (first : positive)
    (ctx : Context V E) (command : option (Command V W E))
    : option (M V W E (Result V)) :=
  match command with
  | None => Some (ret (None, Some (errorString "command cannot be nil")))
  | Some c => (λ l, next_Execute (wired l) ctx c) <$> reached fuel h first
  end.

End WithTypes.

Arguments object : clear implicits.

End Linked.

(* ===================================================================== *)
(** ** Package repository: the part the runtime reads *)
(* ===================================================================== *)

Module ProcessDefinition.
Record t : Type := mk {
  ID : string;
  Key : string;
  Name : string;
  Description : string;
  Version : Z;
  Category : string;
  DeploymentID : string;
  ResourceName : string;
  TenantID : string;
  Suspended : bool;
  StartFormKey : string;
  HasStartFormKey : bool;
  HasGraphicalNotation : bool
}.
End ProcessDefinition.

(* ===================================================================== *)
(** ** Package repository: deployments and definitions *)
(* ===================================================================== *)

Module GoInt.

(** Go's [int] on a 64-bit platform: sums wrap around. *)
Definition max_int : Z := 2 ^ 63 - 1.

Definition wrap (z : Z) : Z := ((z + 2 ^ 63) mod 2 ^ 64 - 2 ^ 63)%Z.

Definition add (a b : Z) : Z := wrap (a + b).

End GoInt.

Module Resource.
Record t : Type := mk {
  ID : string;
  Name : string;
  DeploymentID : string;
  Content : list Byte.byte;
  ContentType : string
}.
End Resource.

Module Deployment.
Record t : Type := mk {
  ID : string;
  Name : string;
  DeployTime : Z;
  Category : string;
  TenantID : string;
  Resources : list Resource.t
}.
End Deployment.

Module Repository.

(** [repositoryServiceImpl] (and [Service] of the internal package, which
    has the same fields and method bodies). *)
Record repositoryServiceImpl : Type := mk {
  databaseDriver : string;
  databaseURL : string;
  deployments : gmap string Deployment.t;
  definitions : gmap string ProcessDefinition.t
}.

Definition NewRepositoryService (databaseDriver databaseURL : string)
    : repositoryServiceImpl :=
  mk databaseDriver databaseURL ∅ ∅.

Definition deployment_not_found (deploymentID : string) : error :=
  Errorf_s "deployment not found: " deploymentID.

Definition definition_not_found (processDefinitionID : string) : error :=
  Errorf_s "process definition not found: " processDefinitionID.

Definition key_not_found (key : string) : error :=
  Errorf_s "process definition not found with key: " key.

Definition GetDeployment (s : repositoryServiceImpl) (deploymentID : string)
    : Deployment.t + error :=
  match deployments s !! deploymentID with
  | None => inr (deployment_not_found deploymentID)
  | Some d => inl d
  end.

(** One iteration of the cascade loop of [DeleteDeployment]. *)
Definition delete_if_deployed (deploymentID : string) (id : string)
    (def : ProcessDefinition.t) (acc : gmap string ProcessDefinition.t)
    : gmap string ProcessDefinition.t :=
  if decide (ProcessDefinition.DeploymentID def = deploymentID)
  then delete id acc else acc.

Definition DeleteDeployment (s : repositoryServiceImpl) (deploymentID : string)
    (cascade : bool) : option error * repositoryServiceImpl :=
  match deployments s !! deploymentID with
  | None => (Some (deployment_not_found deploymentID), s)
  | Some _ =>
      let defs :=
        if cascade
        then map_fold (delete_if_deployed deploymentID) (definitions s)
               (definitions s)
        else definitions s in
      (None, mk (databaseDriver s) (databaseURL s)
                (delete deploymentID (deployments s)) defs)
  end.

Definition GetProcessDefinition (s : repositoryServiceImpl)
    (processDefinitionID : string) : ProcessDefinition.t + error :=
  match definitions s !! processDefinitionID with
  | None => inr (definition_not_found processDefinitionID)
  | Some def => inl def
  end.

(** The values of a map in the order the built-in fold visits them; a Go
    [range] may visit them in any other order. *)
Definition values {A : Type} (m : gmap string A) : list A :=
  (map_to_list m).*2.

(** The body of the loop of [GetProcessDefinitionByKey] on [latestDef]. *)
Definition latest_step (key : string) (latestDef : option ProcessDefinition.t)
    (def : ProcessDefinition.t) : option ProcessDefinition.t :=
  if decide (ProcessDefinition.Key def = key)
  then match latestDef with
       | None => Some def
       | Some l =>
           if decide (ProcessDefinition.Version l < ProcessDefinition.Version def)%Z
           then Some def else Some l
       end
  else latestDef.

(** [GetProcessDefinitionByKey] when the [range] over [s.definitions]
    yields the values in the order [order]. *)
Definition GetProcessDefinitionByKey_ranging (order : list ProcessDefinition.t)
    (key : string) : ProcessDefinition.t + error :=
  match foldl (latest_step key) None order with
  | None => inr (key_not_found key)
  | Some latestDef => inl latestDef
  end.

Definition GetProcessDefinitionByKey (s : repositoryServiceImpl) (key : string)
    : ProcessDefinition.t + error :=
  GetProcessDefinitionByKey_ranging (values (definitions s)) key.

Definition with_Suspended (d : ProcessDefinition.t) (b : bool)
    : ProcessDefinition.t :=
  ProcessDefinition.mk (ProcessDefinition.ID d) (ProcessDefinition.Key d)
    (ProcessDefinition.Name d) (ProcessDefinition.Description d)
    (ProcessDefinition.Version d) (ProcessDefinition.Category d)
    (ProcessDefinition.DeploymentID d) (ProcessDefinition.ResourceName d)
    (ProcessDefinition.TenantID d) b (ProcessDefinition.StartFormKey d)
    (ProcessDefinition.HasStartFormKey d)
    (ProcessDefinition.HasGraphicalNotation d).

Definition set_Suspended (s : repositoryServiceImpl)
    (processDefinitionID : string) (b : bool)
    : option error * repositoryServiceImpl :=
  match definitions s !! processDefinitionID with
  | None => (Some (definition_not_found processDefinitionID), s)
  | Some def =>
      (None, mk (databaseDriver s) (databaseURL s) (deployments s)
                (<[processDefinitionID := with_Suspended def b]> (definitions s)))
  end.

Definition SuspendProcessDefinition (s : repositoryServiceImpl) (id : string) :=
  set_Suspended s id true.

Definition ActivateProcessDefinition (s : repositoryServiceImpl) (id : string) :=
  set_Suspended s id false.

(** [for _, resource := range deployment.Resources { if resource.Name == name
    { return resource.Content, nil } }] *)
Fixpoint find_resource (resources : list Resource.t) (name : string)
    : option (list Byte.byte) :=
  match resources with
  | [] => None
  | resource :: rest =>
      if decide (Resource.Name resource = name)
      then Some (Resource.Content resource)
      else find_resource rest name
  end.

Definition GetProcessModel (s : repositoryServiceImpl)
    (processDefinitionID : string) : list Byte.byte + error :=
  match definitions s !! processDefinitionID with
  | None => inr (definition_not_found processDefinitionID)
  | Some def =>
      match deployments s !! ProcessDefinition.DeploymentID def with
      | None => inr (deployment_not_found (ProcessDefinition.DeploymentID def))
      | Some deployment =>
          match find_resource (Deployment.Resources deployment)
                  (ProcessDefinition.ResourceName def) with
          | Some content => inl content
          | None =>
              inr (Errorf_s "resource not found: "
                     (ProcessDefinition.ResourceName def))
          end
      end
  end.

(** What [json.Unmarshal] into a [map[string]interface{}] gives, as far as
    the repository looks at it: the keys, and whether a value is a string. *)
Inductive jsonValue : Type :=
| jsonString (s : string)
| jsonOther.

(** [v, _ := processData[key].(string)] *)
Definition as_string (v : option jsonValue) : string :=
  match v with
  | Some (jsonString s) => s
  | _ => ""
  end.

Section WithJSON.

(** The JSON decoder of the standard library. *)
Variable Unmarshal : list Byte.byte → gmap string jsonValue + error.

Definition ValidateProcessDefinition (content : list Byte.byte) : option error :=
  match Unmarshal content with
  | inr err => Some (Errorf_w "invalid JSON: " (Some err))
  | inl processData =>
      if decide (processData !! "id" = None)
      then Some (errorString "process definition must have an 'id' field")
      else if decide (processData !! "name" = None)
      then Some (errorString "process definition must have a 'name' field")
      else if decide (processData !! "nodes" = None)
      then Some (errorString "process definition must have a 'nodes' field")
      else if decide (processData !! "edges" = None)
      then Some (errorString "process definition must have an 'edges' field")
      else None
  end.

(** The body of the version loop of [deployInternal] on [version]. *)
Definition next_version_step (processID : string) (version : Z)
    (existingDef : ProcessDefinition.t) : Z :=
  if decide (ProcessDefinition.Key existingDef = processID
             ∧ (version ≤ ProcessDefinition.Version existingDef)%Z)
  then GoInt.add (ProcessDefinition.Version existingDef) 1
  else version.

Definition next_version_ranging (order : list ProcessDefinition.t)
    (processID : string) : Z :=
  foldl (next_version_step processID) 1%Z order.

(** The definition [deployInternal] builds for a parsed resource. *)
Definition new_definition (defs : gmap string ProcessDefinition.t)
    (deploymentID category tenantID resourceName : string)
    (processData : gmap string jsonValue) (uuid : string)
    : ProcessDefinition.t :=
  let processID := as_string (processData !! "id") in
  let processName := as_string (processData !! "name") in
  let processDesc := as_string (processData !! "description") in
  let version := next_version_ranging (values defs) processID in
  ProcessDefinition.mk
    (processID +:+ ":" +:+ pretty version +:+ ":" +:+ uuid)
    processID processName processDesc version category deploymentID
    resourceName tenantID false "" false true.

(** The loop of [deployInternal] over the resources.  [uuid k] is the
    [k]-th value [uuid.New().String()] returns during the call and [n] the
    number of values drawn so far.  The result holds the error that ended
    the loop, the resources as the loop left them (they are assigned to
    through their pointers) and the definitions map. *)
Fixpoint deploy_loop (deploymentID category tenantID : string)
    (defs : gmap string ProcessDefinition.t) (resources : list Resource.t)
    (uuid : nat → string) (n : nat)
    : option error * list Resource.t * gmap string ProcessDefinition.t :=
  match resources with
  | [] => (None, [], defs)
  | resource :: rest =>
      let resource :=
        Resource.mk (uuid n) (Resource.Name resource) deploymentID
          (Resource.Content resource) (Resource.ContentType resource) in
      match Unmarshal (Resource.Content resource) with
      | inr err =>
          (Some (Errorf_w ("failed to parse process definition '"
                           +:+ Resource.Name resource +:+ "': ") (Some err)),
           resource :: rest, defs)
      | inl processData =>
          match ValidateProcessDefinition (Resource.Content resource) with
          | Some err =>
              (Some (Errorf_w ("invalid process definition '"
                               +:+ Resource.Name resource +:+ "': ") (Some err)),
               resource :: rest, defs)
          | None =>
              let def :=
                new_definition defs deploymentID category tenantID
                  (Resource.Name resource) processData (uuid (S n)) in
              let '(err, rest', defs') :=
                deploy_loop deploymentID category tenantID
                  (<[ProcessDefinition.ID def := def]> defs) rest uuid (S (S n)) in
              (err, resource :: rest', defs')
          end
      end
  end.

Definition DeployInternal (s : repositoryServiceImpl)
    (name category tenantID : string) (resources : list Resource.t)
    (uuid : nat → string) (now : Z)
    : (Deployment.t + error) * list Resource.t * repositoryServiceImpl :=
  let deploymentID := uuid 0 in
  let '(err, resources', defs) :=
    deploy_loop deploymentID category tenantID (definitions s) resources uuid 1 in
  match err with
  | Some e =>
      (inr e, resources',
       mk (databaseDriver s) (databaseURL s) (deployments s) defs)
  | None =>
      let deployment :=
        Deployment.mk deploymentID name now category tenantID resources' in
      (inl deployment, resources',
       mk (databaseDriver s) (databaseURL s)
          (<[deploymentID := deployment]> (deployments s)) defs)
  end.

End WithJSON.

End Repository.

(* ===================================================================== *)
(** ** encoding/json, as far as the repository uses it *)
(* ===================================================================== *)

(** A reader for JSON texts, for the runs that put documents through
    [deployInternal]: objects, arrays, strings with the one-letter escapes,
    numbers and the three literals, with white space between them.  A
    [\u] escape is turned down, and bytes outside ASCII are taken as they
    are.  The properties of the repository do not depend on it: they hold
    for any decoder. *)
Module JSON.

(** A value as far as the repository looks into it: which kind it is and,
    for a string, its characters.  The elements of an array and the
    members of an object inside a value are read and dropped. *)
Inductive value : Type :=
| Null
| Bool (b : bool)
| Number
| Str (s : string)
| Array
| Object.

(** Why a text was turned down. *)
Inductive refusal : Type :=
| EndOfInput
| InvalidCharacter
| NotAnObject (kind : string).

Definition quote : ascii := "034"%char.
Definition backslash : ascii := "092"%char.

Definition is_space (c : ascii) : bool :=
  bool_decide (c = " "%char ∨ c = "009"%char ∨ c = "010"%char ∨ c = "013"%char).

Definition is_digit (c : ascii) : bool :=
  bool_decide (48 ≤ nat_of_ascii c ≤ 57).

Fixpoint skip_space (s : string) : string :=
  match s with
  | String c rest => if is_space c then skip_space rest else s
  | EmptyString => s
  end.

(** The escapes of a JSON string, [\u] apart. *)
Definition unescape (c : ascii) : option ascii :=
  if bool_decide (c = quote) then Some quote
  else if bool_decide (c = backslash) then Some backslash
  else if bool_decide (c = "/"%char) then Some "/"%char
  else if bool_decide (c = "b"%char) then Some "008"%char
  else if bool_decide (c = "f"%char) then Some "012"%char
  else if bool_decide (c = "n"%char) then Some "010"%char
  else if bool_decide (c = "r"%char) then Some "013"%char
  else if bool_decide (c = "t"%char) then Some "009"%char
  else None.

(** The characters of a string literal after its opening quote, and what
    follows the closing quote. *)
Fixpoint string_body (s : string) : (string * string) + refusal :=
  match s with
  | EmptyString => inr EndOfInput
  | String c rest =>
      if bool_decide (c = quote) then inl (EmptyString, rest)
      else if bool_decide (c = backslash) then
        match rest with
        | EmptyString => inr EndOfInput
        | String e rest' =>
            match unescape e with
            | None => inr InvalidCharacter
            | Some c' =>
                match string_body rest' with
                | inl (body, after) => inl (String c' body, after)
                | inr why => inr why
                end
            end
        end
      else if bool_decide (nat_of_ascii c < 32) then inr InvalidCharacter
      else
        match string_body rest with
        | inl (body, after) => inl (String c body, after)
        | inr why => inr why
        end
  end.

Fixpoint digits (s : string) : nat * string :=
  match s with
  | String c rest =>
      if is_digit c then let '(n, after) := digits rest in (S n, after)
      else (0, s)
  | EmptyString => (0, s)
  end.

(** At least one digit. *)
Definition some_digits (s : string) : string + refusal :=
  match digits s with
  | (0, EmptyString) => inr EndOfInput
  | (0, _) => inr InvalidCharacter
  | (_, after) => inl after
  end.

(** A number: sign, integer part without a leading zero, fraction,
    exponent. *)
Definition number (s : string) : string + refusal :=
  let s1 := match s with
            | String "-" rest => rest
            | _ => s
            end in
  let int_part :=
    match s1 with
    | String "0" rest => inl rest
    | _ => some_digits s1
    end in
  match int_part with
  | inr why => inr why
  | inl s2 =>
      let fraction :=
        match s2 with
        | String "." rest => some_digits rest
        | _ => inl s2
        end in
      match fraction with
      | inr why => inr why
      | inl s3 =>
          match s3 with
          | String c rest =>
              if bool_decide (c = "e"%char ∨ c = "E"%char) then
                match rest with
                | String sign rest' =>
                    if bool_decide (sign = "+"%char ∨ sign = "-"%char)
                    then some_digits rest'
                    else some_digits rest
                | EmptyString => inr EndOfInput
                end
              else inl s3
          | EmptyString => inl s3
          end
      end
  end.

(** The rest of [s] after the word [w]. *)
Fixpoint literal (w s : string) : string + refusal :=
  match w, s with
  | EmptyString, _ => inl s
  | String _ _, EmptyString => inr EndOfInput
  | String a w', String c rest =>
      if bool_decide (a = c) then literal w' rest else inr InvalidCharacter
  end.

(** A value at the head of [s] and what follows it.  Every call on a
    shorter fuel has read at least one character, so the length of the
    text is fuel enough. *)
Fixpoint parse_value (fuel : nat) (s : string) : (value * string) + refusal :=
  match fuel with
  | O => inr InvalidCharacter
  | S fuel' =>
      match skip_space s with
      | EmptyString => inr EndOfInput
      | String c rest =>
          if bool_decide (c = quote) then
            match string_body rest with
            | inl (body, after) => inl (Str body, after)
            | inr why => inr why
            end
          else if bool_decide (c = "{"%char) then
            match skip_space rest with
            | String "}" after => inl (Object, after)
            | _ =>
                match parse_members fuel' rest with
                | inl (_, after) => inl (Object, after)
                | inr why => inr why
                end
            end
          else if bool_decide (c = "["%char) then
            match skip_space rest with
            | String "]" after => inl (Array, after)
            | _ =>
                match parse_elements fuel' rest with
                | inl after => inl (Array, after)
                | inr why => inr why
                end
            end
          else if bool_decide (c = "t"%char) then
            match literal "rue" rest with
            | inl after => inl (Bool true, after)
            | inr why => inr why
            end
          else if bool_decide (c = "f"%char) then
            match literal "alse" rest with
            | inl after => inl (Bool false, after)
            | inr why => inr why
            end
          else if bool_decide (c = "n"%char) then
            match literal "ull" rest with
            | inl after => inl (Null, after)
            | inr why => inr why
            end
          else if bool_decide (c = "-"%char) || is_digit c then
            match number (String c rest) with
            | inl after => inl (Number, after)
            | inr why => inr why
            end
          else inr InvalidCharacter
      end
  end
with parse_elements (fuel : nat) (s : string) : string + refusal :=
  match fuel with
  | O => inr InvalidCharacter
  | S fuel' =>
      match parse_value fuel' s with
      | inr why => inr why
      | inl (_, after) =>
          match skip_space after with
          | String "," more => parse_elements fuel' more
          | String "]" after' => inl after'
          | EmptyString => inr EndOfInput
          | _ => inr InvalidCharacter
          end
      end
  end
with parse_members (fuel : nat) (s : string)
    : (list (string * value) * string) + refusal :=
  match fuel with
  | O => inr InvalidCharacter
  | S fuel' =>
      match skip_space s with
      | EmptyString => inr EndOfInput
      | String c rest =>
          if bool_decide (c = quote) then
            match string_body rest with
            | inr why => inr why
            | inl (key, after_key) =>
                match skip_space after_key with
                | String ":" after_colon =>
                    match parse_value fuel' after_colon with
                    | inr why => inr why
                    | inl (x, after) =>
                        match skip_space after with
                        | String "," more =>
                            match parse_members fuel' more with
                            | inl (members, after') =>
                                inl ((key, x) :: members, after')
                            | inr why => inr why
                            end
                        | String "}" after' => inl ([(key, x)], after')
                        | EmptyString => inr EndOfInput
                        | _ => inr InvalidCharacter
                        end
                    end
                | EmptyString => inr EndOfInput
                | _ => inr InvalidCharacter
                end
            end
          else inr InvalidCharacter
      end
  end.

(** A member's value as the repository reads it: a string, or something
    that is not a string. *)
Definition member (x : value) : Repository.jsonValue :=
  match x with
  | Str s => Repository.jsonString s
  | _ => Repository.jsonOther
  end.

(** The members as a Go map: a later member of the same name wins. *)
Definition to_map (members : list (string * value))
    : gmap string Repository.jsonValue :=
  foldl (λ m kv, <[kv.1 := member kv.2]> m) ∅ members.

(** The whole text: one value and nothing but white space after it.  For
    an object the members come with it. *)
Definition parse (s : string)
    : (value * list (string * value)) + refusal :=
  let whole (r : (value * list (string * value) * string) + refusal) :=
    match r with
    | inr why => inr why
    | inl (x, after) =>
        match skip_space after with
        | EmptyString => inl x
        | _ => inr InvalidCharacter
        end
    end in
  match skip_space s with
  | String "{" rest =>
      match skip_space rest with
      | String "}" after => whole (inl (Object, [], after))
      | _ =>
          match parse_members (String.length s) rest with
          | inl (members, after) => whole (inl (Object, members, after))
          | inr why => inr why
          end
      end
  | _ =>
      match parse_value (S (String.length s)) s with
      | inl (x, after) => whole (inl (x, [], after))
      | inr why => inr why
      end
  end.

(** The errors of the library.  Its message for a bad character also names
    the character and what the reader was looking for; that part is left
    out here. *)
Definition message (why : refusal) : error :=
  match why with
  | EndOfInput => errorString "unexpected end of JSON input"
  | InvalidCharacter => errorString "invalid character"
  | NotAnObject kind =>
      errorString ("json: cannot unmarshal " +:+ kind
                   +:+ " into Go value of type map[string]interface {}")
  end.

(** [json.Unmarshal(content, &processData)] for a nil
    [processData map[string]interface{}]: an object gives its members, the
    text [null] leaves the map nil, which reads as the empty map, and any
    other value is a type error. *)
Definition Unmarshal (content : list Byte.byte)
    : gmap string Repository.jsonValue + error :=
  match parse (String.string_of_list_byte content) with
  | inl (Object, members) => inl (to_map members)
  | inl (Null, _) => inl ∅
  | inl (Bool _, _) => inr (message (NotAnObject "bool"))
  | inl (Number, _) => inr (message (NotAnObject "number"))
  | inl (Str _, _) => inr (message (NotAnObject "string"))
  | inl (Array, _) => inr (message (NotAnObject "array"))
  | inr why => inr (message why)
  end.

End JSON.

(* ===================================================================== *)
(** ** Package runtime *)
(* ===================================================================== *)

Module ProcessInstance.
Record t : Type := mk {
  ID : string;
  ProcessDefinitionID : string;
  ProcessDefinitionKey : string;
  ProcessDefinitionName : string;
  BusinessKey : string;
  StartTime : Z;
  EndTime : option Z;
  StartUserID : string;
  Suspended : bool;
  TenantID : string;
  RootProcessInstanceID : string;
  ParentProcessInstanceID : string
}.

Definition with_Suspended (p : t) (b : bool) : t :=
  mk (ID p) (ProcessDefinitionID p) (ProcessDefinitionKey p)
    (ProcessDefinitionName p) (BusinessKey p) (StartTime p) (EndTime p)
    (StartUserID p) b (TenantID p) (RootProcessInstanceID p)
    (ParentProcessInstanceID p).
End ProcessInstance.

Module Execution.
Record t : Type := mk {
  ID : string;
  ProcessInstanceID : string;
  ParentID : string;
  ActivityID : string;
  IsActive : bool;
  IsConcurrent : bool;
  IsScope : bool;
  IsEventScope : bool;
  Suspended : bool;
  TenantID : string
}.
End Execution.

Module Runtime.

(** [runtimeServiceImpl].  The records behind the pointers are kept by
    value; [variables] maps an execution id to the location of its map
    object.  The repository reference is used only by the
    [StartProcessInstanceBy...] wrappers, which resolve the definition and
    then call [startProcessInstance]. *)
Record runtimeServiceImpl : Type := mk {
  enableAsync : bool;
  processInstances : gmap string ProcessInstance.t;
  executions : gmap string Execution.t;
  variables : gmap string positive
}.

Definition NewRuntimeService (enableAsync : bool) : runtimeServiceImpl :=
  mk enableAsync ∅ ∅ ∅.

Definition execution_not_found (executionID : string) : error :=
  Errorf_s "execution not found: " executionID.

Definition process_instance_not_found (processInstanceID : string) : error :=
  Errorf_s "process instance not found: " processInstanceID.

Definition definition_suspended (id : string) : error :=
  errorString ("process definition '" +:+ id +:+ "' is suspended").

(** One iteration of the loop of [DeleteProcessInstance] over the entry
    [(id, exec)], on the executions and variables maps being edited. *)
Definition delete_if_owned (processInstanceID : string) (id : string)
    (exec : Execution.t)
    (acc : gmap string Execution.t * gmap string positive)
    : gmap string Execution.t * gmap string positive :=
  if decide (Execution.ProcessInstanceID exec = processInstanceID)
  then (delete id (fst acc), delete id (snd acc))
  else acc.

Definition DeleteProcessInstance (s : runtimeServiceImpl)
    (processInstanceID deleteReason : string)
    : option error * runtimeServiceImpl :=
  match processInstances s !! processInstanceID with
  | None => (Some (process_instance_not_found processInstanceID), s)
  | Some _ =>
      let acc := map_fold (delete_if_owned processInstanceID)
                   (executions s, variables s) (executions s) in
      (None, mk (enableAsync s) (delete processInstanceID (processInstances s))
                (fst acc) (snd acc))
  end.

Definition set_Suspended (s : runtimeServiceImpl) (processInstanceID : string)
    (b : bool) : option error * runtimeServiceImpl :=
  match processInstances s !! processInstanceID with
  | None => (Some (process_instance_not_found processInstanceID), s)
  | Some p =>
      (None, mk (enableAsync s)
                (<[processInstanceID := ProcessInstance.with_Suspended p b]>
                   (processInstances s))
                (executions s) (variables s))
  end.

Definition SuspendProcessInstance (s : runtimeServiceImpl) (id : string) :=
  set_Suspended s id true.

Definition ActivateProcessInstance (s : runtimeServiceImpl) (id : string) :=
  set_Suspended s id false.

Definition GetProcessInstance (s : runtimeServiceImpl)
    (processInstanceID : string) : ProcessInstance.t + error :=
  match processInstances s !! processInstanceID with
  | None => inr (process_instance_not_found processInstanceID)
  | Some p => inl p
  end.

Section WithValues.

Context {V : Type}.
Local Abbreviation heap := (gmap positive (gmap string V)).

(** [startProcessInstance]; [uuid] is what [uuid.New().String()] returns
    and [now] what [time.Now()] returns. *)
Definition startProcessInstance (h : heap) (s : runtimeServiceImpl)
    (processDefinition : ProcessDefinition.t) (businessKey : string)
    (variables_arg : option positive) (uuid : string) (now : Z)
    : (ProcessInstance.t + error) * heap * runtimeServiceImpl :=
  if ProcessDefinition.Suspended processDefinition
  then (inr (definition_suspended (ProcessDefinition.ID processDefinition)), h, s)
  else
    let processInstance :=
      ProcessInstance.mk uuid
        (ProcessDefinition.ID processDefinition)
        (ProcessDefinition.Key processDefinition)
        (ProcessDefinition.Name processDefinition)
        businessKey now None "" false
        (ProcessDefinition.TenantID processDefinition)
        uuid "" in
    let execution :=
      Execution.mk (ProcessInstance.ID processInstance)
        (ProcessInstance.ID processInstance) "" "" true false true false false
        (ProcessDefinition.TenantID processDefinition) in
    let pis := <[ProcessInstance.ID processInstance := processInstance]>
                 (processInstances s) in
    let exs := <[Execution.ID execution := execution]> (executions s) in
    match variables_arg with
    | None => (inl processInstance, h, mk (enableAsync s) pis exs (variables s))
    | Some a =>
        let '(l, h1) := make h in
        (inl processInstance,
         range_assign h1 (Some a) l,
         mk (enableAsync s) pis exs (<[Execution.ID execution := l]> (variables s)))
    end.

(** [if s.variables[id] == nil { s.variables[id] = make(...) }], giving the
    location of the scope of [executionID]. *)
Definition scope (h : heap) (vars : gmap string positive) (id : string)
    : positive * heap * gmap string positive :=
  match vars !! id with
  | Some l => (l, h, vars)
  | None => let '(l, h1) := make h in (l, h1, <[id := l]> vars)
  end.

Definition SetVariable (h : heap) (s : runtimeServiceImpl)
    (executionID variableName : string) (value : V)
    : option error * heap * runtimeServiceImpl :=
  match executions s !! executionID with
  | None => (Some (execution_not_found executionID), h, s)
  | Some _ =>
      let '(l, h1, vars) := scope h (variables s) executionID in
      (None, <[l := <[variableName := value]> (entries h1 (Some l))]> h1,
       mk (enableAsync s) (processInstances s) (executions s) vars)
  end.

Definition SetVariables (h : heap) (s : runtimeServiceImpl)
    (executionID : string) (variables_arg : option positive)
    : option error * heap * runtimeServiceImpl :=
  match executions s !! executionID with
  | None => (Some (execution_not_found executionID), h, s)
  | Some _ =>
      let '(l, h1, vars) := scope h (variables s) executionID in
      (None, range_assign h1 variables_arg l,
       mk (enableAsync s) (processInstances s) (executions s) vars)
  end.

(** The interface value read from a map of [interface{}]: nil when the key
    is missing. *)
Definition GetVariable (h : heap) (s : runtimeServiceImpl)
    (executionID variableName : string) : option V + error :=
  match executions s !! executionID with
  | None => inr (execution_not_found executionID)
  | Some _ =>
      match variables s !! executionID with
      | None => inl None
      | Some l => inl (entries h (Some l) !! variableName)
      end
  end.

(** [GetVariables] returns a new map object holding a copy. *)
Definition GetVariables (h : heap) (s : runtimeServiceImpl)
    (executionID : string) : (positive + error) * heap :=
  match executions s !! executionID with
  | None => (inr (execution_not_found executionID), h)
  | Some _ =>
      let '(result, h1) := make h in
      match variables s !! executionID with
      | None => (inl result, h1)
      | Some l => (inl result, range_assign h1 (Some l) result)
      end
  end.

Definition RemoveVariable (h : heap) (s : runtimeServiceImpl)
    (executionID variableName : string) : option error * heap :=
  match executions s !! executionID with
  | None => (Some (execution_not_found executionID), h)
  | Some _ =>
      match variables s !! executionID with
      | None => (None, h)
      | Some l => (None, <[l := delete variableName (entries h (Some l))]> h)
      end
  end.

Definition SignalWithVariables (h : heap) (s : runtimeServiceImpl)
    (executionID : string) (variables_arg : option positive)
    : option error * heap * runtimeServiceImpl :=
  match executions s !! executionID with
  | None => (Some (execution_not_found executionID), h, s)
  | Some _ =>
      match variables_arg with
      | None => (None, h, s)
      | Some a =>
          let '(l, h1, vars) := scope h (variables s) executionID in
          (None, range_assign h1 (Some a) l,
           mk (enableAsync s) (processInstances s) (executions s) vars)
      end
  end.

Definition Signal (h : heap) (s : runtimeServiceImpl) (executionID : string) :=
  SignalWithVariables h s executionID None.

(** The [StartProcessInstanceBy...] methods, on the repository service
    the runtime service points to.  [order] is the order in which the
    repository's [range] over its definitions yields them. *)
Definition get_definition_failed (err : error) : error :=
  Errorf_w "failed to get process definition: " (Some err).

Definition StartProcessInstanceByKey (h : heap) (s : runtimeServiceImpl)
    (order : list ProcessDefinition.t) (processDefinitionKey : string)
    (variables_arg : option positive) (uuid : string) (now : Z)
    : (ProcessInstance.t + error) * heap * runtimeServiceImpl :=
  match Repository.GetProcessDefinitionByKey_ranging order processDefinitionKey with
  | inr err => (inr (get_definition_failed err), h, s)
  | inl processDefinition =>
      startProcessInstance h s processDefinition "" variables_arg uuid now
  end.

Definition StartProcessInstanceByID (h : heap) (s : runtimeServiceImpl)
    (repo : Repository.repositoryServiceImpl) (processDefinitionID : string)
    (variables_arg : option positive) (uuid : string) (now : Z)
    : (ProcessInstance.t + error) * heap * runtimeServiceImpl :=
  match Repository.GetProcessDefinition repo processDefinitionID with
  | inr err => (inr (get_definition_failed err), h, s)
  | inl processDefinition =>
      startProcessInstance h s processDefinition "" variables_arg uuid now
  end.

Definition StartProcessInstanceByKeyWithBusinessKey (h : heap)
    (s : runtimeServiceImpl) (order : list ProcessDefinition.t)
    (processDefinitionKey businessKey : string)
    (variables_arg : option positive) (uuid : string) (now : Z)
    : (ProcessInstance.t + error) * heap * runtimeServiceImpl :=
  match Repository.GetProcessDefinitionByKey_ranging order processDefinitionKey with
  | inr err => (inr (get_definition_failed err), h, s)
  | inl processDefinition =>
      startProcessInstance h s processDefinition businessKey variables_arg
        uuid now
  end.

End WithValues.

End Runtime.

(* ===================================================================== *)
(** ** Package task *)
(* ===================================================================== *)

Module Task.
Record t : Type := mk {
  ID : string;
  Name : string;
  Description : string;
  Priority : Z;
  Owner : string;
  Assignee : string;
  DueDate : option Z;
  Category : string;
  FormKey : string;
  ParentTaskID : string;
  ProcessInstanceID : string;
  ProcessDefinitionID : string;
  ExecutionID : string;
  TaskDefinitionKey : string;
  CreateTime : Z;
  ClaimTime : option Z;
  TenantID : string;
  Suspended : bool;
  CandidateUsers : list string;
  CandidateGroups : list string
}.

(** The assignments [task.F = x] of the service methods. *)
Definition with_ID (k : t) (x : string) : t :=
  mk x (Name k) (Description k) (Priority k) (Owner k) (Assignee k)
    (DueDate k) (Category k) (FormKey k) (ParentTaskID k)
    (ProcessInstanceID k) (ProcessDefinitionID k) (ExecutionID k)
    (TaskDefinitionKey k) (CreateTime k) (ClaimTime k) (TenantID k)
    (Suspended k) (CandidateUsers k) (CandidateGroups k).

Definition with_Priority (k : t) (x : Z) : t :=
  mk (ID k) (Name k) (Description k) x (Owner k) (Assignee k)
    (DueDate k) (Category k) (FormKey k) (ParentTaskID k)
    (ProcessInstanceID k) (ProcessDefinitionID k) (ExecutionID k)
    (TaskDefinitionKey k) (CreateTime k) (ClaimTime k) (TenantID k)
    (Suspended k) (CandidateUsers k) (CandidateGroups k).

Definition with_Owner (k : t) (x : string) : t :=
  mk (ID k) (Name k) (Description k) (Priority k) x (Assignee k)
    (DueDate k) (Category k) (FormKey k) (ParentTaskID k)
    (ProcessInstanceID k) (ProcessDefinitionID k) (ExecutionID k)
    (TaskDefinitionKey k) (CreateTime k) (ClaimTime k) (TenantID k)
    (Suspended k) (CandidateUsers k) (CandidateGroups k).

Definition with_Assignee (k : t) (x : string) : t :=
  mk (ID k) (Name k) (Description k) (Priority k) (Owner k) x
    (DueDate k) (Category k) (FormKey k) (ParentTaskID k)
    (ProcessInstanceID k) (ProcessDefinitionID k) (ExecutionID k)
    (TaskDefinitionKey k) (CreateTime k) (ClaimTime k) (TenantID k)
    (Suspended k) (CandidateUsers k) (CandidateGroups k).

Definition with_DueDate (k : t) (x : option Z) : t :=
  mk (ID k) (Name k) (Description k) (Priority k) (Owner k) (Assignee k)
    x (Category k) (FormKey k) (ParentTaskID k)
    (ProcessInstanceID k) (ProcessDefinitionID k) (ExecutionID k)
    (TaskDefinitionKey k) (CreateTime k) (ClaimTime k) (TenantID k)
    (Suspended k) (CandidateUsers k) (CandidateGroups k).

Definition with_ClaimTime (k : t) (x : option Z) : t :=
  mk (ID k) (Name k) (Description k) (Priority k) (Owner k) (Assignee k)
    (DueDate k) (Category k) (FormKey k) (ParentTaskID k)
    (ProcessInstanceID k) (ProcessDefinitionID k) (ExecutionID k)
    (TaskDefinitionKey k) (CreateTime k) x (TenantID k)
    (Suspended k) (CandidateUsers k) (CandidateGroups k).

Definition with_CandidateUsers (k : t) (x : list string) : t :=
  mk (ID k) (Name k) (Description k) (Priority k) (Owner k) (Assignee k)
    (DueDate k) (Category k) (FormKey k) (ParentTaskID k)
    (ProcessInstanceID k) (ProcessDefinitionID k) (ExecutionID k)
    (TaskDefinitionKey k) (CreateTime k) (ClaimTime k) (TenantID k)
    (Suspended k) x (CandidateGroups k).

Definition with_CandidateGroups (k : t) (x : list string) : t :=
  mk (ID k) (Name k) (Description k) (Priority k) (Owner k) (Assignee k)
    (DueDate k) (Category k) (FormKey k) (ParentTaskID k)
    (ProcessInstanceID k) (ProcessDefinitionID k) (ExecutionID k)
    (TaskDefinitionKey k) (CreateTime k) (ClaimTime k) (TenantID k)
    (Suspended k) (CandidateUsers k) x.
End Task.

Module Comment.
Record t : Type := mk {
  ID : string;
  TaskID : string;
  UserID : string;
  Message : string;
  Time : Z
}.
End Comment.

Module Attachment.
Record t : Type := mk {
  ID : string;
  Name : string;
  Description : string;
  Type_ : string;
  TaskID : string;
  ProcessInstanceID : string;
  URL : string;
  Content : list Byte.byte;
  Time : Z
}.
End Attachment.

Module TaskService.

Section WithTypes.

Context {V W E : Type}.
Local Abbreviation heap := (gmap positive (gmap string V)).

(** [taskServiceImpl].  The [runtimeService] field holds the state of the
    runtime service the task service points to; tasks behind the pointers
    of [tasks] are kept by value; [variables] maps a task id to the
    location of its map object. *)
Record taskServiceImpl : Type := mk {
  runtimeService : Runtime.runtimeServiceImpl;
  executor : Engine.CommandExecutor V W E;
  tasks : gmap string Task.t;
  comments : gmap string (list Comment.t);
  attachments : gmap string (list Attachment.t);
  variables : gmap string positive
}.

Definition with_runtimeService (s : taskServiceImpl) x : taskServiceImpl :=
  mk x (executor s) (tasks s) (comments s) (attachments s) (variables s).
Definition with_tasks (s : taskServiceImpl) x : taskServiceImpl :=
  mk (runtimeService s) (executor s) x (comments s) (attachments s) (variables s).
Definition with_comments (s : taskServiceImpl) x : taskServiceImpl :=
  mk (runtimeService s) (executor s) (tasks s) x (attachments s) (variables s).
Definition with_attachments (s : taskServiceImpl) x : taskServiceImpl :=
  mk (runtimeService s) (executor s) (tasks s) (comments s) x (variables s).
Definition with_variables (s : taskServiceImpl) x : taskServiceImpl :=
  mk (runtimeService s) (executor s) (tasks s) (comments s) (attachments s) x.

(** [NewTaskService] asks for a command executor over no interceptors
    before it builds the service. *)
Definition NewTaskService (runtimeService : Runtime.runtimeServiceImpl)
    : outcome taskServiceImpl :=
  match Engine.NewCommandExecutor [] with
  | Panic msg => Panic msg
  | Ret cmdExec => Ret (mk runtimeService cmdExec ∅ ∅ ∅ ∅)
  end.

Definition task_not_found (taskID : string) : error :=
  Errorf_s "task not found: " taskID.

Definition already_claimed (assignee : string) : error :=
  Errorf_s "task is already claimed by another user: " assignee.

Definition NewTask (taskID uuid : string) (now : Z) : Task.t :=
  let taskID := if decide (taskID = "") then uuid else taskID in
  Task.mk taskID "" "" 5 "" "" None "" "" "" "" "" "" "" now None "" false [] [].

Definition SaveTask (s : taskServiceImpl) (task : Task.t) (uuid : string)
    : option error * taskServiceImpl :=
  let task := if decide (Task.ID task = "") then Task.with_ID task uuid else task in
  (None, with_tasks s (<[Task.ID task := task]> (tasks s))).

Definition DeleteTask (s : taskServiceImpl) (taskID : string)
    : option error * taskServiceImpl :=
  match tasks s !! taskID with
  | None => (Some (task_not_found taskID), s)
  | Some _ =>
      (None, mk (runtimeService s) (executor s)
                (delete taskID (tasks s)) (delete taskID (comments s))
                (delete taskID (attachments s)) (delete taskID (variables s)))
  end.

(** The shape of the methods that look the task up and assign to it. *)
Definition update_task (s : taskServiceImpl) (taskID : string)
    (f : Task.t → Task.t) : option error * taskServiceImpl :=
  match tasks s !! taskID with
  | None => (Some (task_not_found taskID), s)
  | Some task => (None, with_tasks s (<[taskID := f task]> (tasks s)))
  end.

Definition Claim (s : taskServiceImpl) (taskID userID : string) (now : Z)
    : option error * taskServiceImpl :=
  match tasks s !! taskID with
  | None => (Some (task_not_found taskID), s)
  | Some task =>
      if decide (Task.Assignee task ≠ "" ∧ Task.Assignee task ≠ userID)
      then (Some (already_claimed (Task.Assignee task)), s)
      else
        let task := Task.with_Assignee task userID in
        let task := Task.with_ClaimTime task (Some now) in
        (None, with_tasks s (<[taskID := task]> (tasks s)))
  end.

Definition Unclaim (s : taskServiceImpl) (taskID : string)
    : option error * taskServiceImpl :=
  update_task s taskID
    (λ task, Task.with_ClaimTime (Task.with_Assignee task "") None).

Definition SetAssignee (s : taskServiceImpl) (taskID userID : string) :=
  update_task s taskID (λ task, Task.with_Assignee task userID).

Definition SetOwner (s : taskServiceImpl) (taskID userID : string) :=
  update_task s taskID (λ task, Task.with_Owner task userID).

(** The candidate lists are kept by value: [add_candidate] and
    [delete_candidate] give what the slice the method assigns back reads as.
    Where two slices share a backing array (a caller can hand [SaveTask]
    such tasks) [append] also writes into the storage behind the other
    slice; that is outside this reading, and the properties below that
    come from these two functions speak of the list the method assigns
    only. *)

(** [for _, u := range xs { if u == x { return nil } }; xs = append(xs, x)] *)
Definition add_candidate (xs : list string) (x : string) : list string :=
  if decide (x ∈ xs) then xs else xs ++ [x].

(** [for i, u := range xs { if u == x { xs = append(xs[:i], xs[i+1:]...); break } }] *)
Fixpoint delete_candidate (xs : list string) (x : string) : list string :=
  match xs with
  | [] => []
  | u :: rest => if decide (u = x) then rest else u :: delete_candidate rest x
  end.

Definition AddCandidateUser (s : taskServiceImpl) (taskID userID : string) :=
  update_task s taskID
    (λ task, Task.with_CandidateUsers task
               (add_candidate (Task.CandidateUsers task) userID)).

Definition AddCandidateGroup (s : taskServiceImpl) (taskID groupID : string) :=
  update_task s taskID
    (λ task, Task.with_CandidateGroups task
               (add_candidate (Task.CandidateGroups task) groupID)).

Definition DeleteCandidateUser (s : taskServiceImpl) (taskID userID : string) :=
  update_task s taskID
    (λ task, Task.with_CandidateUsers task
               (delete_candidate (Task.CandidateUsers task) userID)).

Definition DeleteCandidateGroup (s : taskServiceImpl) (taskID groupID : string) :=
  update_task s taskID
    (λ task, Task.with_CandidateGroups task
               (delete_candidate (Task.CandidateGroups task) groupID)).

Definition SetPriority (s : taskServiceImpl) (taskID : string) (priority : Z) :=
  update_task s taskID (λ task, Task.with_Priority task priority).

Definition SetDueDate (s : taskServiceImpl) (taskID : string) (dueDate : Z) :=
  update_task s taskID (λ task, Task.with_DueDate task (Some dueDate)).

(** [CompleteWithVariables]: look the task up, write the variables to the
    owning execution, signal it, then [delete(s.tasks, taskID)]. *)
Definition CompleteWithVariables (h : heap) (s : taskServiceImpl)
    (taskID : string) (variables_arg : option positive)
    : option error * heap * taskServiceImpl :=
  match tasks s !! taskID with
  | None => (Some (task_not_found taskID), h, s)
  | Some task =>
      let '(err1, h1, rt1) :=
        if decide (variables_arg ≠ None ∧ Task.ExecutionID task ≠ "")
        then Runtime.SetVariables h (runtimeService s) (Task.ExecutionID task)
               variables_arg
        else (None, h, runtimeService s) in
      match err1 with
      | Some err =>
          (Some (Errorf_w "failed to set variables: " (Some err)), h1,
           with_runtimeService s rt1)
      | None =>
          let '(err2, h2, rt2) :=
            if decide (Task.ExecutionID task ≠ "")
            then Runtime.Signal h1 rt1 (Task.ExecutionID task)
            else (None, h1, rt1) in
          match err2 with
          | Some err =>
              (Some (Errorf_w "failed to signal execution: " (Some err)), h2,
               with_runtimeService s rt2)
          | None =>
              let s2 := with_runtimeService s rt2 in
              (None, h2, with_tasks s2 (delete taskID (tasks s2)))
          end
      end
  end.

Definition Complete (h : heap) (s : taskServiceImpl) (taskID : string) :=
  CompleteWithVariables h s taskID None.

(** Task-scoped variables. *)
Definition GetTaskVariables (h : heap) (s : taskServiceImpl) (taskID : string)
    : (positive + error) * heap :=
  match tasks s !! taskID with
  | None => (inr (task_not_found taskID), h)
  | Some _ =>
      let '(result, h1) := make h in
      match variables s !! taskID with
      | None => (inl result, h1)
      | Some l => (inl result, range_assign h1 (Some l) result)
      end
  end.

Definition SetTaskVariable (h : heap) (s : taskServiceImpl)
    (taskID variableName : string) (value : V)
    : option error * heap * taskServiceImpl :=
  match tasks s !! taskID with
  | None => (Some (task_not_found taskID), h, s)
  | Some _ =>
      let '(l, h1, vars) := Runtime.scope h (variables s) taskID in
      (None, <[l := <[variableName := value]> (entries h1 (Some l))]> h1,
       with_variables s vars)
  end.

Definition SetTaskVariables (h : heap) (s : taskServiceImpl)
    (taskID : string) (variables_arg : option positive)
    : option error * heap * taskServiceImpl :=
  match tasks s !! taskID with
  | None => (Some (task_not_found taskID), h, s)
  | Some _ =>
      let '(l, h1, vars) := Runtime.scope h (variables s) taskID in
      (None, range_assign h1 variables_arg l, with_variables s vars)
  end.

(** Comments and attachments. *)
Definition AddComment (s : taskServiceImpl) (taskID message uuid : string)
    (now : Z) : (Comment.t + error) * taskServiceImpl :=
  match tasks s !! taskID with
  | None => (inr (task_not_found taskID), s)
  | Some _ =>
      let comment := Comment.mk uuid taskID "" message now in
      (inl comment,
       with_comments s
         (<[taskID := default [] (comments s !! taskID) ++ [comment]]>
            (comments s)))
  end.

Definition GetTaskComments (s : taskServiceImpl) (taskID : string)
    : list Comment.t + error :=
  match tasks s !! taskID with
  | None => inr (task_not_found taskID)
  | Some _ => inl (default [] (comments s !! taskID))
  end.

Definition CreateAttachment (s : taskServiceImpl)
    (taskID attachmentType attachmentName attachmentDescription : string)
    (content : list Byte.byte) (uuid : string) (now : Z)
    : (Attachment.t + error) * taskServiceImpl :=
  match tasks s !! taskID with
  | None => (inr (task_not_found taskID), s)
  | Some task =>
      let attachment :=
        Attachment.mk uuid attachmentName attachmentDescription attachmentType
          taskID (Task.ProcessInstanceID task) "" content now in
      (inl attachment,
       with_attachments s
         (<[taskID := default [] (attachments s !! taskID) ++ [attachment]]>
            (attachments s)))
  end.

Definition GetTaskAttachments (s : taskServiceImpl) (taskID : string)
    : list Attachment.t + error :=
  match tasks s !! taskID with
  | None => inr (task_not_found taskID)
  | Some _ => inl (default [] (attachments s !! taskID))
  end.

Definition GetTaskVariable (h : heap) (s : taskServiceImpl)
    (taskID variableName : string) : option V + error :=
  match tasks s !! taskID with
  | None => inr (task_not_found taskID)
  | Some _ =>
      match variables s !! taskID with
      | None => inl None
      | Some l => inl (entries h (Some l) !! variableName)
      end
  end.

Definition RemoveTaskVariable (h : heap) (s : taskServiceImpl)
    (taskID variableName : string) : option error * heap :=
  match tasks s !! taskID with
  | None => (Some (task_not_found taskID), h)
  | Some _ =>
      match variables s !! taskID with
      | None => (None, h)
      | Some l => (None, <[l := delete variableName (entries h (Some l))]> h)
      end
  end.

(** The inner loop of [DeleteAttachment]: the list without its first
    attachment of that id, if it has one. *)
Fixpoint remove_attachment (xs : list Attachment.t) (attachmentID : string)
    : option (list Attachment.t) :=
  match xs with
  | [] => None
  | att :: rest =>
      if decide (Attachment.ID att = attachmentID) then Some rest
      else (att ::.) <$> remove_attachment rest attachmentID
  end.

(** [DeleteAttachment] when the [range] over [s.attachments] yields the
    entries in the order [order]. *)
Fixpoint DeleteAttachment_ranging (order : list (string * list Attachment.t))
    (s : taskServiceImpl) (attachmentID : string)
    : option error * taskServiceImpl :=
  match order with
  | [] => (Some (Errorf_s "attachment not found: " attachmentID), s)
  | (taskID, atts) :: rest =>
      match remove_attachment atts attachmentID with
      | Some atts' =>
          (None, with_attachments s (<[taskID := atts']> (attachments s)))
      | None => DeleteAttachment_ranging rest s attachmentID
      end
  end.

Definition DeleteAttachment (s : taskServiceImpl) (attachmentID : string) :=
  DeleteAttachment_ranging (map_to_list (attachments s)) s attachmentID.

End WithTypes.

Arguments taskServiceImpl : clear implicits.

End TaskService.

(* ===================================================================== *)
(** ** Package commands *)
(* ===================================================================== *)

Module ClaimTaskCommand.
Record t : Type := mk {
  TaskID : string;
  UserID : string
}.
End ClaimTaskCommand.

Module CompleteTaskCommand.
Record t (V : Type) : Type := mk {
  TaskID : string;
  Variables : option (gmap string V)
}.
Arguments mk {V}.
Arguments TaskID {V}.
Arguments Variables {V}.
End CompleteTaskCommand.

Module StartProcessInstanceCommand.
Record t : Type := mk {
  ProcessDefinitionID : string;
  ProcessDefinitionKey : string;
  BusinessKey : string;
  Variables : option positive
}.
End StartProcessInstanceCommand.

Module DeployCommand.
Record t : Type := mk {
  DeploymentName : string;
  Category : string;
  TenantID : string;
  ResourceName : string;
  ResourceContent : list Byte.byte
}.
End DeployCommand.

Module Commands.

(** The methods of the [TaskService] and [RuntimeService] interfaces the
    task commands call, on the state [S] the services keep. *)
Record TaskAPI (S : Type) : Type := mkTaskAPI {
  GetTask : S → string → (Task.t + error) * S;
  Claim : S → string → string → option error * S;
  Complete : S → string → option error * S
}.
Arguments GetTask {S}.
Arguments Claim {S}.
Arguments Complete {S}.

Record RuntimeAPI (S V : Type) : Type := mkRuntimeAPI {
  SetVariables : S → string → gmap string V → option error * S
}.
Arguments SetVariables {S V}.

Section TaskCommands.

Context {S V R : Type}.
Variable taskService : TaskAPI S.
Variable runtimeService : RuntimeAPI S V.

(** [ClaimTaskCommand.Execute]; the result value is always nil. *)
Definition ClaimTaskCommand_Execute (c : ClaimTaskCommand.t) (s : S)
    : (option R * option error) * S :=
  if decide (ClaimTaskCommand.TaskID c = "")
  then ((None, Some (errorString "task ID cannot be empty")), s)
  else if decide (ClaimTaskCommand.UserID c = "")
  then ((None, Some (errorString "user ID cannot be empty")), s)
  else
    match GetTask taskService s (ClaimTaskCommand.TaskID c) with
    | (inr err, s1) => ((None, Some (Errorf_w "task not found: " (Some err))), s1)
    | (inl task, s1) =>
        if decide (Task.Assignee task ≠ ""
                   ∧ Task.Assignee task ≠ ClaimTaskCommand.UserID c)
        then ((None, Some (errorString
                 ("task '" +:+ ClaimTaskCommand.TaskID c
                  +:+ "' is already claimed by user '"
                  +:+ Task.Assignee task +:+ "'"))), s1)
        else if decide (0 < length (Task.CandidateUsers task)
                        ∧ ClaimTaskCommand.UserID c ∉ Task.CandidateUsers task)
        then ((None, Some (errorString
                 ("user '" +:+ ClaimTaskCommand.UserID c
                  +:+ "' is not a candidate for task '"
                  +:+ ClaimTaskCommand.TaskID c +:+ "'"))), s1)
        else
          match Claim taskService s1 (ClaimTaskCommand.TaskID c)
                  (ClaimTaskCommand.UserID c) with
          | (Some err, s2) =>
              ((None, Some (Errorf_w "failed to claim task: " (Some err))), s2)
          | (None, s2) => ((None, None), s2)
          end
    end.

(** [CompleteTaskCommand.Execute]. *)
Definition CompleteTaskCommand_Execute (c : CompleteTaskCommand.t V) (s : S)
    : (option R * option error) * S :=
  if decide (CompleteTaskCommand.TaskID c = "")
  then ((None, Some (errorString "task ID cannot be empty")), s)
  else
    match GetTask taskService s (CompleteTaskCommand.TaskID c) with
    | (inr err, s1) => ((None, Some (Errorf_w "task not found: " (Some err))), s1)
    | (inl task, s1) =>
        if Task.Suspended task
        then ((None, Some (errorString
                 ("cannot complete suspended task '"
                  +:+ CompleteTaskCommand.TaskID c +:+ "'"))), s1)
        else
          let '(err1, s2) :=
            match CompleteTaskCommand.Variables c with
            | Some m =>
                if decide (m ≠ ∅ ∧ Task.ExecutionID task ≠ "")
                then SetVariables runtimeService s1 (Task.ExecutionID task) m
                else (None, s1)
            | None => (None, s1)
            end in
          match err1 with
          | Some err =>
              ((None, Some (Errorf_w "failed to set variables: " (Some err))), s2)
          | None =>
              match Complete taskService s2 (CompleteTaskCommand.TaskID c) with
              | (Some err, s3) =>
                  ((None, Some (Errorf_w "failed to complete task: " (Some err))),
                   s3)
              | (None, s3) => ((None, None), s3)
              end
          end
    end.

End TaskCommands.

Section StoreCommands.

Context {V : Type}.
Local Abbreviation heap := (gmap positive (gmap string V)).

(** What the runtime call leaves in the command's [instance] variable. *)
Definition started (r : ProcessInstance.t + error) : option ProcessInstance.t :=
  match r with
  | inl p => Some p
  | inr _ => None
  end.

(** [StartProcessInstanceCommand.Execute] on the repository and runtime
    services of the engine.  In both branches [processDef, err := ...]
    declares an [err] of the branch, and it is this one the runtime call
    assigns to; the [err] tested after the branches is the function's own,
    which nothing assigns to.  [order_c] and [order_r] are the orders in
    which the repository yields its definitions to the command's lookup
    and to the runtime service's. *)
Definition StartProcessInstanceCommand_Execute (h : heap)
    (rt : Runtime.runtimeServiceImpl) (repo : Repository.repositoryServiceImpl)
    (order_c order_r : list ProcessDefinition.t)
    (c : StartProcessInstanceCommand.t) (uuid : string) (now : Z)
    : (option ProcessInstance.t * option error) * heap * Runtime.runtimeServiceImpl :=
  let finish (r : (ProcessInstance.t + error) * heap * Runtime.runtimeServiceImpl) :=
    let '(instance, h1, rt1) := r in
    let err : option error := None in
    match err with
    | Some e =>
        ((None, Some (Errorf_w "failed to start process instance: " (Some e))),
         h1, rt1)
    | None => ((started instance, None), h1, rt1)
    end in
  if decide (StartProcessInstanceCommand.ProcessDefinitionID c ≠ "")
  then
    match Repository.GetProcessDefinition repo
            (StartProcessInstanceCommand.ProcessDefinitionID c) with
    | inr err =>
        ((None, Some (Errorf_w "process definition not found: " (Some err))), h, rt)
    | inl processDef =>
        if ProcessDefinition.Suspended processDef
        then ((None, Some (errorString
                 ("cannot start process instance: process definition '"
                  +:+ StartProcessInstanceCommand.ProcessDefinitionID c
                  +:+ "' is suspended"))), h, rt)
        else if decide (StartProcessInstanceCommand.BusinessKey c ≠ "")
        then finish (Runtime.StartProcessInstanceByKeyWithBusinessKey h rt
                       order_r (ProcessDefinition.Key processDef)
                       (StartProcessInstanceCommand.BusinessKey c)
                       (StartProcessInstanceCommand.Variables c) uuid now)
        else finish (Runtime.StartProcessInstanceByID h rt repo
                       (StartProcessInstanceCommand.ProcessDefinitionID c)
                       (StartProcessInstanceCommand.Variables c) uuid now)
    end
  else if decide (StartProcessInstanceCommand.ProcessDefinitionKey c ≠ "")
  then
    match Repository.GetProcessDefinitionByKey_ranging order_c
            (StartProcessInstanceCommand.ProcessDefinitionKey c) with
    | inr err =>
        ((None, Some (Errorf_w
            ("process definition not found with key '"
             +:+ StartProcessInstanceCommand.ProcessDefinitionKey c +:+ "': ")
            (Some err))), h, rt)
    | inl processDef =>
        if ProcessDefinition.Suspended processDef
        then ((None, Some (errorString
                 ("cannot start process instance: process definition '"
                  +:+ StartProcessInstanceCommand.ProcessDefinitionKey c
                  +:+ "' is suspended"))), h, rt)
        else if decide (StartProcessInstanceCommand.BusinessKey c ≠ "")
        then finish (Runtime.StartProcessInstanceByKeyWithBusinessKey h rt
                       order_r
                       (StartProcessInstanceCommand.ProcessDefinitionKey c)
                       (StartProcessInstanceCommand.BusinessKey c)
                       (StartProcessInstanceCommand.Variables c) uuid now)
        else finish (Runtime.StartProcessInstanceByKey h rt order_r
                       (StartProcessInstanceCommand.ProcessDefinitionKey c)
                       (StartProcessInstanceCommand.Variables c) uuid now)
    end
  else ((None, Some (errorString
           "either process definition ID or key must be provided")), h, rt).

End StoreCommands.

Section Deploy.

Variable Unmarshal : list Byte.byte → gmap string Repository.jsonValue + error.

(** [DeployCommand.Execute] on the repository service: the builder holds
    the one resource [AddProcessDefinition] appended and [Deploy] calls
    [deployInternal]. *)
Definition DeployCommand_Execute (s : Repository.repositoryServiceImpl)
    (c : DeployCommand.t) (uuid : nat → string) (now : Z)
    : (option Deployment.t * option error) * Repository.repositoryServiceImpl :=
  if decide (length (DeployCommand.ResourceContent c) = 0)
  then ((None, Some (errorString "resource content cannot be empty")), s)
  else if decide (DeployCommand.ResourceName c = "")
  then ((None, Some (errorString "resource name cannot be empty")), s)
  else
    let resource :=
      Resource.mk "" (DeployCommand.ResourceName c) ""
        (DeployCommand.ResourceContent c) "" in
    match Repository.DeployInternal Unmarshal s (DeployCommand.DeploymentName c)
            (DeployCommand.Category c) (DeployCommand.TenantID c) [resource]
            uuid now with
    | (inr err, _, s1) =>
        ((None, Some (Errorf_w "failed to deploy process definition: " (Some err))),
         s1)
    | (inl deployment, _, s1) => ((Some deployment, None), s1)
    end.

End Deploy.

End Commands.

(* ===================================================================== *)
(** ** Vocabulary of the properties *)
(* ===================================================================== *)

Module Props.

Section WithTypes.

Context {V W E : Type}.
Local Abbreviation heap := (gmap positive (gmap string V)).
Local Abbreviation service := (TaskService.taskServiceImpl V W E).

(** The task invariant of the data model: a claim time is recorded exactly
    when the task has an assignee. *)
Definition claim_invariant (k : Task.t) : Prop :=
  Task.ClaimTime k ≠ None ↔ Task.Assignee k ≠ "".

Definition store_invariant (s : service) : Prop :=
  ∀ taskID k, TaskService.tasks s !! taskID = Some k → claim_invariant k.

(** The calls a client can make on the task service. *)
Inductive Op : Type :=
| OpSaveTask (task : Task.t) (uuid : string)
| OpDeleteTask (taskID : string)
| OpClaim (taskID userID : string) (now : Z)
| OpUnclaim (taskID : string)
| OpCompleteWithVariables (taskID : string) (variables : option positive)
| OpSetAssignee (taskID userID : string)
| OpSetOwner (taskID userID : string)
| OpAddCandidateUser (taskID userID : string)
| OpAddCandidateGroup (taskID groupID : string)
| OpDeleteCandidateUser (taskID userID : string)
| OpDeleteCandidateGroup (taskID groupID : string)
| OpSetPriority (taskID : string) (priority : Z)
| OpSetDueDate (taskID : string) (dueDate : Z)
| OpSetTaskVariable (taskID variableName : string) (value : V)
| OpSetTaskVariables (taskID : string) (variables : option positive)
| OpAddComment (taskID message uuid : string) (now : Z)
| OpCreateAttachment (taskID type_ name description : string)
    (content : list Byte.byte) (uuid : string) (now : Z).

(** The state after a call, whether it returned an error or not. *)
Definition call (st : heap * service) (o : Op) : heap * service :=
  let '(h, s) := st in
  match o with
  | OpSaveTask task uuid => (h, snd (TaskService.SaveTask s task uuid))
  | OpDeleteTask taskID => (h, snd (TaskService.DeleteTask s taskID))
  | OpClaim taskID userID now => (h, snd (TaskService.Claim s taskID userID now))
  | OpUnclaim taskID => (h, snd (TaskService.Unclaim s taskID))
  | OpCompleteWithVariables taskID variables =>
      let '(_, h', s') := TaskService.CompleteWithVariables h s taskID variables in
      (h', s')
  | OpSetAssignee taskID userID => (h, snd (TaskService.SetAssignee s taskID userID))
  | OpSetOwner taskID userID => (h, snd (TaskService.SetOwner s taskID userID))
  | OpAddCandidateUser taskID userID =>
      (h, snd (TaskService.AddCandidateUser s taskID userID))
  | OpAddCandidateGroup taskID groupID =>
      (h, snd (TaskService.AddCandidateGroup s taskID groupID))
  | OpDeleteCandidateUser taskID userID =>
      (h, snd (TaskService.DeleteCandidateUser s taskID userID))
  | OpDeleteCandidateGroup taskID groupID =>
      (h, snd (TaskService.DeleteCandidateGroup s taskID groupID))
  | OpSetPriority taskID priority =>
      (h, snd (TaskService.SetPriority s taskID priority))
  | OpSetDueDate taskID dueDate =>
      (h, snd (TaskService.SetDueDate s taskID dueDate))
  | OpSetTaskVariable taskID variableName value =>
      let '(_, h', s') := TaskService.SetTaskVariable h s taskID variableName value in
      (h', s')
  | OpSetTaskVariables taskID variables =>
      let '(_, h', s') := TaskService.SetTaskVariables h s taskID variables in
      (h', s')
  | OpAddComment taskID message uuid now =>
      (h, snd (TaskService.AddComment s taskID message uuid now))
  | OpCreateAttachment taskID type_ name description content uuid now =>
      (h, snd (TaskService.CreateAttachment s taskID type_ name description
                 content uuid now))
  end.

Definition calls (st : heap * service) (ops : list Op) : heap * service :=
  foldl call st ops.

(** The calls that keep [claim_invariant]: every one but [SetAssignee],
    with a non-empty user in [Claim] and, for [SaveTask], a task that
    satisfies the invariant when it is handed over. *)
Definition keeps_claim_time (o : Op) : Prop :=
  match o with
  | OpSetAssignee _ _ => False
  | OpClaim _ userID _ => userID ≠ ""
  | OpSaveTask task _ => claim_invariant task
  | _ => True
  end.

End WithTypes.

(** A task service as a test of package [task] would set it up, over an
    empty runtime service. *)
Definition empty_service : TaskService.taskServiceImpl Z unit unit :=
  TaskService.mk (Runtime.NewRuntimeService false)
    (Engine.mkCommandExecutor [Engine.CommandInvoker]) ∅ ∅ ∅ ∅.

End Props.

(* ===================================================================== *)
(** * Properties *)
(* ===================================================================== *)

(** ** Go maps and errors *)

Lemma copy_into_union {T : Type} (src dst : gmap string T) :
  copy_into src dst = src ∪ dst.
Proof.
  unfold copy_into.
  apply (map_fold_weak_ind (λ r m, r = m ∪ dst)).
  - by rewrite (left_id_L ∅ (∪)).
  - intros k v m r Hk ->. by rewrite insert_union_l.
Qed.

Lemma make_fresh {T : Type} (h : gmap positive (gmap string T)) :
  h !! fst (make h) = None.
Proof.
  unfold make. simpl. apply not_elem_of_dom. apply is_fresh.
Qed.

Lemma errors_Is_refl (e : error) : errors_Is e e = true.
Proof. destruct e; simpl; by rewrite decide_True. Qed.

Lemma errors_Is_wrap (msg : string) (e target : error) :
  errors_Is e target = true → errors_Is (wrapError msg e) target = true.
Proof. intros H. simpl. by case_decide. Qed.

(** ** The command pipeline *)

Section EngineFacts.

Context {V W E : Type}.
Import Engine.

Local Abbreviation St := (State V W E).
Local Abbreviation Cmd := (Command V W E).
Local Abbreviation Ctx := (Engine.Context V E).

(** The state in which the interceptor of kind [k] hands over to what it
    calls next. *)
Definition entered (k : Kind) (st : St) : St :=
  mkState (world st) (logs st) (trace st ++ [Enter k]).

Definition logged (l : LogLine) (st : St) : St :=
  mkState (world st) (logs st ++ [l]) (trace st).

Lemma retry_loop_first_failure (maxRetries : Z) (next : Exec V W E)
    (ctx : Ctx) (cmd : Cmd) (n : nat) (err0 : option error) (st st1 : St)
    (r : option V) (e : error) :
  next ctx cmd st = (Ret (r, Some e), st1) →
  isRetryableError e = false →
  retry_loop maxRetries (Some next) ctx cmd (S n) 0 err0 st
  = (Ret (None, Some (Errorf_w (retries_message maxRetries) (Some e))), st1).
Proof.
  intros Hnext Hcls. cbn [retry_loop]. unfold bind, ret.
  rewrite decide_False by lia. cbn [next_Execute].
  rewrite Hnext. by rewrite Hcls.
Qed.

(** C8 (as amended): for every retry bound [maxRetries >= 0] and every
    downstream that fails on each call with an error the default predicate
    [isRetryableError] does not classify as retryable, [RetryInterceptor]
    calls the downstream exactly once: the state it returns is the state
    after one call from the state it started in, so a call counter kept by
    the downstream goes up by one.  The result is nil with an error whose
    message starts with "command failed after <maxRetries> retries: " and
    through which [errors.Is] reaches the downstream's error. *)
Theorem retry_nonretryable_once (maxRetries : Z) (next : Exec V W E)
    (count : W → nat) (ctx : Ctx) (cmd : Cmd) (st : St) :
  (0 ≤ maxRetries)%Z →
  (∀ ctx' cmd' st', ∃ r e st1,
      next ctx' cmd' st' = (Ret (r, Some e), st1)
      ∧ isRetryableError e = false
      ∧ count (world st1) = S (count (world st'))) →
  ∃ r e st1,
    next ctx cmd (entered KRetry st) = (Ret (r, Some e), st1)
    ∧ RetryInterceptor_Execute maxRetries (Some next) ctx cmd st
      = (Ret (None, Some (wrapError (retries_message maxRetries +:+ Error e) e)),
         st1)
    ∧ count (world st1) = S (count (world st))
    ∧ errors_Is (wrapError (retries_message maxRetries +:+ Error e) e) e = true.
Proof.
  intros Hn Hnext.
  destruct (Hnext ctx cmd (entered KRetry st)) as (r & e & st1 & Hcall & Hcls & Hcount).
  exists r, e, st1. split; [exact Hcall|]. split; [|split].
  - unfold RetryInterceptor_Execute, bind, emit. simpl.
    destruct (Z.to_nat (maxRetries + 1)) as [|n] eqn:Hfuel; [lia|].
    by rewrite (retry_loop_first_failure _ _ _ _ _ _ _ _ _ _ Hcall Hcls).
  - exact Hcount.
  - apply errors_Is_wrap, errors_Is_refl.
Qed.

(** What [TransactionInterceptor] makes of its downstream's result: the
    error as it is; the value as it is on success, nil on failure. *)
Definition rethrown (r : Result V) : Result V :=
  match snd r with
  | Some e => (None, Some e)
  | None => (fst r, None)
  end.

Lemma LoggingInterceptor_transparent (next : Exec V W E) (ctx : Ctx)
    (cmd : Cmd) (st st1 : St) (r : Result V) :
  next ctx cmd (logged (LogExecuting (typeName cmd)) (entered KLogging st))
  = (Ret r, st1) →
  LoggingInterceptor_Execute (Some next) ctx cmd st
  = (Ret r,
     logged (match snd r with
             | Some e => LogFailed (typeName cmd) e
             | None => LogCompleted (typeName cmd)
             end) st1).
Proof.
  intros Hnext. unfold LoggingInterceptor_Execute, bind, emit, log_Printf.
  cbn [next_Execute]. unfold entered, logged in Hnext. cbn in Hnext |- *.
  rewrite Hnext. destruct r as [v [e|]]; reflexivity.
Qed.

Lemma TransactionInterceptor_rethrows (next : Exec V W E) (ctx : Ctx)
    (cmd : Cmd) (st st1 : St) (r : Result V) :
  next ctx cmd (entered KTransaction st) = (Ret r, st1) →
  TransactionInterceptor_Execute (Some next) ctx cmd st = (Ret (rethrown r), st1).
Proof.
  intros Hnext. unfold TransactionInterceptor_Execute, bind, emit.
  cbn [next_Execute]. unfold entered in Hnext. cbn in Hnext |- *.
  rewrite Hnext. destruct r as [v [e|]]; reflexivity.
Qed.

Lemma rethrown_idemp (r : Result V) : rethrown (rethrown r) = rethrown r.
Proof. destruct r as [v [e|]]; reflexivity. Qed.

(** The context the command body is called with by [ContextInterceptor]. *)
Definition fresh_context (engine : E) (ctx : Ctx) : CommandContext V E :=
  NewCommandContext ctx engine.

Definition published (engine : E) (ctx : Ctx) : Ctx :=
  WithValue ctx commandContextKey (fresh_context engine ctx).

(** The context as it is when [ContextInterceptor] closes it. *)
Definition recorded (engine : E) (ctx : Ctx) (r : Result V) : CommandContext V E :=
  match snd r with
  | Some e => SetException (fresh_context engine ctx) e
  | None => SetResult (fresh_context engine ctx) (fst r)
  end.

Lemma ContextInterceptor_runs_command (engine : E) (next : option (Exec V W E))
    (ctx : Ctx) (cmd : Cmd) (st : St) :
  let direct :=
    Execute cmd (published engine ctx) (fresh_context engine ctx) (world st) in
  ContextInterceptor_Execute engine next ctx cmd st
  = (Ret (rethrown (fst direct)),
     mkState (snd direct) (logs st)
       (trace st ++ [Enter KContext; CommandExecute KContext;
                     Closed (recorded engine ctx (fst direct))])).
Proof.
  unfold ContextInterceptor_Execute, bind, emit, command_Execute, Close, emit.
  unfold published, fresh_context, recorded, rethrown. cbn.
  destruct (Execute cmd _ _ (world st)) as [[v [e|]] w]; cbn;
    by rewrite <- !app_assoc.
Qed.

(** The chain of Logging, Transaction, Context and Invoker on a command. *)
Lemma standard_chain_run (engine : E) (ctx : Ctx) (cmd : Cmd) (st : St) :
  let direct :=
    Execute cmd (published engine ctx) (fresh_context engine ctx) (world st) in
  let line := match snd (fst direct) with
              | Some e => LogFailed (typeName cmd) e
              | None => LogCompleted (typeName cmd)
              end in
  next_Execute
    (wired [LoggingInterceptor; TransactionInterceptor;
            ContextInterceptor engine; CommandInvoker]) ctx cmd st
  = (Ret (rethrown (fst direct)),
     mkState (snd direct)
       (logs st ++ [LogExecuting (typeName cmd); line])
       (trace st ++ [Enter KLogging; Enter KTransaction; Enter KContext;
                     CommandExecute KContext;
                     Closed (recorded engine ctx (fst direct))])).
Proof.
  intros direct line. cbn [wired next_Execute Interceptor_Execute].
  erewrite LoggingInterceptor_transparent; last first.
  { erewrite TransactionInterceptor_rethrows; last first.
    { apply ContextInterceptor_runs_command. }
    rewrite rethrown_idemp. reflexivity. }
  unfold logged, entered. cbn. fold direct.
  replace (snd (rethrown (fst direct))) with (snd (fst direct))
    by (destruct (fst direct) as [v [e|]]; reflexivity).
  fold line. by rewrite <- !app_assoc.
Qed.

(** C9 (as amended): running a command through an executor built over
    Logging, Transaction, Context and Invoker returns the error the
    command's [Execute] returns when called directly (with the context the
    pipeline publishes), the very same error, so that [errors.Is] finds
    it; on success it returns the command's result value unchanged, and on
    failure a nil result, whatever value the command returned beside its
    error.  The command's effect on the services is the same, and the
    logger gets one line for the start and one for the outcome.
    [LoggingInterceptor] returns the very pair its downstream returned.
    [TransactionInterceptor] returns its downstream's error unchanged; it
    returns the downstream's result unchanged on success and replaces it
    by nil on failure. *)
Theorem pipeline_transparent (engine : E) (ctx : Ctx) (cmd : Cmd) (st : St) :
  let interceptors := [LoggingInterceptor; TransactionInterceptor;
                       ContextInterceptor engine; CommandInvoker] in
  let direct :=
    Execute cmd (published engine ctx) (fresh_context engine ctx) (world st) in
  NewCommandExecutor interceptors = Ret (mkCommandExecutor interceptors)
  ∧ (∃ result err st',
       CommandExecutor_Execute (mkCommandExecutor interceptors) ctx (Some cmd) st
       = (Ret (result, err), st')
       ∧ err = snd (fst direct)
       ∧ result = match snd (fst direct) with
                  | Some _ => None
                  | None => fst (fst direct)
                  end
       ∧ (∀ e, snd (fst direct) = Some e →
               ∃ e', err = Some e' ∧ errors_Is e' e = true)
       ∧ world st' = snd direct
       ∧ logs st' = logs st ++ [LogExecuting (typeName cmd);
                                match snd (fst direct) with
                                | Some e => LogFailed (typeName cmd) e
                                | None => LogCompleted (typeName cmd)
                                end])
  ∧ (∀ (next : Exec V W E) ctx0 cmd0 st0 st1 r,
       next ctx0 cmd0 (logged (LogExecuting (typeName cmd0)) (entered KLogging st0))
       = (Ret r, st1) →
       fst (LoggingInterceptor_Execute (Some next) ctx0 cmd0 st0) = Ret r)
  ∧ (∀ (next : Exec V W E) ctx0 cmd0 st0 st1 r,
       next ctx0 cmd0 (entered KTransaction st0) = (Ret r, st1) →
       TransactionInterceptor_Execute (Some next) ctx0 cmd0 st0
       = (Ret (match snd r with
               | Some e => (None, Some e)
               | None => (fst r, None)
               end), st1)).
Proof.
  intros interceptors direct. split; [reflexivity|]. split; [|split].
  - unfold CommandExecutor_Execute, first. cbn [chain].
    unfold interceptors. rewrite standard_chain_run. fold direct.
    destruct (fst direct) as [v [e|]] eqn:Hd; cbn [rethrown fst snd].
    + eexists _, _, _. split; [reflexivity|]. split_and!; try done.
      intros e' [= <-]. exists e. split; [done|apply errors_Is_refl].
    + eexists _, _, _. split; [reflexivity|]. split_and!; done.
  - intros next ctx0 cmd0 st0 st1 r Hnext.
    by rewrite (LoggingInterceptor_transparent _ _ _ _ _ _ Hnext).
  - intros next ctx0 cmd0 st0 st1 r Hnext.
    by rewrite (TransactionInterceptor_rethrows _ _ _ _ _ _ Hnext).
Qed.
(** C4 (what the code does): in the chain the builder assembles by default
    the command body is called by [ContextInterceptor], which never hands
    over to its [next]; [CommandInvoker] is not entered, for any command,
    context and state, and the run is the same whatever interceptor stands
    in the invoker's place. *)
Theorem default_chain_skips_invoker (engine : E) (ctx : Ctx) (cmd : Cmd)
    (st : St) :
  let b := NewCommandExecutorBuilder engine in
  Build b = Ret (mkCommandExecutor
                   [LoggingInterceptor; TransactionInterceptor;
                    ContextInterceptor engine; CommandInvoker])
  ∧ (∃ r st',
       CommandExecutor_Execute (mkCommandExecutor (Build_interceptors b))
         ctx (Some cmd) st = (Ret r, st')
       ∧ (∃ c, trace st' = trace st ++ [Enter KLogging; Enter KTransaction;
                                        Enter KContext; CommandExecute KContext;
                                        Closed c])
       ∧ (∀ last : Interceptor V W E,
            next_Execute (wired [LoggingInterceptor; TransactionInterceptor;
                                 ContextInterceptor engine; last]) ctx cmd st
            = (Ret r, st'))).
Proof.
  intros b. split; [reflexivity|].
  unfold CommandExecutor_Execute, first. cbn [chain].
  change (Build_interceptors b)
    with [LoggingInterceptor; TransactionInterceptor;
          ContextInterceptor engine; @CommandInvoker V W E].
  rewrite standard_chain_run.
  eexists _, _. split; [reflexivity|]. split.
  - cbn [trace]. eexists. reflexivity.
  - intros last. cbn [wired next_Execute Interceptor_Execute].
    erewrite LoggingInterceptor_transparent; last first.
    { erewrite TransactionInterceptor_rethrows; last first.
      { apply ContextInterceptor_runs_command. }
      rewrite rethrown_idemp. reflexivity. }
    unfold logged, entered. cbn.
    destruct (Execute cmd _ _ (world st)) as [[v [e|]] w]; cbn;
      by rewrite <- !app_assoc.
Qed.

(** [CommandInvoker] on its own: without a published command context it
    fails; with one it calls the command body. *)
Lemma CommandInvoker_alone (next : option (Exec V W E)) (ctx : Ctx)
    (cmd : Cmd) (st : St) :
  CommandInvoker_Execute next ctx cmd st
  = match GetCommandContext ctx with
    | None =>
        (Ret (None, Some (errorString "command context not found in context")),
         entered KInvoker st)
    | Some c => command_Execute KInvoker cmd ctx c (entered KInvoker st)
    end.
Proof.
  unfold CommandInvoker_Execute, bind, emit, entered. cbn.
  destruct (GetCommandContext ctx); reflexivity.
Qed.

(** C10: [NewCommandExecutor] panics on an empty list of interceptors, and
    [NewTaskService], which calls it with none, panics for every runtime
    service it is given. *)
Theorem NewTaskService_panics (runtimeService : Runtime.runtimeServiceImpl) :
  @NewCommandExecutor V W E [] = Panic "at least one interceptor is required"
  ∧ @TaskService.NewTaskService V W E runtimeService
    = Panic "at least one interceptor is required".
Proof.
  assert (Hex : @NewCommandExecutor V W E []
                = Panic "at least one interceptor is required").
  { unfold NewCommandExecutor. by rewrite decide_True. }
  split; [exact Hex|].
  unfold TaskService.NewTaskService. by rewrite Hex.
Qed.

End EngineFacts.

(** ** The runtime store *)

Section RuntimeFacts.

Context {V : Type}.
Import Runtime.
Local Abbreviation heap := (gmap positive (gmap string V)).

(** The entries of the scope of [executionID], empty when it has none. *)
Definition scope_entries (h : heap) (vars : gmap string positive)
    (executionID : string) : gmap string V :=
  match vars !! executionID with
  | Some l => entries h (Some l)
  | None => ∅
  end.

Lemma entries_make (h : heap) (x : option positive) :
  entries (snd (make h)) x = entries h x.
Proof.
  destruct x as [a|]; [|reflexivity]. unfold make, entries. cbn.
  destruct (decide (fresh (dom h) = a)) as [<-|Hne].
  - rewrite lookup_insert_eq. pose proof (make_fresh h) as Hf. cbn in Hf.
    by rewrite Hf.
  - by rewrite lookup_insert_ne.
Qed.

Lemma entries_make_self (h : heap) :
  entries (snd (make h)) (Some (fst (make h))) = ∅.
Proof. unfold make, entries. cbn. by rewrite lookup_insert_eq. Qed.

(** Copying into a map that was just made. *)
Lemma range_assign_make (h : heap) (src : option positive) :
  range_assign (snd (make h)) src (fst (make h))
  = <[fst (make h) := entries h src]> h.
Proof.
  unfold range_assign. rewrite entries_make, entries_make_self, copy_into_union.
  rewrite (right_id_L ∅ (∪)). unfold make. cbn. by rewrite insert_insert_eq.
Qed.

(** Writing [src] into the scope of [id], made on demand. *)
Lemma scope_range_assign (h : heap) (vars : gmap string positive)
    (id : string) (src : option positive) :
  ∃ l h1 vars',
    scope h vars id = (l, h1, vars')
    ∧ vars' !! id = Some l
    ∧ (∀ id', id' ≠ id → vars' !! id' = vars !! id')
    ∧ range_assign h1 src l !! l = Some (entries h src ∪ scope_entries h vars id).
Proof.
  unfold scope, scope_entries. destruct (vars !! id) as [l|] eqn:Hl.
  - exists l, h, vars. split_and!; try done.
    unfold range_assign. by rewrite lookup_insert_eq, copy_into_union.
  - pose proof (range_assign_make h src) as Hra.
    destruct (make h) as [l h1]. cbn [fst snd] in Hra.
    eexists _, _, _. split; [reflexivity|].
    split; [by rewrite lookup_insert_eq|]. split.
    + intros id' Hne. by rewrite lookup_insert_ne.
    + rewrite Hra, lookup_insert_eq. by rewrite (right_id_L ∅ (∪)).
Qed.

Lemma SetVariables_spec (h : heap) (s : runtimeServiceImpl)
    (executionID : string) (src : option positive) (x : Execution.t) :
  executions s !! executionID = Some x →
  ∃ l h1 s1,
    SetVariables h s executionID src = (None, h1, s1)
    ∧ executions s1 = executions s
    ∧ processInstances s1 = processInstances s
    ∧ variables s1 !! executionID = Some l
    ∧ h1 !! l = Some (entries h src ∪ scope_entries h (variables s) executionID).
Proof.
  intros Hx. unfold SetVariables. rewrite Hx.
  destruct (scope_range_assign h (variables s) executionID src)
    as (l & h1 & vars' & Hsc & Hl & _ & Hh).
  rewrite Hsc. by exists l, (range_assign h1 src l), (mk (enableAsync s) (processInstances s) (executions s) vars').
Qed.

Lemma Signal_spec (h : heap) (s : runtimeServiceImpl) (executionID : string)
    (x : Execution.t) :
  executions s !! executionID = Some x →
  Signal h s executionID = (None, h, s).
Proof. intros Hx. unfold Signal, SignalWithVariables. by rewrite Hx. Qed.

(** [GetVariables] hands out a map object of its own holding the entries of
    the scope. *)
Lemma GetVariables_spec (h : heap) (s : runtimeServiceImpl)
    (executionID : string) (x : Execution.t) :
  executions s !! executionID = Some x →
  ∃ l h1,
    GetVariables h s executionID = (inl l, h1)
    ∧ h !! l = None
    ∧ h1 !! l = Some (scope_entries h (variables s) executionID).
Proof.
  intros Hx. unfold GetVariables, scope_entries. rewrite Hx.
  pose proof (make_fresh h) as Hf.
  destruct (variables s !! executionID) as [l0|] eqn:Hl.
  - pose proof (range_assign_make h (Some l0)) as Hra.
    destruct (make h) as [l h1]. cbn [fst snd] in Hra, Hf.
    eexists _, _. split; [reflexivity|]. split; [done|].
    by rewrite Hra, lookup_insert_eq.
  - unfold make in Hf |- *. cbn [fst snd] in Hf |- *.
    eexists _, _. split; [reflexivity|]. split; [done|].
    by rewrite lookup_insert_eq.
Qed.


(** What the loop of [DeleteProcessInstance] leaves in the two maps. *)
Lemma delete_loop_spec (pid : string) (E0 : gmap string Execution.t)
    (V0 : gmap string positive) :
  let acc := map_fold (delete_if_owned pid) (E0, V0) E0 in
  ∀ id,
    fst acc !! id
    = match E0 !! id with
      | Some x => if decide (Execution.ProcessInstanceID x = pid)
                  then None else Some x
      | None => None
      end
    ∧ snd acc !! id
      = match E0 !! id with
        | Some x => if decide (Execution.ProcessInstanceID x = pid)
                    then None else V0 !! id
        | None => V0 !! id
        end.
Proof.
  cbn zeta.
  assert (Hgen : ∀ m : gmap string Execution.t,
    let acc := map_fold (delete_if_owned pid) (E0, V0) m in
    ∀ id,
      fst acc !! id
      = match m !! id with
        | Some x => if decide (Execution.ProcessInstanceID x = pid)
                    then None else E0 !! id
        | None => E0 !! id
        end
      ∧ snd acc !! id
        = match m !! id with
          | Some x => if decide (Execution.ProcessInstanceID x = pid)
                      then None else V0 !! id
          | None => V0 !! id
          end).
  { intros m. cbn zeta.
    apply (map_fold_weak_ind (λ acc m, ∀ id,
      fst acc !! id
      = match m !! id with
        | Some x => if decide (Execution.ProcessInstanceID x = pid)
                    then None else E0 !! id
        | None => E0 !! id
        end
      ∧ snd acc !! id
        = match m !! id with
          | Some x => if decide (Execution.ProcessInstanceID x = pid)
                      then None else V0 !! id
          | None => V0 !! id
          end)).
    - intros id. by rewrite lookup_empty.
    - intros i x m' acc Hi IH id. unfold delete_if_owned.
      destruct (decide (i = id)) as [->|Hne].
      + rewrite lookup_insert_eq. destruct (IH id) as [IH1 IH2].
        rewrite Hi in IH1, IH2. case_decide; cbn [fst snd].
        * by rewrite !lookup_delete_eq.
        * done.
      + rewrite lookup_insert_ne by done. destruct (IH id) as [IH1 IH2].
        case_decide; cbn [fst snd]; [|done].
        by rewrite !lookup_delete_ne. }
  intros id. destruct (Hgen E0 id) as [H1 H2]. split; [|exact H2].
  rewrite H1. destruct (E0 !! id) as [x|] eqn:Hx; [|done].
  by case_decide.
Qed.

(** C7: [DeleteProcessInstance] on a stored instance removes it, the
    executions whose [ProcessInstanceID] is its id and the variable scopes
    kept under the ids of those executions, and nothing else; on an id that
    is not stored it returns the "not found" error and the same store. *)
Theorem DeleteProcessInstance_cascades (s : runtimeServiceImpl)
    (processInstanceID deleteReason : string) :
  match processInstances s !! processInstanceID with
  | None =>
      DeleteProcessInstance s processInstanceID deleteReason
      = (Some (process_instance_not_found processInstanceID), s)
  | Some _ =>
      ∃ s1,
        DeleteProcessInstance s processInstanceID deleteReason = (None, s1)
        ∧ enableAsync s1 = enableAsync s
        ∧ processInstances s1 = delete processInstanceID (processInstances s)
        ∧ ∀ id,
            executions s1 !! id
            = match executions s !! id with
              | Some x =>
                  if decide (Execution.ProcessInstanceID x = processInstanceID)
                  then None else Some x
              | None => None
              end
            ∧ variables s1 !! id
              = match executions s !! id with
                | Some x =>
                    if decide (Execution.ProcessInstanceID x = processInstanceID)
                    then None else variables s !! id
                | None => variables s !! id
                end
  end.
Proof.
  unfold DeleteProcessInstance.
  destruct (processInstances s !! processInstanceID); [|reflexivity].
  eexists. split; [reflexivity|]. cbn. repeat split.
  - apply (delete_loop_spec processInstanceID (executions s) (variables s) id).
  - apply (delete_loop_spec processInstanceID (executions s) (variables s) id).
Qed.

End RuntimeFacts.

(** ** The task store *)

Section TaskFacts.

Context {V W E : Type}.
Import TaskService Props.
Local Abbreviation heap := (gmap positive (gmap string V)).
Local Abbreviation service := (taskServiceImpl V W E).

Lemma update_task_tasks (s : service) (taskID : string) (f : Task.t → Task.t) :
  tasks (snd (update_task s taskID f))
  = match tasks s !! taskID with
    | Some k => <[taskID := f k]> (tasks s)
    | None => tasks s
    end.
Proof. unfold update_task. by destruct (tasks s !! taskID). Qed.

(** C5: when the task is assigned to [u1] and another user [u2] claims it,
    [Claim] returns the "already claimed by another user" error and the
    service, with the task, its assignee and its claim time, is what it
    was. *)
Theorem Claim_by_other_rejected (s : service) (taskID : string) (k : Task.t)
    (u1 u2 : string) (now : Z) :
  tasks s !! taskID = Some k →
  Task.Assignee k = u1 →
  u1 ≠ "" →
  u2 ≠ u1 →
  Claim s taskID u2 now = (Some (already_claimed u1), s)
  ∧ ∃ k', tasks (snd (Claim s taskID u2 now)) !! taskID = Some k'
          ∧ Task.Assignee k' = u1
          ∧ Task.ClaimTime k' = Task.ClaimTime k.
Proof.
  intros Hk Ha Hu1 Hu2.
  assert (Hc : Claim s taskID u2 now = (Some (already_claimed u1), s)).
  { unfold Claim. rewrite Hk, Ha. rewrite decide_True; [done|].
    split; congruence. }
  split; [exact Hc|]. rewrite Hc. by exists k.
Qed.

(** What [CompleteWithVariables] does to the task service besides the
    runtime service: nothing but, on success, removing the task record. *)
Lemma CompleteWithVariables_frame (h : heap) (s : service) (taskID : string)
    (vars : option positive) :
  let '(err, _, s1) := CompleteWithVariables h s taskID vars in
  comments s1 = comments s
  ∧ attachments s1 = attachments s
  ∧ variables s1 = variables s
  ∧ tasks s1 = match err with
               | None => delete taskID (tasks s)
               | Some _ => tasks s
               end.
Proof.
  unfold CompleteWithVariables.
  destruct (tasks s !! taskID) as [k|]; [|done].
  destruct (if decide (vars ≠ None ∧ Task.ExecutionID k ≠ "") then _ else _)
    as [[[e1|] h1] rt1]; [done|].
  destruct (if decide (Task.ExecutionID k ≠ "") then _ else _)
    as [[[e2|] h2] rt2]; done.
Qed.

(** Once the record is gone, the methods that look the task up report it
    as not found. *)
Lemma absent_task_not_found (h : heap) (s : service) (taskID : string) :
  tasks s !! taskID = None →
  (∀ vars, CompleteWithVariables h s taskID vars
           = (Some (task_not_found taskID), h, s))
  ∧ (∀ u now, Claim s taskID u now = (Some (task_not_found taskID), s))
  ∧ GetTaskVariables h s taskID = (inr (task_not_found taskID), h)
  ∧ GetTaskComments s taskID = inr (task_not_found taskID).
Proof.
  intros Hk. unfold CompleteWithVariables, Claim, GetTaskVariables,
    GetTaskComments. by rewrite Hk.
Qed.

(** C2: completing a stored task whose [ExecutionID] is the id of a stored
    execution, with a variable map (empty or not), succeeds; the
    execution's scope then
    holds every entry of the map (over what it held before), so the map
    [GetVariables] returns contains them; the task record is gone and the
    methods that look it up, a second completion among them, return the
    "task not found" error. *)
Theorem Complete_propagates_variables (h : heap) (s : service)
    (taskID : string) (k : Task.t) (x : Execution.t) (a : positive)
    (m : gmap string V) :
  tasks s !! taskID = Some k →
  Task.ExecutionID k ≠ "" →
  Runtime.executions (runtimeService s) !! Task.ExecutionID k = Some x →
  h !! a = Some m →
  ∃ h1 s1,
    CompleteWithVariables h s taskID (Some a) = (None, h1, s1)
    ∧ tasks s1 !! taskID = None
    ∧ (∀ vars, CompleteWithVariables h1 s1 taskID vars
               = (Some (task_not_found taskID), h1, s1))
    ∧ GetTaskVariables h1 s1 taskID = (inr (task_not_found taskID), h1)
    ∧ ∃ l h2 result,
        Runtime.GetVariables h1 (runtimeService s1) (Task.ExecutionID k)
        = (inl l, h2)
        ∧ h2 !! l = Some result
        ∧ result
          = m ∪ scope_entries h (Runtime.variables (runtimeService s))
                  (Task.ExecutionID k)
        ∧ ∀ key v, m !! key = Some v → result !! key = Some v.
Proof.
  intros Hk Hid Hx Ha.
  destruct (SetVariables_spec h (runtimeService s) (Task.ExecutionID k)
              (Some a) x Hx) as (l0 & h1 & rt1 & Hset & Hex & _ & Hl0 & Hh1).
  assert (Hx1 : Runtime.executions rt1 !! Task.ExecutionID k = Some x)
    by (by rewrite Hex).
  pose proof (Signal_spec h1 rt1 (Task.ExecutionID k) x Hx1) as Hsig.
  set (s1 := with_tasks (with_runtimeService s rt1) (delete taskID (tasks s))).
  assert (Hc : CompleteWithVariables h s taskID (Some a) = (None, h1, s1)).
  { unfold CompleteWithVariables. rewrite Hk.
    rewrite decide_True by (split; [done|exact Hid]).
    rewrite Hset. rewrite decide_True by exact Hid. by rewrite Hsig. }
  assert (Hgone : tasks s1 !! taskID = None) by apply lookup_delete_eq.
  exists h1, s1. split; [exact Hc|]. split; [exact Hgone|].
  destruct (absent_task_not_found h1 s1 taskID Hgone) as (Hc2 & _ & Hg & _).
  split; [exact Hc2|]. split; [exact Hg|].
  destruct (GetVariables_spec h1 rt1 (Task.ExecutionID k) x Hx1)
    as (l & h2 & Hget & _ & Hres).
  exists l, h2, (scope_entries h1 (Runtime.variables rt1) (Task.ExecutionID k)).
  split; [exact Hget|]. split; [exact Hres|].
  assert (Heq : scope_entries h1 (Runtime.variables rt1) (Task.ExecutionID k)
                = m ∪ scope_entries h (Runtime.variables (runtimeService s))
                        (Task.ExecutionID k)).
  { unfold scope_entries at 1. rewrite Hl0. unfold entries at 1.
    rewrite Hh1. cbn. unfold entries. by rewrite Ha. }
  split; [exact Heq|]. intros key v Hkey. rewrite Heq.
  by apply lookup_union_Some_l.
Qed.

Lemma claim_invariant_update (s : service) (taskID : string)
    (f : Task.t → Task.t) :
  (∀ k, claim_invariant k → claim_invariant (f k)) →
  store_invariant s → store_invariant (snd (update_task s taskID f)).
Proof.
  intros Hf Hs id k. rewrite update_task_tasks.
  destruct (tasks s !! taskID) as [k0|] eqn:Hk0; [|apply Hs].
  destruct (decide (taskID = id)) as [->|Hne].
  - rewrite lookup_insert_eq. intros [= <-]. apply Hf. by apply (Hs id).
  - rewrite lookup_insert_ne by done. apply Hs.
Qed.

Lemma claim_invariant_delete (s s1 : service) (taskID : string) :
  tasks s1 = delete taskID (tasks s) ∨ tasks s1 = tasks s →
  store_invariant s → store_invariant s1.
Proof.
  intros [Ht|Ht] Hs id k; rewrite Ht; [|apply Hs].
  intros Hk. apply lookup_delete_Some in Hk as [_ Hk]. by apply (Hs id).
Qed.

Lemma call_keeps_claim_time (st : heap * service) (o : Op) :
  keeps_claim_time o →
  store_invariant (snd st) → store_invariant (snd (call st o)).
Proof.
  destruct st as [h s]. intros Ho Hs.
  destruct o as [task uuid | taskID | taskID userID now | taskID
    | taskID vars | taskID userID | taskID userID | taskID userID
    | taskID groupID | taskID userID | taskID groupID | taskID priority
    | taskID dueDate | taskID name value | taskID vars
    | taskID message uuid now
    | taskID type_ name description content uuid now];
    cbn [call keeps_claim_time snd] in *;
    try (apply claim_invariant_update; [intros k Hk; exact Hk|exact Hs]).
  - (* SaveTask *)
    intros id k. unfold SaveTask. cbn [snd with_tasks tasks].
    set (task' := if decide (Task.ID task = "") then _ else task).
    assert (Ht' : claim_invariant task').
    { unfold task'. case_decide; [|exact Ho]. exact Ho. }
    destruct (decide (Task.ID task' = id)) as [<-|Hne].
    + rewrite lookup_insert_eq. by intros [= <-].
    + rewrite lookup_insert_ne by done. apply Hs.
  - (* DeleteTask *)
    apply (claim_invariant_delete s _ taskID); [|exact Hs].
    unfold DeleteTask. destruct (tasks s !! taskID); [by left|by right].
  - (* Claim *)
    unfold Claim. destruct (tasks s !! taskID) as [k0|] eqn:Hk0; [|exact Hs].
    case_decide; [exact Hs|]. intros id k. cbn [snd with_tasks tasks].
    destruct (decide (taskID = id)) as [->|Hne].
    + rewrite lookup_insert_eq. intros [= <-]. unfold claim_invariant. cbn.
      split; [by intros _|done].
    + rewrite lookup_insert_ne by done. apply Hs.
  - (* Unclaim *)
    intros id k. unfold Unclaim. rewrite update_task_tasks.
    destruct (tasks s !! taskID) as [k0|] eqn:Hk0; [|apply Hs].
    destruct (decide (taskID = id)) as [->|Hne].
    + rewrite lookup_insert_eq. intros [= <-]. unfold claim_invariant. cbn.
      split; [done|done].
    + rewrite lookup_insert_ne by done. apply Hs.
  - (* CompleteWithVariables *)
    pose proof (CompleteWithVariables_frame h s taskID vars) as Hfr.
    destruct (CompleteWithVariables h s taskID vars) as [[err h1] s1].
    destruct Hfr as (_ & _ & _ & Ht). cbn [snd].
    apply (claim_invariant_delete s s1 taskID); [|exact Hs].
    destruct err; [by right|by left].
  - (* SetAssignee *) done.
  - (* SetTaskVariable *)
    unfold SetTaskVariable. destruct (tasks s !! taskID); [|exact Hs].
    destruct (Runtime.scope h (TaskService.variables s) taskID) as [[l h1] sc].
    exact Hs.
  - (* SetTaskVariables *)
    unfold SetTaskVariables. destruct (tasks s !! taskID); [|exact Hs].
    destruct (Runtime.scope h (TaskService.variables s) taskID) as [[l h1] sc].
    exact Hs.
  - (* AddComment *)
    unfold AddComment. destruct (tasks s !! taskID); exact Hs.
  - (* CreateAttachment *)
    unfold CreateAttachment. destruct (tasks s !! taskID); exact Hs.
Qed.


End TaskFacts.

(** ** More on the task store *)

Section TaskExtras.

Context {V W E : Type}.
Import TaskService Props.
Local Abbreviation heap := (gmap positive (gmap string V)).
Local Abbreviation service := (taskServiceImpl V W E).

(** The number of times [x] stands in [xs]. *)
Definition occurrences (x : string) (xs : list string) : nat :=
  length (filter (λ y, y = x) xs).

Lemma with_tasks_same (s : service) : with_tasks s (tasks s) = s.
Proof. by destruct s. Qed.

Lemma update_task_id (s : service) (taskID : string) (k : Task.t)
    (f : Task.t → Task.t) :
  tasks s !! taskID = Some k → f k = k → update_task s taskID f = (None, s).
Proof.
  intros Hk Hf. unfold update_task. rewrite Hk, Hf, insert_id by done.
  by rewrite with_tasks_same.
Qed.

Lemma update_task_present (s : service) (taskID : string) (k : Task.t)
    (f : Task.t → Task.t) :
  tasks s !! taskID = Some k →
  update_task s taskID f = (None, with_tasks s (<[taskID := f k]> (tasks s))).
Proof. intros Hk. unfold update_task. by rewrite Hk. Qed.

Lemma with_CandidateUsers_same (k : Task.t) :
  Task.with_CandidateUsers k (Task.CandidateUsers k) = k.
Proof. by destruct k. Qed.

Lemma with_CandidateGroups_same (k : Task.t) :
  Task.with_CandidateGroups k (Task.CandidateGroups k) = k.
Proof. by destruct k. Qed.

Lemma add_candidate_elem (xs : list string) (x : string) :
  x ∈ add_candidate xs x.
Proof.
  unfold add_candidate. case_decide; [done|]. apply elem_of_app. right.
  by apply list_elem_of_singleton.
Qed.

Lemma add_candidate_again (xs : list string) (x : string) :
  add_candidate (add_candidate xs x) x = add_candidate xs x.
Proof.
  unfold add_candidate at 1. rewrite decide_True; [done|].
  apply add_candidate_elem.
Qed.

Lemma add_candidate_NoDup (xs : list string) (x : string) :
  NoDup xs → NoDup (add_candidate xs x).
Proof.
  intros Hxs. unfold add_candidate. case_decide; [done|].
  apply NoDup_app. split; [done|]. split; [|apply NoDup_singleton].
  intros y Hy Hy'. apply list_elem_of_singleton in Hy'. by subst.
Qed.

Lemma add_candidate_occurrences (xs : list string) (x y : string) :
  occurrences y (add_candidate xs x)
  = if decide (x ∈ xs) then occurrences y xs
    else if decide (x = y) then S (occurrences y xs) else occurrences y xs.
Proof.
  unfold add_candidate, occurrences. case_decide; [done|].
  rewrite filter_app, length_app.
  rewrite filter_cons, filter_nil. repeat case_decide; cbn; try lia; congruence.
Qed.

Lemma occurrences_absent (xs : list string) (x : string) :
  x ∉ xs → occurrences x xs = 0.
Proof.
  intros Hx. unfold occurrences. induction xs as [|y xs IH]; [done|].
  rewrite filter_cons. apply not_elem_of_cons in Hx as [Hne Hx].
  rewrite decide_False by done. by apply IH.
Qed.

(** X1: [AddCandidateUser] and [AddCandidateGroup] treat the candidate
    lists as sets: after the call the candidate is in the list, as often
    as before if it was there and once if it was not, the other
    candidates stand as often as before, and a second call with the same
    candidate returns nil and the very same service state. *)
Theorem AddCandidate_is_idempotent (s : service) (taskID x : string)
    (k : Task.t) :
  tasks s !! taskID = Some k →
  (∃ k1 s1,
     AddCandidateUser s taskID x = (None, s1)
     ∧ tasks s1 !! taskID = Some k1
     ∧ x ∈ Task.CandidateUsers k1
     ∧ (∀ y, occurrences y (Task.CandidateUsers k1)
             = if decide (x = y ∧ x ∉ Task.CandidateUsers k) then 1
               else occurrences y (Task.CandidateUsers k))
     ∧ AddCandidateUser s1 taskID x = (None, s1))
  ∧ (∃ k1 s1,
       AddCandidateGroup s taskID x = (None, s1)
       ∧ tasks s1 !! taskID = Some k1
       ∧ x ∈ Task.CandidateGroups k1
       ∧ (∀ y, occurrences y (Task.CandidateGroups k1)
               = if decide (x = y ∧ x ∉ Task.CandidateGroups k) then 1
                 else occurrences y (Task.CandidateGroups k))
       ∧ AddCandidateGroup s1 taskID x = (None, s1)).
Proof.
  intros Hk. split.
  - eexists _, _. unfold AddCandidateUser at 1.
    split; [by apply update_task_present|]. cbn [with_tasks tasks].
    split; [by rewrite lookup_insert_eq|]. cbn [Task.with_CandidateUsers
      Task.CandidateUsers].
    split; [apply add_candidate_elem|]. split.
    + intros y. rewrite add_candidate_occurrences.
      destruct (decide (x ∈ Task.CandidateUsers k)) as [Hin|Hout].
      * rewrite decide_False; [done|]. by intros [_ ?].
      * destruct (decide (x = y)) as [->|Hne].
        -- rewrite decide_True by done. by rewrite occurrences_absent.
        -- rewrite decide_False; [done|]. by intros [? _].
    + unfold AddCandidateUser. apply (update_task_id _ _ _ _ (lookup_insert_eq _ _ _)).
      cbn. by rewrite add_candidate_again.
  - eexists _, _. unfold AddCandidateGroup at 1.
    split; [by apply update_task_present|]. cbn [with_tasks tasks].
    split; [by rewrite lookup_insert_eq|]. cbn [Task.with_CandidateGroups
      Task.CandidateGroups].
    split; [apply add_candidate_elem|]. split.
    + intros y. rewrite add_candidate_occurrences.
      destruct (decide (x ∈ Task.CandidateGroups k)) as [Hin|Hout].
      * rewrite decide_False; [done|]. by intros [_ ?].
      * destruct (decide (x = y)) as [->|Hne].
        -- rewrite decide_True by done. by rewrite occurrences_absent.
        -- rewrite decide_False; [done|]. by intros [? _].
    + unfold AddCandidateGroup. apply (update_task_id _ _ _ _ (lookup_insert_eq _ _ _)).
      cbn. by rewrite add_candidate_again.
Qed.

Lemma delete_candidate_absent (xs : list string) (x : string) :
  x ∉ xs → delete_candidate xs x = xs.
Proof.
  induction xs as [|y xs IH]; [done|]. intros Hx.
  apply not_elem_of_cons in Hx as [Hne Hx]. cbn.
  rewrite decide_False by done. by rewrite IH.
Qed.

Lemma delete_candidate_after_add (xs : list string) (x : string) :
  x ∉ xs → delete_candidate (add_candidate xs x) x = xs.
Proof.
  intros Hx. unfold add_candidate. rewrite decide_False by done.
  induction xs as [|y xs IH]; cbn.
  - by rewrite decide_True.
  - apply not_elem_of_cons in Hx as [Hne Hx].
    rewrite decide_False by done. by rewrite IH.
Qed.

Lemma delete_candidate_occurrences (xs : list string) (x y : string) :
  occurrences y (delete_candidate xs x)
  = if decide (x = y) then pred (occurrences y xs) else occurrences y xs.
Proof.
  unfold occurrences. induction xs as [|z xs IH]; cbn [delete_candidate].
  - rewrite filter_nil. by case_decide.
  - destruct (decide (z = x)) as [->|Hzx].
    + rewrite filter_cons. by destruct (decide (x = y)) as [->|Hxy].
    + rewrite !filter_cons. destruct (decide (z = y)) as [->|Hzy]; cbn [length].
      * rewrite IH. by rewrite !decide_False by done.
      * exact IH.
Qed.

Lemma delete_candidate_first (before after : list string) (x : string) :
  x ∉ before → delete_candidate (before ++ x :: after) x = before ++ after.
Proof.
  intros Hx. induction before as [|y before IH]; cbn [app delete_candidate].
  - by rewrite decide_True.
  - apply not_elem_of_cons in Hx as [Hne Hx].
    rewrite decide_False by done. by rewrite IH.
Qed.

(** X2: on a stored task [DeleteCandidateUser] returns nil and takes one
    occurrence of the user out of the task's list of candidate users, the
    first, keeping the others in their order; when the user is not a
    candidate nothing is written and the service state is returned as it
    was; and after an [AddCandidateUser] of a user that was not a candidate
    it gives the task the list of candidate users it had before the two
    calls. *)
Theorem DeleteCandidateUser_removes_one (s : service) (taskID userID : string)
    (k : Task.t) :
  tasks s !! taskID = Some k →
  ∃ k1 s1,
    DeleteCandidateUser s taskID userID = (None, s1)
    ∧ tasks s1 !! taskID = Some k1
    ∧ (∀ y, occurrences y (Task.CandidateUsers k1)
            = if decide (userID = y)
              then pred (occurrences y (Task.CandidateUsers k))
              else occurrences y (Task.CandidateUsers k))
    ∧ (∀ before after,
         Task.CandidateUsers k = before ++ userID :: after →
         userID ∉ before →
         Task.CandidateUsers k1 = before ++ after)
    ∧ (userID ∉ Task.CandidateUsers k →
       s1 = s
       ∧ ∃ s2 s3 k3,
           AddCandidateUser s taskID userID = (None, s2)
           ∧ DeleteCandidateUser s2 taskID userID = (None, s3)
           ∧ tasks s3 !! taskID = Some k3
           ∧ Task.CandidateUsers k3 = Task.CandidateUsers k).
Proof.
  intros Hk. eexists _, _. unfold DeleteCandidateUser at 1.
  split; [by apply update_task_present|]. cbn [with_tasks tasks].
  split; [by rewrite lookup_insert_eq|]. split_and!.
  - intros y. cbn. apply delete_candidate_occurrences.
  - intros before after Hxs Hx. cbn. rewrite Hxs.
    by apply delete_candidate_first.
  - intros Hout. split.
    + rewrite delete_candidate_absent by done.
      rewrite with_CandidateUsers_same. rewrite insert_id by done.
      by destruct s.
    + eexists _, _, _. unfold AddCandidateUser.
      split; [by apply update_task_present|].
      unfold DeleteCandidateUser.
      split; [apply update_task_present; cbn; apply lookup_insert_eq|].
      cbn [with_tasks tasks]. split; [by rewrite lookup_insert_eq|].
      cbn. by apply delete_candidate_after_add.
Qed.
(** X3: once [Claim] by a non-empty user has succeeded on a task without
    assignee, a [Claim] by any other user returns the "already claimed"
    error and changes nothing, while a [Claim] by the same user succeeds
    again and leaves the state a first claim at that later time would
    have left: the claim time is refreshed. *)
Theorem Claim_reserves_task (s : service) (taskID u1 : string) (k : Task.t)
    (t1 : Z) :
  tasks s !! taskID = Some k →
  Task.Assignee k = "" →
  u1 ≠ "" →
  ∃ s1,
    Claim s taskID u1 t1 = (None, s1)
    ∧ tasks s1 !! taskID
      = Some (Task.with_ClaimTime (Task.with_Assignee k u1) (Some t1))
    ∧ (∀ u2 t2, u2 ≠ u1 →
         Claim s1 taskID u2 t2 = (Some (already_claimed u1), s1))
    ∧ (∀ t2, Claim s1 taskID u1 t2 = Claim s taskID u1 t2).
Proof.
  intros Hk Ha Hu1.
  assert (Hc : ∀ t, Claim s taskID u1 t
    = (None, with_tasks s (<[taskID := Task.with_ClaimTime
                               (Task.with_Assignee k u1) (Some t)]> (tasks s)))).
  { intros t. unfold Claim. rewrite Hk, Ha. rewrite decide_False; [done|].
    by intros [? _]. }
  eexists. split; [apply Hc|]. cbn [with_tasks tasks].
  split; [by rewrite lookup_insert_eq|]. split.
  - intros u2 t2 Hu2. unfold Claim. cbn [with_tasks tasks].
    rewrite lookup_insert_eq. cbn. rewrite decide_True; [done|].
    split; congruence.
  - intros t2. rewrite Hc. unfold Claim. cbn [with_tasks tasks].
    rewrite lookup_insert_eq. cbn. rewrite decide_False by (by intros [_ ?]).
    by rewrite insert_insert_eq.
Qed.

(** X4: [Claim] followed by [Unclaim] on a task that had no assignee and
    no claim time gives back the service state before the two calls,
    whoever the user is; and after a [Claim] with the empty user id, which
    the service accepts and stamps with a claim time, the task can still
    be claimed by anyone. *)
Theorem Unclaim_undoes_Claim (s : service) (taskID userID : string)
    (k : Task.t) (now : Z) :
  tasks s !! taskID = Some k →
  Task.Assignee k = "" →
  Task.ClaimTime k = None →
  Unclaim (snd (Claim s taskID userID now)) taskID = (None, s)
  ∧ (∃ s0, Claim s taskID "" now = (None, s0)
           ∧ tasks s0 !! taskID
             = Some (Task.with_ClaimTime k (Some now))
           ∧ ∀ u t, fst (Claim s0 taskID u t) = None).
Proof.
  intros Hk Ha Hc.
  assert (Hcl : ∀ u, Claim s taskID u now
    = (None, with_tasks s (<[taskID := Task.with_ClaimTime
                               (Task.with_Assignee k u) (Some now)]> (tasks s)))).
  { intros u. unfold Claim. rewrite Hk, Ha. rewrite decide_False; [done|].
    by intros [? _]. }
  split.
  - rewrite Hcl. cbn [snd]. unfold Unclaim.
    rewrite (update_task_present _ _ (Task.with_ClaimTime
               (Task.with_Assignee k userID) (Some now)))
      by apply lookup_insert_eq.
    replace (Task.with_ClaimTime (Task.with_Assignee (Task.with_ClaimTime
               (Task.with_Assignee k userID) (Some now)) "") None) with k
      by (destruct k; cbn in *; by subst).
    cbn [with_tasks tasks]. rewrite insert_insert_eq.
    rewrite (insert_id (tasks s) taskID k Hk). by destruct s.
  - eexists. split; [apply Hcl|]. cbn [with_tasks tasks]. split.
    + rewrite lookup_insert_eq. f_equal. destruct k; cbn in *. by subst.
    + intros u t. unfold Claim. cbn [with_tasks tasks].
      rewrite lookup_insert_eq. cbn. rewrite decide_False; [done|].
      by intros [? _].
Qed.

(** X5: [DeleteTask] on a stored task removes the record, its comments,
    its attachments and its variables entry and touches nothing else:
    every other key of the four maps and the runtime service are as
    before; a second [DeleteTask] then returns "task not found". *)
Theorem DeleteTask_cascades (s : service) (taskID : string) (k : Task.t) :
  tasks s !! taskID = Some k →
  ∃ s1,
    DeleteTask s taskID = (None, s1)
    ∧ tasks s1 !! taskID = None ∧ comments s1 !! taskID = None
    ∧ attachments s1 !! taskID = None ∧ variables s1 !! taskID = None
    ∧ (∀ id, id ≠ taskID →
         tasks s1 !! id = tasks s !! id
         ∧ comments s1 !! id = comments s !! id
         ∧ attachments s1 !! id = attachments s !! id
         ∧ variables s1 !! id = variables s !! id)
    ∧ runtimeService s1 = runtimeService s
    ∧ DeleteTask s1 taskID = (Some (task_not_found taskID), s1).
Proof.
  intros Hk. eexists. unfold DeleteTask at 1. rewrite Hk.
  split; [reflexivity|]. cbn [tasks comments attachments variables runtimeService].
  rewrite !lookup_delete_eq. split_and!; try done.
  - intros id Hne. by rewrite !lookup_delete_ne.
  - unfold DeleteTask. cbn [tasks]. by rewrite lookup_delete_eq.
Qed.

(** X6: on a task id that is not stored, every method of the task service
    that takes a task id returns the error "task not found: <id>" and
    leaves the service state and the heap as they were. *)
Theorem absent_task_is_reported (h : heap) (s : service) (taskID : string) :
  tasks s !! taskID = None →
  let nf := task_not_found taskID in
  DeleteTask s taskID = (Some nf, s)
  ∧ (∀ u now, Claim s taskID u now = (Some nf, s))
  ∧ Unclaim s taskID = (Some nf, s)
  ∧ (∀ vars, CompleteWithVariables h s taskID vars = (Some nf, h, s))
  ∧ Complete h s taskID = (Some nf, h, s)
  ∧ (∀ u, SetAssignee s taskID u = (Some nf, s))
  ∧ (∀ u, SetOwner s taskID u = (Some nf, s))
  ∧ (∀ u, AddCandidateUser s taskID u = (Some nf, s))
  ∧ (∀ g, AddCandidateGroup s taskID g = (Some nf, s))
  ∧ (∀ u, DeleteCandidateUser s taskID u = (Some nf, s))
  ∧ (∀ g, DeleteCandidateGroup s taskID g = (Some nf, s))
  ∧ (∀ p, SetPriority s taskID p = (Some nf, s))
  ∧ (∀ d, SetDueDate s taskID d = (Some nf, s))
  ∧ GetTaskVariables h s taskID = (inr nf, h)
  ∧ (∀ n, GetTaskVariable h s taskID n = inr nf)
  ∧ (∀ n v, SetTaskVariable h s taskID n v = (Some nf, h, s))
  ∧ (∀ vars, SetTaskVariables h s taskID vars = (Some nf, h, s))
  ∧ (∀ n, RemoveTaskVariable h s taskID n = (Some nf, h))
  ∧ (∀ m u now, AddComment s taskID m u now = (inr nf, s))
  ∧ GetTaskComments s taskID = inr nf
  ∧ (∀ ty n d c u now, CreateAttachment s taskID ty n d c u now = (inr nf, s))
  ∧ GetTaskAttachments s taskID = inr nf.
Proof.
  intros Hk nf.
  unfold DeleteTask, Claim, Unclaim, Complete, CompleteWithVariables,
    SetAssignee, SetOwner, AddCandidateUser, AddCandidateGroup,
    DeleteCandidateUser, DeleteCandidateGroup, SetPriority, SetDueDate,
    GetTaskVariables, GetTaskVariable, SetTaskVariable, SetTaskVariables,
    RemoveTaskVariable, AddComment, GetTaskComments, CreateAttachment,
    GetTaskAttachments, update_task.
  rewrite Hk. by split_and!.
Qed.

End TaskExtras.

(** ** More on the runtime store *)

Section RuntimeExtras.

Context {V : Type}.
Import Runtime.
Local Abbreviation heap := (gmap positive (gmap string V)).

(** The scope of [id], made on demand, and what it holds. *)
Lemma scope_spec (h : heap) (vars : gmap string positive) (id : string) :
  ∃ l h0 vars',
    scope h vars id = (l, h0, vars')
    ∧ vars' !! id = Some l
    ∧ entries h0 (Some l) = scope_entries h vars id.
Proof.
  unfold scope, scope_entries. destruct (vars !! id) as [l|] eqn:Hl.
  - by exists l, h, vars.
  - pose proof (entries_make_self h) as Hself.
    destruct (make h) as [l h0]. cbn [fst snd] in Hself.
    exists l, h0, (<[id := l]> vars). by rewrite lookup_insert_eq.
Qed.

Lemma entries_insert_eq (h : heap) (l : positive) (m : gmap string V) :
  entries (<[l := m]> h) (Some l) = m.
Proof. unfold entries. by rewrite lookup_insert_eq. Qed.

Lemma GetVariable_scope_entries (h : heap) (s : runtimeServiceImpl)
    (executionID variableName : string) (x : Execution.t) :
  executions s !! executionID = Some x →
  GetVariable h s executionID variableName
  = inl (scope_entries h (variables s) executionID !! variableName).
Proof.
  intros Hx. unfold GetVariable, scope_entries. rewrite Hx.
  by destruct (variables s !! executionID).
Qed.

(** X7: a variable written by [SetVariable] is what [GetVariable] reads
    back, and the other variables of the execution read as before, whether
    the scope existed or is made by the call; after [RemoveVariable] the
    variable reads as nil and the others still read as before. *)
Theorem SetVariable_then_GetVariable (h : heap) (s : runtimeServiceImpl)
    (executionID variableName : string) (value : V) (x : Execution.t) :
  executions s !! executionID = Some x →
  ∃ h1 s1,
    SetVariable h s executionID variableName value = (None, h1, s1)
    ∧ executions s1 = executions s
    ∧ processInstances s1 = processInstances s
    ∧ GetVariable h1 s1 executionID variableName = inl (Some value)
    ∧ (∀ n, n ≠ variableName →
         GetVariable h1 s1 executionID n = GetVariable h s executionID n)
    ∧ ∃ h2,
        RemoveVariable h1 s1 executionID variableName = (None, h2)
        ∧ GetVariable h2 s1 executionID variableName = inl None
        ∧ ∀ n, n ≠ variableName →
            GetVariable h2 s1 executionID n = GetVariable h s executionID n.
Proof.
  intros Hx. unfold SetVariable. rewrite Hx.
  destruct (scope_spec h (variables s) executionID)
    as (l & h0 & vars' & Hsc & Hl & Hent).
  rewrite Hsc. eexists _, _. split; [reflexivity|].
  split; [reflexivity|]. split; [reflexivity|].
  set (s1 := mk (enableAsync s) (processInstances s) (executions s) vars').
  assert (Hx1 : executions s1 !! executionID = Some x) by exact Hx.
  assert (Hget : ∀ (hh : heap) (m : gmap string V) n,
    hh !! l = Some m → GetVariable hh s1 executionID n = inl (m !! n)).
  { intros hh m n Hm. rewrite (GetVariable_scope_entries _ _ _ _ _ Hx1).
    unfold scope_entries. cbn [variables s1]. rewrite Hl. unfold entries.
    by rewrite Hm. }
  pose proof (λ n, GetVariable_scope_entries h s executionID n x Hx) as Hold.
  split; [|split].
  - rewrite (Hget _ _ _ (lookup_insert_eq _ _ _)). by rewrite lookup_insert_eq.
  - intros n Hn. rewrite (Hget _ _ _ (lookup_insert_eq _ _ _)), Hold.
    by rewrite lookup_insert_ne, Hent.
  - unfold RemoveVariable. rewrite Hx1. cbn [variables s1]. rewrite Hl.
    eexists. split; [reflexivity|]. rewrite entries_insert_eq.
    split.
    + rewrite (Hget _ _ _ (lookup_insert_eq _ _ _)). by rewrite lookup_delete_eq.
    + intros n Hn. rewrite (Hget _ _ _ (lookup_insert_eq _ _ _)), Hold.
      by rewrite lookup_delete_ne, lookup_insert_ne, Hent.
Qed.

(** X8: [SetVariables] merges: afterwards a variable reads as the value
    supplied for it, if one was supplied, and as before otherwise.
    [SignalWithVariables] with a map does exactly what [SetVariables] does
    with it, while with a nil map, and so [Signal], it returns the heap
    and the store untouched. *)
Theorem SetVariables_merges (h : heap) (s : runtimeServiceImpl)
    (executionID : string) (src : option positive) (x : Execution.t) :
  executions s !! executionID = Some x →
  (∃ h1 s1,
     SetVariables h s executionID src = (None, h1, s1)
     ∧ ∀ n, GetVariable h1 s1 executionID n
            = inl (match entries h src !! n with
                   | Some v => Some v
                   | None => scope_entries h (variables s) executionID !! n
                   end))
  ∧ match src with
    | Some a =>
        SignalWithVariables h s executionID (Some a)
        = SetVariables h s executionID (Some a)
    | None => SignalWithVariables h s executionID None = (None, h, s)
    end
  ∧ Signal h s executionID = (None, h, s).
Proof.
  intros Hx. split; [|split].
  - destruct (SetVariables_spec h s executionID src x Hx)
      as (l & h1 & s1 & Hset & Hex & _ & Hl & Hh1).
    exists h1, s1. split; [exact Hset|]. intros n.
    assert (Hx1 : executions s1 !! executionID = Some x) by (by rewrite Hex).
    rewrite (GetVariable_scope_entries _ _ _ _ _ Hx1).
    unfold scope_entries at 1. rewrite Hl. unfold entries at 1. rewrite Hh1.
    cbn. rewrite lookup_union.
    destruct (entries h src !! n);
      by destruct (scope_entries h (variables s) executionID !! n).
  - destruct src as [a|].
    + unfold SignalWithVariables, SetVariables. by rewrite Hx.
    + unfold SignalWithVariables. by rewrite Hx.
  - by apply (Signal_spec h s executionID x).
Qed.

(** X9: the map [GetVariables] returns is a new map object, not the
    execution's scope: it holds the scope's entries, no map object that
    existed is changed, and whatever is later written into the returned
    map, the execution's variables read as before. *)
Theorem GetVariables_returns_copy (h : heap) (s : runtimeServiceImpl)
    (executionID : string) (x : Execution.t) :
  executions s !! executionID = Some x →
  (∀ l0, variables s !! executionID = Some l0 → is_Some (h !! l0)) →
  ∃ l h1,
    GetVariables h s executionID = (inl l, h1)
    ∧ h !! l = None
    ∧ variables s !! executionID ≠ Some l
    ∧ h1 = <[l := scope_entries h (variables s) executionID]> h
    ∧ ∀ m n, GetVariable (<[l := m]> h1) s executionID n
             = GetVariable h s executionID n.
Proof.
  intros Hx Hwf. unfold GetVariables. rewrite Hx.
  pose proof (make_fresh h) as Hf.
  assert (Hne : ∀ l, h !! l = None → variables s !! executionID ≠ Some l).
  { intros l Hl Hv. destruct (Hwf l Hv) as [m Hm]. congruence. }
  assert (Hframe : ∀ l m0 m n, h !! l = None →
    GetVariable (<[l := m]> (<[l := m0]> h)) s executionID n
    = GetVariable h s executionID n).
  { intros l m0 m n Hl. rewrite !(GetVariable_scope_entries _ _ _ _ _ Hx).
    unfold scope_entries. destruct (variables s !! executionID) as [l0|] eqn:Hv;
      [|done].
    assert (l ≠ l0) by (intros ->; by apply (Hne l0 Hl)).
    unfold entries. by rewrite !lookup_insert_ne. }
  unfold scope_entries.
  destruct (variables s !! executionID) as [l0|] eqn:Hl.
  - pose proof (range_assign_make h (Some l0)) as Hra.
    destruct (make h) as [l h0]. cbn [fst snd] in Hra, Hf.
    exists l, (range_assign h0 (Some l0) l). split; [reflexivity|].
    split; [exact Hf|]. split; [by apply Hne|]. split; [exact Hra|].
    intros m n. rewrite Hra. by apply Hframe.
  - unfold make in Hf |- *. cbn [fst snd] in Hf |- *.
    eexists _, _. split; [reflexivity|]. split; [exact Hf|].
    split; [done|]. split; [reflexivity|].
    intros m n. by apply Hframe.
Qed.

Lemma with_Suspended_twice (p : ProcessInstance.t) (b c : bool) :
  ProcessInstance.with_Suspended (ProcessInstance.with_Suspended p b) c
  = ProcessInstance.with_Suspended p c.
Proof. reflexivity. Qed.

(** X10: [SuspendProcessInstance] sets the flag of the instance and
    nothing else: the executions, the executions of the instance among
    them, keep their own flags; suspending again returns the same store;
    and [ActivateProcessInstance] after it gives back the store of an
    instance that was not suspended before. *)
Theorem Suspend_then_Activate (s : runtimeServiceImpl)
    (processInstanceID : string) (p : ProcessInstance.t) :
  processInstances s !! processInstanceID = Some p →
  ∃ s1,
    SuspendProcessInstance s processInstanceID = (None, s1)
    ∧ GetProcessInstance s1 processInstanceID
      = inl (ProcessInstance.with_Suspended p true)
    ∧ (∀ id, id ≠ processInstanceID →
         processInstances s1 !! id = processInstances s !! id)
    ∧ executions s1 = executions s
    ∧ variables s1 = variables s
    ∧ SuspendProcessInstance s1 processInstanceID = (None, s1)
    ∧ (ProcessInstance.Suspended p = false →
       ActivateProcessInstance s1 processInstanceID = (None, s)).
Proof.
  intros Hp. eexists. unfold SuspendProcessInstance at 1, set_Suspended.
  rewrite Hp. split; [reflexivity|].
  cbn [processInstances executions variables]. split_and!; try done.
  - unfold GetProcessInstance. cbn [processInstances].
    by rewrite lookup_insert_eq.
  - intros id Hne. by rewrite lookup_insert_ne.
  - unfold SuspendProcessInstance, set_Suspended. cbn [processInstances
      enableAsync executions variables]. rewrite lookup_insert_eq.
    by rewrite insert_insert_eq.
  - intros Hs. unfold ActivateProcessInstance, set_Suspended.
    cbn [processInstances enableAsync executions variables].
    rewrite lookup_insert_eq, insert_insert_eq.
    replace (ProcessInstance.with_Suspended
               (ProcessInstance.with_Suspended p true) false) with p
      by (destruct p; cbn in *; by subst).
    rewrite insert_id by done. by destruct s.
Qed.

(** X11: deleting a process instance right after it was started under an
    id the store did not know gives back the store as it was before the
    start: the instance, its root execution and its variable scope are
    all gone and nothing else has changed. *)
Theorem Delete_undoes_start (h : heap) (s : runtimeServiceImpl)
    (D : ProcessDefinition.t) (businessKey : string)
    (vars : option positive) (uuid reason : string) (now : Z) :
  ProcessDefinition.Suspended D = false →
  processInstances s !! uuid = None →
  executions s !! uuid = None →
  variables s !! uuid = None →
  (∀ id x, executions s !! id = Some x → Execution.ProcessInstanceID x ≠ uuid) →
  ∃ P h1 s1,
    startProcessInstance h s D businessKey vars uuid now = (inl P, h1, s1)
    ∧ GetProcessInstance s1 uuid = inl P
    ∧ DeleteProcessInstance s1 uuid reason = (None, s).
Proof.
  intros Hsus Hp Hx Hv Hown.
  set (P := ProcessInstance.mk uuid (ProcessDefinition.ID D)
              (ProcessDefinition.Key D) (ProcessDefinition.Name D) businessKey
              now None "" false (ProcessDefinition.TenantID D) uuid "").
  set (X := Execution.mk uuid uuid "" "" true false true false false
              (ProcessDefinition.TenantID D)).
  assert (Hstart : ∃ h1 vars1,
    startProcessInstance h s D businessKey vars uuid now
    = (inl P, h1, mk (enableAsync s) (<[uuid := P]> (processInstances s))
                     (<[uuid := X]> (executions s)) vars1)
    ∧ ∀ id, id ≠ uuid → vars1 !! id = variables s !! id).
  { unfold startProcessInstance. rewrite Hsus. destruct vars as [a|].
    - destruct (make h) as [l h0]. eexists _, _. split; [reflexivity|].
      intros id Hne. cbn. by rewrite lookup_insert_ne.
    - by eexists _, _. }
  destruct Hstart as (h1 & vars1 & Hstart & Hvars1).
  eexists P, h1, _. split; [exact Hstart|].
  split; [unfold GetProcessInstance; cbn; by rewrite lookup_insert_eq|].
  unfold DeleteProcessInstance. cbn [processInstances executions variables
    enableAsync]. rewrite lookup_insert_eq. f_equal.
  pose proof (delete_loop_spec uuid (<[uuid := X]> (executions s)) vars1) as Hloop.
  cbn zeta in Hloop.
  destruct s as [a0 p0 e0 v0].
  cbn [enableAsync processInstances executions variables] in *.
  f_equal.
  - by rewrite delete_insert_id.
  - apply map_eq. intros id. destruct (Hloop id) as [He _]. rewrite He.
    destruct (decide (uuid = id)) as [<-|Hne].
    + rewrite lookup_insert_eq, Hx. by rewrite decide_True.
    + rewrite lookup_insert_ne by done.
      destruct (e0 !! id) as [x|] eqn:Hid; [|done].
      rewrite decide_False; [done|]. by apply (Hown id).
  - apply map_eq. intros id. destruct (Hloop id) as [_ Hv2]. rewrite Hv2.
    destruct (decide (uuid = id)) as [<-|Hne].
    + rewrite lookup_insert_eq. rewrite decide_True by done. by rewrite Hv.
    + rewrite lookup_insert_ne by done. rewrite (Hvars1 id) by done.
      destruct (e0 !! id) as [x|] eqn:Hid; [|done].
      rewrite decide_False; [done|]. by apply (Hown id).
Qed.

End RuntimeExtras.

(** ** Task variables, comments, attachments and completion *)

Section TaskExtras2.

Context {V W E : Type}.
Import TaskService Props.
Local Abbreviation heap := (gmap positive (gmap string V)).
Local Abbreviation service := (taskServiceImpl V W E).

Lemma GetTaskVariable_scope_entries (h : heap) (s : service)
    (taskID variableName : string) (k : Task.t) :
  tasks s !! taskID = Some k →
  GetTaskVariable h s taskID variableName
  = inl (scope_entries h (variables s) taskID !! variableName).
Proof.
  intros Hk. unfold GetTaskVariable, scope_entries. rewrite Hk.
  by destruct (variables s !! taskID).
Qed.

(** X12: a task variable written by [SetTaskVariable] is what
    [GetTaskVariable] reads back and the task's other variables read as
    before; [GetTaskVariables] then returns a new map object, not the
    task's scope, holding the old entries with the new one written over
    them. *)
Theorem SetTaskVariable_then_read (h : heap) (s : service)
    (taskID variableName : string) (value : V) (k : Task.t) :
  tasks s !! taskID = Some k →
  ∃ h1 s1,
    SetTaskVariable h s taskID variableName value = (None, h1, s1)
    ∧ tasks s1 = tasks s
    ∧ GetTaskVariable h1 s1 taskID variableName = inl (Some value)
    ∧ (∀ n, n ≠ variableName →
         GetTaskVariable h1 s1 taskID n = GetTaskVariable h s taskID n)
    ∧ ∃ l h2,
        GetTaskVariables h1 s1 taskID = (inl l, h2)
        ∧ h1 !! l = None
        ∧ variables s1 !! taskID ≠ Some l
        ∧ h2 !! l
          = Some (<[variableName := value]>
                    (scope_entries h (variables s) taskID)).
Proof.
  intros Hk. unfold SetTaskVariable. rewrite Hk.
  destruct (scope_spec h (variables s) taskID)
    as (l0 & h0 & vars' & Hsc & Hl0 & Hent).
  rewrite Hsc, Hent. eexists _, _. split; [reflexivity|].
  split; [reflexivity|].
  set (m1 := <[variableName := value]> (scope_entries h (variables s) taskID)).
  set (h1 := <[l0 := m1]> h0). set (s1 := with_variables s vars').
  assert (Hk1 : tasks s1 !! taskID = Some k) by exact Hk.
  assert (Hsc1 : scope_entries h1 (variables s1) taskID = m1).
  { unfold scope_entries. cbn [variables s1 with_variables]. rewrite Hl0.
    apply entries_insert_eq. }
  split; [|split].
  - rewrite (GetTaskVariable_scope_entries _ _ _ _ _ Hk1), Hsc1.
    unfold m1. by rewrite lookup_insert_eq.
  - intros n Hn. rewrite (GetTaskVariable_scope_entries _ _ _ _ _ Hk1), Hsc1.
    rewrite (GetTaskVariable_scope_entries _ _ _ _ _ Hk).
    unfold m1. by rewrite lookup_insert_ne.
  - unfold GetTaskVariables. rewrite Hk1.
    cbn [variables s1 with_variables]. rewrite Hl0.
    pose proof (range_assign_make h1 (Some l0)) as Hra.
    pose proof (make_fresh h1) as Hf.
    destruct (make h1) as [l h2]. cbn [fst snd] in Hra, Hf.
    eexists _, _. split; [reflexivity|]. split; [exact Hf|]. split.
    + intros [= ->]. unfold h1 in Hf. by rewrite lookup_insert_eq in Hf.
    + rewrite Hra, lookup_insert_eq. f_equal. apply entries_insert_eq.
Qed.

(** X13: [AddComment] and [CreateAttachment] append: the list
    [GetTaskComments] (or [GetTaskAttachments]) returns afterwards is the
    list it returned before followed by the new entry, the lists of the
    other tasks are untouched, the comment carries no user id and the
    attachment takes the process instance id of its task. *)
Theorem AddComment_appends (s : service) (taskID message uuid : string)
    (now : Z) (k : Task.t) (ty name desc : string) (content : list Byte.byte) :
  tasks s !! taskID = Some k →
  (∃ cs s1,
     GetTaskComments s taskID = inl cs
     ∧ AddComment s taskID message uuid now
       = (inl (Comment.mk uuid taskID "" message now), s1)
     ∧ GetTaskComments s1 taskID
       = inl (cs ++ [Comment.mk uuid taskID "" message now])
     ∧ GetTaskAttachments s1 taskID = GetTaskAttachments s taskID
     ∧ ∀ id, id ≠ taskID → GetTaskComments s1 id = GetTaskComments s id)
  ∧ (∃ ats s1 a,
       GetTaskAttachments s taskID = inl ats
       ∧ CreateAttachment s taskID ty name desc content uuid now = (inl a, s1)
       ∧ Attachment.ProcessInstanceID a = Task.ProcessInstanceID k
       ∧ Attachment.ID a = uuid ∧ Attachment.TaskID a = taskID
       ∧ GetTaskAttachments s1 taskID = inl (ats ++ [a])
       ∧ GetTaskComments s1 taskID = GetTaskComments s taskID
       ∧ ∀ id, id ≠ taskID → GetTaskAttachments s1 id = GetTaskAttachments s id).
Proof.
  intros Hk. split.
  - eexists _, _. unfold GetTaskComments at 1, AddComment. rewrite Hk.
    split; [reflexivity|]. split; [reflexivity|].
    unfold GetTaskComments, GetTaskAttachments.
    cbn [tasks comments attachments with_comments]. rewrite Hk.
    split; [by rewrite lookup_insert_eq|]. split; [done|].
    intros id Hne. by rewrite lookup_insert_ne.
  - eexists _, _, _. unfold GetTaskAttachments at 1, CreateAttachment.
    rewrite Hk. split; [reflexivity|]. split; [reflexivity|].
    cbn [Attachment.ProcessInstanceID Attachment.ID Attachment.TaskID].
    do 3 (split; [reflexivity|]).
    unfold GetTaskComments, GetTaskAttachments.
    cbn [tasks comments attachments with_attachments]. rewrite Hk.
    split; [by rewrite lookup_insert_eq|]. split; [done|].
    intros id Hne. by rewrite lookup_insert_ne.
Qed.

Lemma with_runtimeService_same (s : service) :
  with_runtimeService s (runtimeService s) = s.
Proof. by destruct s. Qed.

(** X14: when the task's [ExecutionID] is not the id of a stored
    execution, [CompleteWithVariables] fails and the task stays: heap and
    service are returned as they were, and the error wraps the runtime
    service's "execution not found" error, under "failed to set
    variables" when a map was given and under "failed to signal execution"
    when it was nil. *)
Theorem Complete_fails_on_missing_execution (h : heap) (s : service)
    (taskID : string) (k : Task.t) (vars : option positive) :
  tasks s !! taskID = Some k →
  Task.ExecutionID k ≠ "" →
  Runtime.executions (runtimeService s) !! Task.ExecutionID k = None →
  let cause := Runtime.execution_not_found (Task.ExecutionID k) in
  let e := Errorf_w (match vars with
                     | Some _ => "failed to set variables: "
                     | None => "failed to signal execution: "
                     end) (Some cause) in
  CompleteWithVariables h s taskID vars = (Some e, h, s)
  ∧ errors_Is e cause = true
  ∧ tasks s !! taskID = Some k.
Proof.
  intros Hk Hid Hx cause e. split; [|split; [|exact Hk]].
  - unfold CompleteWithVariables. rewrite Hk. destruct vars as [a|].
    + rewrite decide_True by done. unfold Runtime.SetVariables. rewrite Hx.
      by rewrite with_runtimeService_same.
    + rewrite decide_False by (by intros [? _]).
      rewrite decide_True by done.
      unfold Runtime.Signal, Runtime.SignalWithVariables. rewrite Hx.
      by rewrite with_runtimeService_same.
  - unfold e, Errorf_w. apply errors_Is_wrap, errors_Is_refl.
Qed.

(** X15: on a task that has no owning execution ([ExecutionID] empty)
    [CompleteWithVariables] succeeds and only removes the task record: the
    variable map it is given is not written anywhere, and the heap and the
    runtime service are untouched. *)
Theorem Complete_without_execution_drops_variables (h : heap) (s : service)
    (taskID : string) (k : Task.t) (vars : option positive) :
  tasks s !! taskID = Some k →
  Task.ExecutionID k = "" →
  CompleteWithVariables h s taskID vars
  = (None, h, with_tasks s (delete taskID (tasks s)))
  ∧ Complete h s taskID = CompleteWithVariables h s taskID vars.
Proof.
  intros Hk Hid.
  assert (Hc : ∀ v, CompleteWithVariables h s taskID v
                    = (None, h, with_tasks s (delete taskID (tasks s)))).
  { intros v. unfold CompleteWithVariables. rewrite Hk, Hid.
    rewrite decide_False by (by intros [_ ?]).
    rewrite decide_False by (intros H; by apply H).
    by rewrite with_runtimeService_same. }
  split; [apply Hc|]. unfold Complete. by rewrite !Hc.
Qed.

Lemma remove_attachment_None (xs : list Attachment.t) (attachmentID : string) :
  (∀ att, att ∈ xs → Attachment.ID att ≠ attachmentID) →
  remove_attachment xs attachmentID = None.
Proof.
  induction xs as [|a xs IH]; [done|]. intros Hall. cbn.
  rewrite decide_False by (apply Hall; by left).
  rewrite IH; [done|]. intros att Hin. apply Hall. by right.
Qed.

Lemma remove_attachment_Some (xs : list Attachment.t) (attachmentID : string) :
  (∃ att, att ∈ xs ∧ Attachment.ID att = attachmentID) →
  ∃ r, remove_attachment xs attachmentID = Some r
       ∧ length xs = S (length r)
       ∧ ∀ att, att ∈ r → att ∈ xs.
Proof.
  induction xs as [|a xs IH]; intros (att & Hin & Hid).
  - by apply elem_of_nil in Hin.
  - cbn. destruct (decide (Attachment.ID a = attachmentID)) as [Ha|Ha].
    + exists xs. split_and!; try done. intros b Hb. by right.
    + apply elem_of_cons in Hin as [->|Hin]; [done|].
      destruct IH as (r & Hr & Hlen & Hsub); [by exists att|].
      rewrite Hr. exists (a :: r). cbn. split_and!; try done; [by rewrite Hlen|].
      intros b Hb. apply elem_of_cons in Hb as [->|Hb]; [by left|].
      right. by apply Hsub.
Qed.

Lemma DeleteAttachment_ranging_hit
    (order : list (string * list Attachment.t)) (s : service)
    (attachmentID taskID : string) (atts r : list Attachment.t) :
  (taskID, atts) ∈ order →
  remove_attachment atts attachmentID = Some r →
  (∀ id a, (id, a) ∈ order → (id, a) = (taskID, atts)
                            ∨ remove_attachment a attachmentID = None) →
  DeleteAttachment_ranging order s attachmentID
  = (None, with_attachments s (<[taskID := r]> (attachments s))).
Proof.
  intros Hin Hr Hall. induction order as [|[id a] order IH].
  - by apply elem_of_nil in Hin.
  - cbn. destruct (Hall id a) as [[= -> ->]|Hnone]; [by left| |].
    + by rewrite Hr.
    + rewrite Hnone. apply IH.
      * apply elem_of_cons in Hin as [[= <- <-]|Hin]; [congruence|done].
      * intros id' a' Hin'. apply Hall. by right.
Qed.

Lemma DeleteAttachment_ranging_miss
    (order : list (string * list Attachment.t)) (s : service)
    (attachmentID : string) :
  (∀ id a, (id, a) ∈ order → remove_attachment a attachmentID = None) →
  DeleteAttachment_ranging order s attachmentID
  = (Some (Errorf_s "attachment not found: " attachmentID), s).
Proof.
  intros Hall. induction order as [|[id a] order IH]; [done|].
  cbn. rewrite (Hall id a) by (by left). apply IH.
  intros id' a' Hin'. apply (Hall id' a'). by right.
Qed.

(** X16: in whatever order the loop of [DeleteAttachment] visits the
    tasks: when no stored attachment has the id, it returns "attachment
    not found" and the same state; when the attachments of exactly one
    task hold the id, that task's list loses one attachment, the first
    with that id, and every other list is as before.  The task record is
    not looked at, so attachments of a task that is gone can be deleted
    too. *)
Theorem DeleteAttachment_any_order (s : service) (attachmentID : string)
    (order : list (string * list Attachment.t)) :
  order ≡ₚ map_to_list (attachments s) →
  ((∀ id a att, attachments s !! id = Some a → att ∈ a →
                Attachment.ID att ≠ attachmentID) →
   DeleteAttachment_ranging order s attachmentID
   = (Some (Errorf_s "attachment not found: " attachmentID), s))
  ∧ (∀ taskID atts,
       attachments s !! taskID = Some atts →
       (∃ att, att ∈ atts ∧ Attachment.ID att = attachmentID) →
       (∀ id a att, attachments s !! id = Some a → id ≠ taskID → att ∈ a →
                    Attachment.ID att ≠ attachmentID) →
       ∃ r, remove_attachment atts attachmentID = Some r
            ∧ length atts = S (length r)
            ∧ (∀ att, att ∈ r → att ∈ atts)
            ∧ DeleteAttachment_ranging order s attachmentID
              = (None, with_attachments s (<[taskID := r]> (attachments s)))).
Proof.
  intros Hperm.
  assert (Hel : ∀ id a, (id, a) ∈ order ↔ attachments s !! id = Some a).
  { intros id a. rewrite Hperm. apply elem_of_map_to_list. }
  split.
  - intros Hnone. apply DeleteAttachment_ranging_miss. intros id a Hin.
    apply remove_attachment_None. intros att Hatt.
    apply (Hnone id a att); [by apply Hel|done].
  - intros taskID atts Hatts Hex Hothers.
    destruct (remove_attachment_Some atts attachmentID Hex)
      as (r & Hr & Hlen & Hsub).
    exists r. split_and!; try done.
    apply (DeleteAttachment_ranging_hit order s attachmentID taskID atts r);
      [by apply Hel|done|].
    intros id a Hin. apply Hel in Hin.
    destruct (decide (id = taskID)) as [->|Hne].
    + left. congruence.
    + right. apply remove_attachment_None. intros att Hatt.
      by apply (Hothers id a att).
Qed.

End TaskExtras2.

(** ** The repository store *)

Section RepositoryExtras.

Import Repository.

Lemma elem_of_values {A : Type} (m : gmap string A) (x : A) :
  x ∈ values m ↔ ∃ id, m !! id = Some x.
Proof.
  unfold values. rewrite list_elem_of_fmap. split.
  - intros ([id y] & -> & Hin). exists id. by apply elem_of_map_to_list.
  - intros [id Hid]. exists (id, x). split; [done|].
    by apply elem_of_map_to_list.
Qed.

(** What the loop of [GetProcessDefinitionByKey] holds in [latestDef]
    after ranging over [l], started from [acc]. *)
Lemma latest_foldl (key : string) (l : list ProcessDefinition.t)
    (acc : option ProcessDefinition.t) :
  (∀ a, acc = Some a → ProcessDefinition.Key a = key) →
  match foldl (latest_step key) acc l with
  | None => acc = None ∧ ∀ d, d ∈ l → ProcessDefinition.Key d ≠ key
  | Some r =>
      ProcessDefinition.Key r = key
      ∧ (acc = Some r ∨ r ∈ l)
      ∧ (∀ a, acc = Some a →
           (ProcessDefinition.Version a ≤ ProcessDefinition.Version r)%Z)
      ∧ ∀ d, d ∈ l → ProcessDefinition.Key d = key →
             (ProcessDefinition.Version d ≤ ProcessDefinition.Version r)%Z
  end.
Proof.
  revert acc. induction l as [|d l IH]; intros acc Hacc; cbn [foldl].
  - destruct acc as [a|].
    + split_and!; [by apply Hacc|by left| |].
      * intros a' [= <-]. lia.
      * intros d Hd. by apply elem_of_nil in Hd.
    + split; [done|]. intros d Hd. by apply elem_of_nil in Hd.
  - assert (Hstep : ∀ a, latest_step key acc d = Some a →
                         ProcessDefinition.Key a = key).
    { intros a. unfold latest_step. case_decide as Hk; [|apply Hacc].
      destruct acc as [a0|]; [|by intros [= <-]].
      case_decide; intros [= <-]; [done|by apply Hacc]. }
    specialize (IH (latest_step key acc d) Hstep).
    destruct (foldl (latest_step key) (latest_step key acc d) l) as [r|].
    + destruct IH as (Hkr & Hfrom & Hge & Hall). split; [done|].
      assert (Hd : ProcessDefinition.Key d = key →
                   (ProcessDefinition.Version d ≤ ProcessDefinition.Version r)%Z).
      { intros Hk. unfold latest_step in Hge. rewrite decide_True in Hge by done.
        destruct acc as [a0|]; [|by apply Hge].
        case_decide as Hlt; [by apply Hge|].
        specialize (Hge a0 eq_refl). lia. }
      assert (Ha : ∀ a, acc = Some a →
                 (ProcessDefinition.Version a ≤ ProcessDefinition.Version r)%Z).
      { intros a ->. unfold latest_step in Hge. case_decide as Hk; [|by apply Hge].
        case_decide as Hlt; [|by apply Hge]. specialize (Hge d eq_refl). lia. }
      split_and!; [|exact Ha|].
      * destruct Hfrom as [Hfrom|Hin]; [|right; by right].
        unfold latest_step in Hfrom. case_decide as Hk; [|by left].
        destruct acc as [a0|]; [|injection Hfrom as <-; right; by left].
        case_decide; injection Hfrom as <-; [right; by left|by left].
      * intros d' Hin Hk'. apply elem_of_cons in Hin as [->|Hin]; [by apply Hd|].
        by apply Hall.
    + destruct IH as [Hnone Hall]. unfold latest_step in Hnone.
      case_decide as Hk.
      * destruct acc as [a0|]; [case_decide; discriminate|discriminate].
      * split; [done|]. intros d' Hin.
        apply elem_of_cons in Hin as [->|Hin]; [done|by apply Hall].
Qed.

(** X17: in whatever order the loop visits the stored definitions,
    [GetProcessDefinitionByKey] returns a stored definition with that key
    whose version no stored definition with that key exceeds, and it
    returns "process definition not found with key" exactly when no
    stored definition has the key. *)
Theorem GetProcessDefinitionByKey_latest (s : repositoryServiceImpl)
    (key : string) (order : list ProcessDefinition.t) :
  order ≡ₚ values (definitions s) →
  match GetProcessDefinitionByKey_ranging order key with
  | inl d =>
      (∃ id, definitions s !! id = Some d)
      ∧ ProcessDefinition.Key d = key
      ∧ ∀ id d', definitions s !! id = Some d' →
                 ProcessDefinition.Key d' = key →
                 (ProcessDefinition.Version d' ≤ ProcessDefinition.Version d)%Z
  | inr e =>
      e = key_not_found key
      ∧ ∀ id d', definitions s !! id = Some d' → ProcessDefinition.Key d' ≠ key
  end.
Proof.
  intros Hperm. unfold GetProcessDefinitionByKey_ranging.
  pose proof (latest_foldl key order None) as Hl.
  assert (Hin : ∀ d, d ∈ order ↔ ∃ id, definitions s !! id = Some d).
  { intros d. rewrite Hperm. apply elem_of_values. }
  destruct (foldl (latest_step key) None order) as [r|].
  - destruct Hl as (Hk & Hfrom & _ & Hall); [done|].
    split_and!; [|done|].
    + destruct Hfrom as [?|Hr]; [done|]. by apply Hin.
    + intros id d' Hd' Hk'. apply Hall; [|done]. apply Hin. by exists id.
  - destruct Hl as [_ Hall]; [done|]. split; [done|].
    intros id d' Hd'. apply Hall. apply Hin. by exists id.
Qed.

(** What the cascade loop of [DeleteDeployment] leaves. *)
Lemma cascade_loop_spec (deploymentID : string)
    (D0 : gmap string ProcessDefinition.t) (id : string) :
  map_fold (delete_if_deployed deploymentID) D0 D0 !! id
  = match D0 !! id with
    | Some def =>
        if decide (ProcessDefinition.DeploymentID def = deploymentID)
        then None else Some def
    | None => None
    end.
Proof.
  assert (Hgen : ∀ m : gmap string ProcessDefinition.t,
    map_fold (delete_if_deployed deploymentID) D0 m !! id
    = match m !! id with
      | Some def =>
          if decide (ProcessDefinition.DeploymentID def = deploymentID)
          then None else D0 !! id
      | None => D0 !! id
      end).
  { intros m.
    apply (map_fold_weak_ind (λ acc m,
      acc !! id
      = match m !! id with
        | Some def =>
            if decide (ProcessDefinition.DeploymentID def = deploymentID)
            then None else D0 !! id
        | None => D0 !! id
        end)).
    - by rewrite lookup_empty.
    - intros i x m' acc Hi IH. unfold delete_if_deployed.
      destruct (decide (i = id)) as [->|Hne].
      + rewrite lookup_insert_eq. rewrite Hi in IH.
        case_decide; [by rewrite lookup_delete_eq|done].
      + rewrite lookup_insert_ne by done.
        case_decide; [by rewrite lookup_delete_ne|done]. }
  rewrite Hgen. destruct (D0 !! id) as [def|]; [|done]. by case_decide.
Qed.

(** X18: [DeleteDeployment] removes the deployment; with [cascade] it
    also removes exactly the definitions of that deployment, and without
    it keeps every definition, so that a definition of the deleted
    deployment can still be fetched by id while [GetProcessModel] on it
    fails with "deployment not found".  On an unknown deployment id it
    returns "deployment not found" and the same store. *)
Theorem DeleteDeployment_cascade_or_not (s : repositoryServiceImpl)
    (deploymentID : string) (cascade : bool) :
  match deployments s !! deploymentID with
  | None =>
      DeleteDeployment s deploymentID cascade
      = (Some (deployment_not_found deploymentID), s)
  | Some _ =>
      ∃ s1,
        DeleteDeployment s deploymentID cascade = (None, s1)
        ∧ deployments s1 = delete deploymentID (deployments s)
        ∧ (∀ id,
             definitions s1 !! id
             = match definitions s !! id with
               | Some def =>
                   if decide (cascade = true
                              ∧ ProcessDefinition.DeploymentID def = deploymentID)
                   then None else Some def
               | None => None
               end)
        ∧ (cascade = false →
           ∀ id def, definitions s !! id = Some def →
                     ProcessDefinition.DeploymentID def = deploymentID →
                     GetProcessDefinition s1 id = inl def
                     ∧ GetProcessModel s1 id
                       = inr (deployment_not_found deploymentID))
  end.
Proof.
  unfold DeleteDeployment.
  destruct (deployments s !! deploymentID) as [d|] eqn:Hd; [|reflexivity].
  eexists. split; [reflexivity|]. cbn [deployments definitions].
  split; [reflexivity|]. split.
  - intros id. destruct cascade.
    + rewrite cascade_loop_spec.
      destruct (definitions s !! id) as [t|]; [|done].
      destruct (decide (ProcessDefinition.DeploymentID t = deploymentID)).
      * by rewrite decide_True.
      * rewrite decide_False; [done|]. by intros [_ ?].
    + destruct (definitions s !! id); [|done].
      rewrite decide_False; [done|]. by intros [? _].
  - intros -> id def Hdef Hdep. unfold GetProcessDefinition, GetProcessModel.
    cbn [definitions deployments]. rewrite Hdef, Hdep.
    by rewrite lookup_delete_eq.
Qed.

End RepositoryExtras.

Section StartExtras.

Context {V : Type}.
Import Repository Runtime.
Local Abbreviation heap := (gmap positive (gmap string V)).

(** X19: after [SuspendProcessDefinition] on a stored definition,
    [StartProcessInstanceByID] on it returns the "is suspended" error,
    unwrapped, and leaves the heap and the runtime store as they were;
    after [ActivateProcessDefinition] the same call starts an instance of
    that definition.  On an id the repository does not hold the call
    returns the repository's error wrapped in "failed to get process
    definition". *)
Theorem Suspended_definition_cannot_start (h : heap) (rt : runtimeServiceImpl)
    (repo : repositoryServiceImpl) (id : string) (d : ProcessDefinition.t)
    (vars : option positive) (uuid : string) (now : Z) :
  definitions repo !! id = Some d →
  ∃ repo1 repo2,
    SuspendProcessDefinition repo id = (None, repo1)
    ∧ StartProcessInstanceByID h rt repo1 id vars uuid now
      = (inr (definition_suspended (ProcessDefinition.ID d)), h, rt)
    ∧ ActivateProcessDefinition repo1 id = (None, repo2)
    ∧ (∃ P h1 rt1,
         StartProcessInstanceByID h rt repo2 id vars uuid now = (inl P, h1, rt1)
         ∧ ProcessInstance.ProcessDefinitionID P = ProcessDefinition.ID d
         ∧ ProcessInstance.BusinessKey P = ""
         ∧ GetProcessInstance rt1 uuid = inl P)
    ∧ ∀ missing, definitions repo !! missing = None →
        StartProcessInstanceByID h rt repo missing vars uuid now
        = (inr (get_definition_failed (definition_not_found missing)), h, rt).
Proof.
  intros Hd. eexists _, _.
  unfold SuspendProcessDefinition, ActivateProcessDefinition,
    Repository.set_Suspended.
  rewrite Hd. split; [reflexivity|]. cbn [definitions].
  rewrite lookup_insert_eq. split; [|split; [reflexivity|split]].
  - unfold StartProcessInstanceByID, GetProcessDefinition. cbn [definitions].
    rewrite lookup_insert_eq. unfold startProcessInstance. by cbn.
  - unfold StartProcessInstanceByID, GetProcessDefinition. cbn [definitions].
    rewrite lookup_insert_eq. unfold startProcessInstance.
    cbn [with_Suspended ProcessDefinition.Suspended].
    destruct vars as [a|].
    + destruct (make h) as [l h0]. eexists _, _, _. split; [reflexivity|].
      split_and!; try done. unfold GetProcessInstance. cbn.
      by rewrite lookup_insert_eq.
    + eexists _, _, _. split; [reflexivity|].
      split_and!; try done. unfold GetProcessInstance. cbn.
      by rewrite lookup_insert_eq.
  - intros missing Hm. unfold StartProcessInstanceByID, GetProcessDefinition.
    by rewrite Hm.
Qed.

End StartExtras.

(** ** More on the command pipeline *)

Section EngineExtras.

Context {V W E : Type}.
Import Engine.

Local Abbreviation St := (State V W E).
Local Abbreviation Cmd := (Command V W E).
Local Abbreviation Ctx := (Engine.Context V E).

(** What [RetryInterceptor] makes of the result of its one call. *)
Definition retried (maxRetries : Z) (r : Result V) : Result V :=
  match snd r with
  | Some e => (None, Some (Errorf_w (retries_message maxRetries) (Some e)))
  | None => (fst r, None)
  end.

Lemma RetryInterceptor_single_call (maxRetries : Z) (next : Exec V W E)
    (ctx : Ctx) (cmd : Cmd) (st st1 : St) (r : Result V) :
  (0 ≤ maxRetries)%Z →
  next ctx cmd (entered KRetry st) = (Ret r, st1) →
  RetryInterceptor_Execute maxRetries (Some next) ctx cmd st
  = (Ret (retried maxRetries r), st1).
Proof.
  intros Hn Hnext. unfold RetryInterceptor_Execute, bind, emit.
  unfold entered in Hnext. cbn [fst snd].
  destruct (Z.to_nat (maxRetries + 1)) as [|n] eqn:Hfuel; [lia|].
  cbn [retry_loop]. unfold bind, ret. rewrite decide_False by lia.
  cbn [next_Execute]. rewrite Hnext. by destruct r as [v [e|]].
Qed.

(** The interceptors [Build] puts before the context interceptor when no
    custom interceptor was added. *)
Definition wrappers (b : CommandExecutorBuilder V W E) : list Kind :=
  (if enableLogging b then [KLogging] else [])
  ++ (if enableRetry b then [KRetry] else [])
  ++ (if enableTransaction b then [KTransaction] else []).

(** X20: for every setting of the builder's logging, transaction and
    retry switches (retry bound not negative, no custom interceptor)
    [Build] returns an executor, and executing a command through it calls
    the command body exactly once, from the context interceptor, with a
    new command context published in the Go context; the invoker is never
    entered.  The value returned is the command's on success and nil on
    failure; the error is the command's own, or, with retry switched on,
    that error wrapped in "command failed after N retries"; the command
    context is closed once, holding the result or the error; the logger
    gets a start and an outcome line with logging on and nothing
    otherwise, never a retry line. *)
Theorem built_pipeline_runs_command_once (b : CommandExecutorBuilder V W E)
    (ctx : Ctx) (cmd : Cmd) (st : St) :
  b_interceptors b = [] →
  (enableRetry b = true → (0 ≤ retryAttempts b)%Z) →
  let direct :=
    Execute cmd (published (b_engine b) ctx) (fresh_context (b_engine b) ctx)
      (world st) in
  let out :=
    if enableRetry b
    then retried (retryAttempts b) (rethrown (fst direct))
    else rethrown (fst direct) in
  Build b = Ret (mkCommandExecutor (Build_interceptors b))
  ∧ ∃ st',
      CommandExecutor_Execute (mkCommandExecutor (Build_interceptors b))
        ctx (Some cmd) st = (Ret out, st')
      ∧ world st' = snd direct
      ∧ trace st'
        = trace st ++ (Enter <$> wrappers b)
          ++ [Enter KContext; CommandExecute KContext;
              Closed (recorded (b_engine b) ctx (fst direct))]
      ∧ cc_Exception (recorded (b_engine b) ctx (fst direct))
        = snd (fst direct)
      ∧ logs st'
        = logs st
          ++ (if enableLogging b
              then [LogExecuting (typeName cmd);
                    match snd out with
                    | Some e => LogFailed (typeName cmd) e
                    | None => LogCompleted (typeName cmd)
                    end]
              else []).
Proof.
  intros Hints Hn direct out.
  destruct b as [engine ints lg tx rt n]. cbn [b_interceptors enableRetry
    retryAttempts b_engine enableLogging enableTransaction] in *.
  subst ints. split; [by destruct lg, tx, rt|].
  assert (Hexc : cc_Exception (recorded engine ctx (fst direct))
                 = snd (fst direct)).
  { unfold recorded. by destruct (snd (fst direct)). }
  assert (Hrun : ∃ r st',
    next_Execute (wired (Build_interceptors (mkBuilder engine [] lg tx rt n)))
      ctx cmd st = (Ret r, st')
    ∧ r = out
    ∧ world st' = snd direct
    ∧ trace st'
      = trace st ++ (Enter <$> wrappers (mkBuilder engine [] lg tx rt n))
        ++ [Enter KContext; CommandExecute KContext;
            Closed (recorded engine ctx (fst direct))]
    ∧ logs st'
      = logs st
        ++ (if lg
            then [LogExecuting (typeName cmd);
                  match snd r with
                  | Some e => LogFailed (typeName cmd) e
                  | None => LogCompleted (typeName cmd)
                  end]
            else [])).
  { unfold Build_interceptors, wrappers.
    cbn [b_interceptors enableRetry retryAttempts b_engine enableLogging
      enableTransaction].
    destruct lg, tx, rt;
      cbn [app wired next_Execute Interceptor_Execute fmap list_fmap];
      eexists _, _;
      (split;
       [ repeat first
           [ eapply LoggingInterceptor_transparent
           | eapply TransactionInterceptor_rethrows
           | eapply RetryInterceptor_single_call; [by apply Hn|]
           | apply ContextInterceptor_runs_command ]
       | ]);
      unfold out, logged, entered; cbn [world trace logs];
      rewrite ?rethrown_idemp, <- ?app_assoc; cbn [app];
      rewrite ?(right_id_L [] app); by split_and!. }
  destruct Hrun as (r & st' & Hrun & -> & Hw & Ht & Hl).
  exists st'. unfold CommandExecutor_Execute, first. cbn [chain].
  by split_and!.
Qed.

Lemma CommandInvoker_with_context (next : option (Exec V W E)) (ctx : Ctx)
    (cmd : Cmd) (st : St) (c : CommandContext V E) :
  GetCommandContext ctx = Some c →
  CommandInvoker_Execute next ctx cmd st
  = (Ret (fst (Execute cmd ctx c (world st))),
     mkState (snd (Execute cmd ctx c (world st))) (logs st)
       (trace st ++ [Enter KInvoker; CommandExecute KInvoker])).
Proof.
  intros Hc. unfold CommandInvoker_Execute, bind, emit. cbn [fst snd].
  rewrite Hc. unfold command_Execute, bind, emit. cbn.
  destruct (Execute cmd ctx c (world st)) as [r w]. cbn.
  by rewrite <- app_assoc.
Qed.

Lemma CommandInvoker_without_context (next : option (Exec V W E)) (ctx : Ctx)
    (cmd : Cmd) (st : St) :
  GetCommandContext ctx = None →
  CommandInvoker_Execute next ctx cmd st
  = (Ret (None, Some (errorString "command context not found in context")),
     entered KInvoker st).
Proof.
  intros Hc. unfold CommandInvoker_Execute, bind, emit. cbn [fst snd].
  by rewrite Hc.
Qed.

(** X21: a chain that ends in the invoker without a context interceptor
    before it depends on the caller's Go context: when it carries no
    command context the command body is not called, the services are
    untouched and the error "command context not found in context" comes
    back (and is logged as the failure); when it carries one, the
    innermost one published, the invoker calls the command body with it. *)
Theorem Invoker_needs_published_context (ctx : Ctx) (cmd : Cmd) (st : St) :
  let ex := mkCommandExecutor [LoggingInterceptor; TransactionInterceptor;
                               @CommandInvoker V W E] in
  let missing := errorString "command context not found in context" in
  match GetCommandContext ctx with
  | None =>
      ∃ st',
        CommandExecutor_Execute ex ctx (Some cmd) st
        = (Ret (None, Some missing), st')
        ∧ world st' = world st
        ∧ trace st' = trace st ++ [Enter KLogging; Enter KTransaction;
                                   Enter KInvoker]
        ∧ logs st' = logs st ++ [LogExecuting (typeName cmd);
                                 LogFailed (typeName cmd) missing]
  | Some c =>
      let direct := Execute cmd ctx c (world st) in
      (∀ c' : CommandContext V E,
         GetCommandContext (WithValue ctx commandContextKey c') = Some c')
      ∧ ∃ st',
          CommandExecutor_Execute ex ctx (Some cmd) st
          = (Ret (rethrown (fst direct)), st')
          ∧ world st' = snd direct
          ∧ trace st' = trace st ++ [Enter KLogging; Enter KTransaction;
                                     Enter KInvoker; CommandExecute KInvoker]
  end.
Proof.
  intros ex missing. unfold CommandExecutor_Execute, first, ex.
  cbn [chain wired next_Execute Interceptor_Execute].
  destruct (GetCommandContext ctx) as [c|] eqn:Hc.
  - split.
    { intros c'. unfold GetCommandContext. cbn. by rewrite decide_True. }
    assert (Hrun : ∃ r st',
      LoggingInterceptor_Execute
        (Some (TransactionInterceptor_Execute
                 (Some (CommandInvoker_Execute None)))) ctx cmd st
      = (Ret r, st')
      ∧ r = rethrown (fst (Execute cmd ctx c (world st)))
      ∧ world st' = snd (Execute cmd ctx c (world st))
      ∧ trace st' = trace st ++ [Enter KLogging; Enter KTransaction;
                                 Enter KInvoker; CommandExecute KInvoker]).
    { eexists _, _. split.
      { eapply LoggingInterceptor_transparent.
        eapply TransactionInterceptor_rethrows.
        by apply CommandInvoker_with_context. }
      unfold logged, entered. cbn [world trace logs].
      by rewrite <- !app_assoc. }
    destruct Hrun as (r & st' & Hrun & -> & Hw & Ht). by exists st'.
  - assert (Hrun : ∃ r st',
      LoggingInterceptor_Execute
        (Some (TransactionInterceptor_Execute
                 (Some (CommandInvoker_Execute None)))) ctx cmd st
      = (Ret r, st')
      ∧ r = (None, Some missing)
      ∧ world st' = world st
      ∧ trace st' = trace st ++ [Enter KLogging; Enter KTransaction;
                                 Enter KInvoker]
      ∧ logs st' = logs st ++ [LogExecuting (typeName cmd);
                               LogFailed (typeName cmd) missing]).
    { eexists _, _. split.
      { eapply LoggingInterceptor_transparent.
        eapply TransactionInterceptor_rethrows.
        by apply CommandInvoker_without_context. }
      unfold logged, entered. cbn [world trace logs rethrown fst snd].
      by rewrite <- !app_assoc. }
    destruct Hrun as (r & st' & Hrun & -> & Hw & Ht & Hl). by exists st'.
Qed.

End EngineExtras.

(** ** Interceptors as objects *)

Section LinkedExtras.

Context {V W E : Type}.
Import Engine Linked.
Local Abbreviation St := (State V W E).
Local Abbreviation Cmd := (Command V W E).
Local Abbreviation Ctx := (Engine.Context V E).
Local Abbreviation heap := (gmap positive (object V W E)).

(** The interceptors that hand over to their [next] whatever happens. *)
Definition forwarding (i : Interceptor V W E) : Prop :=
  i = LoggingInterceptor ∨ i = TransactionInterceptor.

Definition nil_dereference : string :=
  "runtime error: invalid memory address or nil pointer dereference".

(** The implementations of the objects at [l]. *)
Fixpoint impls (h : heap) (l : list positive) : list (Interceptor V W E) :=
  match l with
  | [] => []
  | a :: l' =>
      match h !! a with
      | Some o => impl o :: impls h l'
      | None => impls h l'
      end
  end.

Lemma impls_app (h : heap) (l1 l2 : list positive) :
  impls h (l1 ++ l2) = impls h l1 ++ impls h l2.
Proof.
  induction l1 as [|a l1 IH]; [done|]. cbn [app impls]. rewrite IH.
  by destruct (h !! a).
Qed.

Lemma SetNext_lookup_ne (h : heap) (i n a : positive) :
  a ≠ i → SetNext h i n !! a = h !! a.
Proof. intros Ha. unfold SetNext. by rewrite lookup_alter_ne. Qed.

Lemma link_lookup_notin (l : list positive) (h : heap) (a : positive) :
  a ∉ l → link h l !! a = h !! a.
Proof.
  revert h. induction l as [|i l IH]; intros h Ha; [done|].
  destruct l as [|j rest]; [done|].
  change (link h (i :: j :: rest)) with (link (SetNext h i j) (j :: rest)).
  rewrite IH.
  - apply SetNext_lookup_ne. intros ->. apply Ha. left.
  - intros Hin. apply Ha. by right.
Qed.

Lemma link_lookup_last (front : list positive) (last : positive) (h : heap) :
  NoDup (front ++ [last]) → link h (front ++ [last]) !! last = h !! last.
Proof.
  revert h. induction front as [|i front IH]; intros h Hnd; [done|].
  cbn [app] in *. apply NoDup_cons in Hnd as [Hi Hnd].
  destruct (front ++ [last]) as [|j rest] eqn:Hl.
  { by destruct front. }
  change (link h (i :: j :: rest)) with (link (SetNext h i j) (j :: rest)).
  rewrite <- Hl in *. rewrite IH by done.
  apply SetNext_lookup_ne. intros ->. apply Hi, elem_of_app. right. left.
Qed.

Lemma impls_SetNext (h : heap) (i n : positive) (l : list positive) :
  impls (SetNext h i n) l = impls h l.
Proof.
  induction l as [|a l IH]; [done|]. cbn [impls]. rewrite IH.
  destruct (decide (a = i)) as [->|Hne].
  - unfold SetNext. rewrite lookup_alter_eq. by destruct (h !! i).
  - by rewrite SetNext_lookup_ne.
Qed.

(** From the first interceptor of a list without repetition the links lead
    through the list in order and then on from the last one. *)
Lemma reached_link (front : list positive) (last : positive) (h : heap)
    (fuel : nat) (rest : list (Interceptor V W E)) :
  NoDup (front ++ [last]) →
  (∀ a, a ∈ front → is_Some (h !! a)) →
  reached fuel (link h (front ++ [last])) last = Some rest →
  reached (length front + fuel) (link h (front ++ [last]))
    (default last (head (front ++ [last])))
  = Some (impls h front ++ rest).
Proof.
  revert h. induction front as [|i front IH]; intros h Hnd Hall Hrest.
  { exact Hrest. }
  cbn [app] in *. apply NoDup_cons in Hnd as [Hi Hnd].
  destruct (front ++ [last]) as [|j tl] eqn:Hl.
  { by destruct front. }
  change (link h (i :: j :: tl)) with (link (SetNext h i j) (j :: tl)).
  cbn [head default length Nat.add reached].
  rewrite link_lookup_notin by done.
  destruct (Hall i) as [oi Hoi]; [left|].
  unfold SetNext at 1. rewrite lookup_alter_eq, Hoi. cbn -[link reached impls].
  assert (Hj : default last (head (front ++ [last])) = j) by (by rewrite Hl).
  change (link h (i :: j :: tl)) with (link (SetNext h i j) (j :: tl)) in Hrest.
  rewrite <- Hl in *.
  specialize (IH (SetNext h i j) Hnd).
  rewrite Hj in IH. rewrite IH; [| |done].
  - cbn [impls]. rewrite Hoi. cbn -[impls]. by rewrite impls_SetNext.
  - intros a Ha. rewrite SetNext_lookup_ne.
    + apply Hall. by right.
    + intros ->. apply Hi, elem_of_app. by left.
Qed.

(** A run of forwarding interceptors enters each of them in turn and then
    does what stands behind the last. *)
Definition entries_of (cmd : Cmd) (l : list (Interceptor V W E)) (st : St) : St :=
  mkState (world st)
    (logs st ++ omap (λ i, match i with
                           | LoggingInterceptor =>
                               Some (LogExecuting (typeName cmd))
                           | _ => None
                           end) l)
    (trace st ++ (Enter ∘ kind <$> l)).

Lemma forwarding_run_panics (l : list (Interceptor V W E)) (ctx : Ctx)
    (cmd : Cmd) (st : St) :
  Forall forwarding l →
  next_Execute (wired l) ctx cmd st = (Panic nil_dereference, entries_of cmd l st).
Proof.
  intros Hl. revert st. induction Hl as [|i l Hi Hl IH]; intros st.
  { cbn. unfold panic, entries_of. cbn. rewrite !app_nil_r. by destruct st. }
  cbn [wired next_Execute].
  destruct Hi as [-> | ->]; cbn [Interceptor_Execute].
  - unfold LoggingInterceptor_Execute, bind, emit, log_Printf. cbn.
    rewrite IH. unfold entries_of. cbn. by rewrite <- !app_assoc.
  - unfold TransactionInterceptor_Execute, bind, emit. cbn.
    rewrite IH. unfold entries_of. cbn. by rewrite <- !app_assoc.
Qed.


End LinkedExtras.

(** ** Deploying definitions *)

Section DeployExtras.

Import Repository.
Variable Unmarshal : list Byte.byte → gmap string jsonValue + error.

(** A version that [version + 1] does not overflow. *)
Definition fits (v : Z) : Prop := (- 2 ^ 63 ≤ v < GoInt.max_int)%Z.

Lemma add_one_fits (v : Z) : fits v → GoInt.add v 1 = (v + 1)%Z.
Proof.
  unfold fits, GoInt.add, GoInt.wrap, GoInt.max_int. intros Hv.
  rewrite Z.mod_small by lia. lia.
Qed.

(** What the version loop of [deployInternal] holds in [version] after
    ranging over [l], started from [v0]. *)
Lemma next_version_foldl (processID : string) (l : list ProcessDefinition.t)
    (v0 : Z) :
  (∀ d, d ∈ l → ProcessDefinition.Key d = processID →
        fits (ProcessDefinition.Version d)) →
  let r := foldl (next_version_step processID) v0 l in
  (v0 ≤ r)%Z
  ∧ (∀ d, d ∈ l → ProcessDefinition.Key d = processID →
          (ProcessDefinition.Version d < r)%Z)
  ∧ (r = v0 ∨ ∃ d, d ∈ l ∧ ProcessDefinition.Key d = processID
                   ∧ r = (ProcessDefinition.Version d + 1)%Z).
Proof.
  revert v0. induction l as [|d l IH]; intros v0 Hfit; cbn [foldl].
  - split_and!; [lia| |by left]. intros d Hd. by apply elem_of_nil in Hd.
  - assert (Hl : ∀ d', d' ∈ l → ProcessDefinition.Key d' = processID →
                       fits (ProcessDefinition.Version d')).
    { intros d' Hin. apply Hfit. by right. }
    specialize (IH (next_version_step processID v0 d) Hl). cbn zeta in IH.
    destruct IH as (Hge & Hall & Hfrom).
    assert (Hstep : (v0 ≤ next_version_step processID v0 d)%Z
      ∧ (ProcessDefinition.Key d = processID →
         (ProcessDefinition.Version d < next_version_step processID v0 d)%Z)
      ∧ (next_version_step processID v0 d = v0
         ∨ ProcessDefinition.Key d = processID
           ∧ next_version_step processID v0 d
             = (ProcessDefinition.Version d + 1)%Z)).
    { unfold next_version_step. case_decide as Hc.
      - destruct Hc as [Hk Hle].
        rewrite add_one_fits by (apply Hfit; [by left|done]).
        split_and!; [lia|lia|by right].
      - split_and!; [lia| |by left]. intros Hk.
        destruct (decide (v0 ≤ ProcessDefinition.Version d)%Z); [|lia].
        exfalso. by apply Hc. }
    destruct Hstep as (Hs1 & Hs2 & Hs3). split_and!.
    + lia.
    + intros d' Hin Hk. apply elem_of_cons in Hin as [->|Hin].
      * specialize (Hs2 Hk). lia.
      * by apply Hall.
    + destruct Hfrom as [Hr|(d' & Hin & Hk & Hr)].
      * destruct Hs3 as [Hv|[Hk Hv]]; [left; congruence|].
        right. exists d. split_and!; [by left|done|congruence].
      * right. exists d'. split_and!; [by right|done|done].
Qed.

(** X23: in whatever order the version loop of [deployInternal] visits
    the stored definitions (their versions short of the largest [int]),
    the version it gives a new definition of a key is 1 when that key is
    new, and otherwise one more than the highest stored version of the
    key; so it is at least 1, above every stored version of the key, and
    the same for every visiting order. *)
Theorem next_version_is_one_above (defs : gmap string ProcessDefinition.t)
    (processID : string) (order : list ProcessDefinition.t) :
  order ≡ₚ values defs →
  (∀ id d, defs !! id = Some d → ProcessDefinition.Key d = processID →
           fits (ProcessDefinition.Version d)) →
  let v := next_version_ranging order processID in
  (1 ≤ v)%Z
  ∧ (∀ id d, defs !! id = Some d → ProcessDefinition.Key d = processID →
             (ProcessDefinition.Version d < v)%Z)
  ∧ (v = 1%Z ∨ ∃ id d, defs !! id = Some d
                       ∧ ProcessDefinition.Key d = processID
                       ∧ v = (ProcessDefinition.Version d + 1)%Z)
  ∧ v = next_version_ranging (values defs) processID.
Proof.
  intros Hperm Hfit v.
  assert (Hspec : ∀ l, l ≡ₚ values defs →
    let r := next_version_ranging l processID in
    (1 ≤ r)%Z
    ∧ (∀ id d, defs !! id = Some d → ProcessDefinition.Key d = processID →
               (ProcessDefinition.Version d < r)%Z)
    ∧ (r = 1%Z ∨ ∃ id d, defs !! id = Some d
                         ∧ ProcessDefinition.Key d = processID
                         ∧ r = (ProcessDefinition.Version d + 1)%Z)).
  { intros l Hl. cbn zeta.
    assert (Hin : ∀ d, d ∈ l ↔ ∃ id, defs !! id = Some d).
    { intros d. rewrite Hl. apply elem_of_values. }
    destruct (next_version_foldl processID l 1) as (Hge & Hall & Hfrom).
    { intros d Hd Hk. apply Hin in Hd as [id Hd]. by apply (Hfit id). }
    split_and!; [done| |].
    - intros id d Hd Hk. apply Hall; [|done]. apply Hin. by exists id.
    - destruct Hfrom as [?|(d & Hd & Hk & Hr)]; [by left|].
      right. apply Hin in Hd as [id Hd]. by exists id, d. }
  destruct (Hspec order Hperm) as (H1 & H2 & H3).
  destruct (Hspec (values defs) (reflexivity _)) as (H1' & H2' & H3').
  fold v in H1, H2, H3. split_and!; try done.
  set (v' := next_version_ranging (values defs) processID) in *.
  destruct H3 as [Hv|(id & d & Hd & Hk & Hv)];
    destruct H3' as [Hv'|(id' & d' & Hd' & Hk' & Hv')].
  - congruence.
  - specialize (H2 id' d' Hd' Hk'). lia.
  - specialize (H2' id d Hd Hk). lia.
  - specialize (H2 id' d' Hd' Hk'). specialize (H2' id d Hd Hk). lia.
Qed.

(** A document [ValidateProcessDefinition] accepts. *)
Definition well_formed (data : gmap string jsonValue) : Prop :=
  is_Some (data !! "id") ∧ is_Some (data !! "name")
  ∧ is_Some (data !! "nodes") ∧ is_Some (data !! "edges").

Lemma Validate_well_formed (content : list Byte.byte)
    (data : gmap string jsonValue) :
  Unmarshal content = inl data → well_formed data →
  ValidateProcessDefinition Unmarshal content = None.
Proof.
  intros Hu (H1 & H2 & H3 & H4). unfold ValidateProcessDefinition.
  rewrite Hu.
  rewrite !decide_False; [done|..]; intros Hn;
    match goal with
    | H : is_Some ?x |- _ => rewrite Hn in H; by destruct H
    end.
Qed.

(** X24: deploying one resource whose content parses to a document with
    the four required fields stores the deployment under the first id
    drawn and adds one definition, not suspended, whose key is the
    document's [id], whose version is above every stored version of that
    key, and which belongs to the new deployment.  From then on
    [GetProcessDefinitionByKey] on that key returns this very definition
    in whatever order it visits the store, and [GetProcessModel] on its
    id returns the content that was deployed. *)
Theorem Deploy_then_lookup (s : repositoryServiceImpl)
    (name category tenantID : string) (resource : Resource.t)
    (uuid : nat → string) (now : Z) (data : gmap string jsonValue) :
  Unmarshal (Resource.Content resource) = inl data →
  well_formed data →
  (∀ id d, definitions s !! id = Some d →
           ProcessDefinition.Key d = as_string (data !! "id") →
           fits (ProcessDefinition.Version d)) →
  ∃ dep def resources' s1,
    DeployInternal Unmarshal s name category tenantID [resource] uuid now
    = (inl dep, resources', s1)
    ∧ Deployment.ID dep = uuid 0
    ∧ GetDeployment s1 (uuid 0) = inl dep
    ∧ definitions s1 = <[ProcessDefinition.ID def := def]> (definitions s)
    ∧ ProcessDefinition.Key def = as_string (data !! "id")
    ∧ ProcessDefinition.DeploymentID def = uuid 0
    ∧ ProcessDefinition.Suspended def = false
    ∧ (∀ id d, definitions s !! id = Some d →
               ProcessDefinition.Key d = ProcessDefinition.Key def →
               (ProcessDefinition.Version d < ProcessDefinition.Version def)%Z)
    ∧ (∀ order, order ≡ₚ values (definitions s1) →
         GetProcessDefinitionByKey_ranging order (ProcessDefinition.Key def)
         = inl def)
    ∧ GetProcessModel s1 (ProcessDefinition.ID def)
      = inl (Resource.Content resource).
Proof.
  intros Hu Hwf Hfit.
  set (def := new_definition (definitions s) (uuid 0) category tenantID
                (Resource.Name resource) data (uuid 2)).
  set (resource' := Resource.mk (uuid 1) (Resource.Name resource) (uuid 0)
                      (Resource.Content resource) (Resource.ContentType resource)).
  set (dep := Deployment.mk (uuid 0) name now category tenantID [resource']).
  set (defs1 := <[ProcessDefinition.ID def := def]> (definitions s)).
  exists dep, def, [resource'],
    (mk (databaseDriver s) (databaseURL s) (<[uuid 0 := dep]> (deployments s))
        defs1).
  assert (Hrun : DeployInternal Unmarshal s name category tenantID [resource]
                   uuid now
                 = (inl dep, [resource'],
                    mk (databaseDriver s) (databaseURL s)
                       (<[uuid 0 := dep]> (deployments s)) defs1)).
  { unfold DeployInternal. cbn [deploy_loop Resource.Content Resource.Name].
    rewrite Hu. rewrite (Validate_well_formed _ _ Hu Hwf). reflexivity. }
  destruct (next_version_foldl (as_string (data !! "id"))
              (values (definitions s)) 1) as (_ & Habove & _).
  { intros d Hd Hk. apply elem_of_values in Hd as [id Hd]. by apply (Hfit id). }
  assert (Hnew : ∀ id d, definitions s !! id = Some d →
    ProcessDefinition.Key d = ProcessDefinition.Key def →
    (ProcessDefinition.Version d < ProcessDefinition.Version def)%Z).
  { intros id d Hd Hk. apply Habove; [|exact Hk].
    apply elem_of_values. by exists id. }
  split; [exact Hrun|]. split; [reflexivity|]. split.
  { unfold GetDeployment. cbn [deployments]. by rewrite lookup_insert_eq. }
  split; [reflexivity|]. do 3 (split; [reflexivity|]). split; [exact Hnew|].
  split.
  - intros order Hperm. unfold GetProcessDefinitionByKey_ranging.
    cbn [definitions] in Hperm.
    pose proof (latest_foldl (ProcessDefinition.Key def) order None) as Hl.
    assert (Hin : ∀ d, d ∈ order ↔ ∃ id, defs1 !! id = Some d).
    { intros d. rewrite Hperm. apply elem_of_values. }
    assert (Hdef : def ∈ order).
    { apply Hin. exists (ProcessDefinition.ID def). apply lookup_insert_eq. }
    destruct (foldl (latest_step (ProcessDefinition.Key def)) None order)
      as [r|].
    + destruct Hl as (Hk & Hfrom & _ & Hall); [done|].
      destruct Hfrom as [?|Hr]; [done|]. f_equal.
      apply Hin in Hr as [id Hr]. unfold defs1 in Hr.
      destruct (decide (ProcessDefinition.ID def = id)) as [<-|Hne].
      * rewrite lookup_insert_eq in Hr. by injection Hr.
      * rewrite lookup_insert_ne in Hr by done.
        specialize (Hnew id r Hr Hk). specialize (Hall def Hdef eq_refl). lia.
    + destruct Hl as [_ Hall]; [done|]. by destruct (Hall def Hdef).
  - unfold GetProcessModel. cbn [definitions deployments]. unfold defs1.
    rewrite lookup_insert_eq. cbn [ProcessDefinition.DeploymentID def
      new_definition ProcessDefinition.ResourceName].
    rewrite lookup_insert_eq. cbn. by rewrite decide_True.
Qed.

(** X25: a deployment is not all-or-nothing.  When the first resource is
    accepted and the content of the second does not parse,
    [deployInternal] returns the "failed to parse process definition"
    error wrapping the decoder's, and no deployment is stored, but the
    definition built from the first resource stays in the store: it can
    be fetched by id, and, its deployment never having been stored,
    [GetProcessModel] on it fails with "deployment not found". *)
Theorem Deploy_failure_leaves_definitions (s : repositoryServiceImpl)
    (name category tenantID : string) (r1 r2 : Resource.t)
    (rest : list Resource.t) (uuid : nat → string) (now : Z)
    (data : gmap string jsonValue) (bad : error) :
  Unmarshal (Resource.Content r1) = inl data →
  well_formed data →
  Unmarshal (Resource.Content r2) = inr bad →
  deployments s !! uuid 0 = None →
  ∃ def resources' s1 e,
    DeployInternal Unmarshal s name category tenantID (r1 :: r2 :: rest)
      uuid now = (inr e, resources', s1)
    ∧ e = Errorf_w ("failed to parse process definition '"
                    +:+ Resource.Name r2 +:+ "': ") (Some bad)
    ∧ errors_Is e bad = true
    ∧ deployments s1 = deployments s
    ∧ definitions s1 = <[ProcessDefinition.ID def := def]> (definitions s)
    ∧ ProcessDefinition.DeploymentID def = uuid 0
    ∧ GetProcessDefinition s1 (ProcessDefinition.ID def) = inl def
    ∧ GetProcessModel s1 (ProcessDefinition.ID def)
      = inr (deployment_not_found (uuid 0)).
Proof.
  intros Hu1 Hwf Hu2 Hfresh.
  set (def := new_definition (definitions s) (uuid 0) category tenantID
                (Resource.Name r1) data (uuid 2)).
  eexists def, _, _, _.
  unfold DeployInternal. cbn [deploy_loop Resource.Content Resource.Name].
  rewrite Hu1, (Validate_well_formed _ _ Hu1 Hwf), Hu2.
  split; [reflexivity|]. split; [reflexivity|]. split.
  { unfold Errorf_w. apply errors_Is_wrap, errors_Is_refl. }
  cbn [deployments definitions]. split; [reflexivity|].
  split; [reflexivity|]. split; [reflexivity|].
  unfold GetProcessDefinition, GetProcessModel. cbn [definitions deployments].
  fold def. rewrite lookup_insert_eq. split; [done|].
  cbn [ProcessDefinition.DeploymentID def new_definition]. by rewrite Hfresh.
Qed.

(** X26: [DeployCommand.Execute] turns down empty content, then an empty
    resource name, before it touches the repository; and when the content
    does not parse it returns the decoder's error under two wrappers,
    "failed to deploy process definition" over "failed to parse process
    definition", with the repository as it was. *)
Theorem DeployCommand_rejections (s : repositoryServiceImpl)
    (c : DeployCommand.t) (uuid : nat → string) (now : Z) :
  let run := Commands.DeployCommand_Execute Unmarshal s c uuid now in
  (DeployCommand.ResourceContent c = [] →
   run = ((None, Some (errorString "resource content cannot be empty")), s))
  ∧ (DeployCommand.ResourceContent c ≠ [] →
     DeployCommand.ResourceName c = "" →
     run = ((None, Some (errorString "resource name cannot be empty")), s))
  ∧ (DeployCommand.ResourceContent c ≠ [] →
     DeployCommand.ResourceName c ≠ "" →
     ∀ bad, Unmarshal (DeployCommand.ResourceContent c) = inr bad →
       ∃ e, run = ((None, Some e), s)
            ∧ errors_Is e bad = true
            ∧ Error e
              = "failed to deploy process definition: "
                +:+ (("failed to parse process definition '"
                      +:+ DeployCommand.ResourceName c +:+ "': ")
                     +:+ Error bad)).
Proof.
  intros run. unfold run, Commands.DeployCommand_Execute.
  assert (Hlen : ∀ xs : list Byte.byte, xs ≠ [] → length xs ≠ 0).
  { by intros [|x xs]. }
  split_and!.
  - intros ->. by rewrite decide_True.
  - intros Hc ->. rewrite decide_False by (by apply Hlen).
    by rewrite decide_True.
  - intros Hc Hn bad Hbad. rewrite decide_False by (by apply Hlen).
    rewrite decide_False by done.
    unfold DeployInternal. cbn [deploy_loop Resource.Content Resource.Name].
    rewrite Hbad. eexists. split; [|split].
    + f_equal. by destruct s.
    + unfold Errorf_w. by do 2 apply errors_Is_wrap; apply errors_Is_refl.
    + reflexivity.
Qed.

End DeployExtras.

(** ** The commands *)

Section TaskCommandExtras.

Context {S V R : Type}.
Import Commands.
Variable taskService : TaskAPI S.
Variable runtimeService : RuntimeAPI S V.

(** X27: [ClaimTaskCommand.Execute] returns without error only when both
    ids were non-empty, [GetTask] found the task, the task had no assignee
    or was already assigned to the claiming user, the user was among the
    candidate users unless there were none, and the service's [Claim],
    called once on the state [GetTask] left, returned nil; the result
    value is nil and the state is the one [Claim] left. *)
Theorem ClaimTaskCommand_success (c : ClaimTaskCommand.t) (s s' : S)
    (r : option R) :
  ClaimTaskCommand_Execute taskService c s = ((r, None), s') →
  r = None
  ∧ ClaimTaskCommand.TaskID c ≠ ""
  ∧ ClaimTaskCommand.UserID c ≠ ""
  ∧ ∃ task s1,
      GetTask taskService s (ClaimTaskCommand.TaskID c) = (inl task, s1)
      ∧ (Task.Assignee task = ""
         ∨ Task.Assignee task = ClaimTaskCommand.UserID c)
      ∧ (Task.CandidateUsers task = []
         ∨ ClaimTaskCommand.UserID c ∈ Task.CandidateUsers task)
      ∧ Claim taskService s1 (ClaimTaskCommand.TaskID c)
          (ClaimTaskCommand.UserID c) = (None, s').
Proof.
  unfold ClaimTaskCommand_Execute.
  destruct (decide (ClaimTaskCommand.TaskID c = "")) as [|HT]; [done|].
  destruct (decide (ClaimTaskCommand.UserID c = "")) as [|HU]; [done|].
  destruct (GetTask taskService s (ClaimTaskCommand.TaskID c))
    as [[task|err] s1] eqn:Hget; [|done].
  destruct (decide (Task.Assignee task ≠ ""
                    ∧ Task.Assignee task ≠ ClaimTaskCommand.UserID c))
    as [|Hassignee]; [done|].
  destruct (decide (0 < length (Task.CandidateUsers task)
                    ∧ ClaimTaskCommand.UserID c ∉ Task.CandidateUsers task))
    as [|Hcand]; [done|].
  destruct (Claim taskService s1 (ClaimTaskCommand.TaskID c)
              (ClaimTaskCommand.UserID c)) as [[err|] s2] eqn:Hclaim; [done|].
  intros [= <- <-]. split_and!; try done.
  exists task, s1. split_and!; try done.
  - destruct (decide (Task.Assignee task = "")) as [|Hne]; [by left|].
    right. destruct (decide (Task.Assignee task = ClaimTaskCommand.UserID c));
      [done|]. exfalso. by apply Hassignee.
  - destruct (Task.CandidateUsers task) as [|u us] eqn:Hus; [by left|].
    right.
    destruct (decide (ClaimTaskCommand.UserID c ∈ u :: us)) as [|Hnot]; [done|].
    exfalso. apply Hcand. cbn. split; [lia|done].
Qed.

(** X28: when the task has candidate users and the claiming user is not
    one of them, or when it is assigned to somebody else,
    [ClaimTaskCommand.Execute] returns an error and the state [GetTask]
    left: the service's [Claim] is not called, whatever it would do.  The
    assignee is looked at first. *)
Theorem ClaimTaskCommand_rejects (c : ClaimTaskCommand.t) (s s1 : S)
    (task : Task.t) :
  ClaimTaskCommand.TaskID c ≠ "" →
  ClaimTaskCommand.UserID c ≠ "" →
  GetTask taskService s (ClaimTaskCommand.TaskID c) = (inl task, s1) →
  (Task.Assignee task ≠ "" ∧ Task.Assignee task ≠ ClaimTaskCommand.UserID c)
  ∨ (Task.CandidateUsers task ≠ []
     ∧ ClaimTaskCommand.UserID c ∉ Task.CandidateUsers task) →
  ∃ e,
    @ClaimTaskCommand_Execute S R taskService c s = ((None, Some e), s1)
    ∧ e = if decide (Task.Assignee task ≠ ""
                     ∧ Task.Assignee task ≠ ClaimTaskCommand.UserID c)
          then errorString
                 ("task '" +:+ ClaimTaskCommand.TaskID c
                  +:+ "' is already claimed by user '"
                  +:+ Task.Assignee task +:+ "'")
          else errorString
                 ("user '" +:+ ClaimTaskCommand.UserID c
                  +:+ "' is not a candidate for task '"
                  +:+ ClaimTaskCommand.TaskID c +:+ "'").
Proof.
  intros HT HU Hget Hwhy. unfold ClaimTaskCommand_Execute.
  rewrite !decide_False by done. rewrite Hget.
  destruct (decide (Task.Assignee task ≠ ""
                    ∧ Task.Assignee task ≠ ClaimTaskCommand.UserID c))
    as [Ha|Ha]; [by eexists|].
  destruct Hwhy as [?|[Hne Hnot]]; [done|].
  rewrite decide_True; [by eexists|]. split; [|done].
  destruct (Task.CandidateUsers task); [done|cbn; lia].
Qed.

(** X29: [CompleteTaskCommand.Execute] stops at the first failure: on a
    suspended task it returns "cannot complete suspended task" and calls
    neither [SetVariables] nor [Complete]; when [SetVariables] fails it
    returns that error wrapped in "failed to set variables" and does not
    call [Complete].  [SetVariables] is called only for a non-empty map
    and a task with an execution id; without that the command goes
    straight to [Complete]. *)
Theorem CompleteTaskCommand_stops_early (c : CompleteTaskCommand.t V)
    (s s1 : S) (task : Task.t) :
  CompleteTaskCommand.TaskID c ≠ "" →
  GetTask taskService s (CompleteTaskCommand.TaskID c) = (inl task, s1) →
  let run := @CompleteTaskCommand_Execute S V R taskService runtimeService c s in
  (Task.Suspended task = true →
   run = ((None, Some (errorString ("cannot complete suspended task '"
                                    +:+ CompleteTaskCommand.TaskID c +:+ "'"))),
          s1))
  ∧ (Task.Suspended task = false →
     ∀ m, CompleteTaskCommand.Variables c = Some m → m ≠ ∅ →
          Task.ExecutionID task ≠ "" →
          ∀ err s2,
            SetVariables runtimeService s1 (Task.ExecutionID task) m
            = (Some err, s2) →
            run = ((None, Some (Errorf_w "failed to set variables: " (Some err))),
                   s2))
  ∧ (Task.Suspended task = false →
     (CompleteTaskCommand.Variables c = None
      ∨ CompleteTaskCommand.Variables c = Some ∅
      ∨ Task.ExecutionID task = "") →
     run = match Complete taskService s1 (CompleteTaskCommand.TaskID c) with
           | (Some err, s3) =>
               ((None, Some (Errorf_w "failed to complete task: " (Some err))),
                s3)
           | (None, s3) => ((None, None), s3)
           end).
Proof.
  intros HT Hget run. unfold run, CompleteTaskCommand_Execute.
  rewrite decide_False by done. rewrite Hget. split_and!.
  - by intros ->.
  - intros -> m -> Hm He err s2 Hset.
    rewrite decide_True by done. by rewrite Hset.
  - intros -> Hskip.
    assert (Hno : match CompleteTaskCommand.Variables c with
                  | Some m =>
                      if decide (m ≠ ∅ ∧ Task.ExecutionID task ≠ "")
                      then SetVariables runtimeService s1
                             (Task.ExecutionID task) m
                      else (None, s1)
                  | None => (None, s1)
                  end = (None, s1)).
    { destruct (CompleteTaskCommand.Variables c) as [m|]; [|done].
      rewrite decide_False; [done|]. intros [Hm He].
      destruct Hskip as [?|[[= ->]|?]]; done. }
    rewrite Hno.
    by destruct (Complete taskService s1 (CompleteTaskCommand.TaskID c))
      as [[err|] s3].
Qed.

End TaskCommandExtras.

Section StartCommandExtras.

Context {V : Type}.
Import Commands Repository.
Local Abbreviation heap := (gmap positive (gmap string V)).

(** X30: [StartProcessInstanceCommand.Execute] called with a definition
    id and a business key starts the instance through
    [StartProcessInstanceByKeyWithBusinessKey] on the definition's key,
    that is on whatever definition of that key the repository yields as
    the latest, not on the definition whose id was given; and because the
    error of the runtime call is assigned to a shadowed variable, a
    failure of that call is not reported: when the latest definition is
    suspended the command returns a nil instance and a nil error and
    nothing is started. *)
Theorem Start_by_id_with_business_key (h : heap)
    (rt : Runtime.runtimeServiceImpl) (repo : repositoryServiceImpl)
    (order_c order_r : list ProcessDefinition.t)
    (c : StartProcessInstanceCommand.t) (uuid : string) (now : Z)
    (d latest : ProcessDefinition.t) :
  StartProcessInstanceCommand.ProcessDefinitionID c ≠ "" →
  StartProcessInstanceCommand.BusinessKey c ≠ "" →
  definitions repo !! StartProcessInstanceCommand.ProcessDefinitionID c = Some d →
  ProcessDefinition.Suspended d = false →
  GetProcessDefinitionByKey_ranging order_r (ProcessDefinition.Key d)
  = inl latest →
  let run := StartProcessInstanceCommand_Execute h rt repo order_c order_r c
               uuid now in
  if ProcessDefinition.Suspended latest
  then run = ((None, None), h, rt)
  else ∃ P h1 rt1,
         run = ((Some P, None), h1, rt1)
         ∧ ProcessInstance.ProcessDefinitionID P = ProcessDefinition.ID latest
         ∧ ProcessInstance.BusinessKey P
           = StartProcessInstanceCommand.BusinessKey c
         ∧ Runtime.GetProcessInstance rt1 uuid = inl P.
Proof.
  intros Hid Hbk Hd Hsus Hlatest run.
  unfold run, StartProcessInstanceCommand_Execute.
  rewrite decide_True by done. unfold GetProcessDefinition. rewrite Hd, Hsus.
  rewrite decide_True by done.
  unfold Runtime.StartProcessInstanceByKeyWithBusinessKey. rewrite Hlatest.
  unfold Runtime.startProcessInstance.
  destruct (ProcessDefinition.Suspended latest); [reflexivity|].
  destruct (StartProcessInstanceCommand.Variables c) as [a|].
  - destruct (make h) as [l h0]. eexists _, _, _. split; [reflexivity|].
    split_and!; try done. unfold Runtime.GetProcessInstance. cbn.
    by rewrite lookup_insert_eq.
  - eexists _, _, _. split; [reflexivity|].
    split_and!; try done. unfold Runtime.GetProcessInstance. cbn.
    by rewrite lookup_insert_eq.
Qed.

End StartCommandExtras.

(** ** Concrete runs *)

Module Runs.

Import Props TaskService.

(** A task with a comment, an attachment and a task variable, set up
    through the service's own methods. *)
Definition furnished : gmap positive (gmap string Z) * taskServiceImpl Z unit unit :=
  calls (∅, empty_service)
    [OpSaveTask (NewTask "t1" "u-0" 100) "u-1";
     OpAddComment "t1" "please review" "c-1" 101;
     OpCreateAttachment "t1" "text/plain" "notes.txt" "" [] "a-1" 102;
     OpSetTaskVariable "t1" "approved" 1%Z].

(** C1 (what the code does): completing the furnished task succeeds and
    removes the task record, and a second completion returns "task not
    found"; but the task's comments, attachments and variables are still
    in the store afterwards, whereas [DeleteTask] on the same state removes
    all four. *)
Theorem Complete_leaves_orphans :
  let '(h, s) := furnished in
  let '(err, h1, s1) := Complete h s "t1" in
  err = None
  ∧ tasks s1 !! "t1" = None
  ∧ fst (fst (Complete h1 s1 "t1")) = Some (task_not_found "t1")
  ∧ comments s1 !! "t1" = Some [Comment.mk "c-1" "t1" "" "please review" 101]
  ∧ attachments s1 !! "t1"
    = Some [Attachment.mk "a-1" "notes.txt" "" "text/plain" "t1" "" "" [] 102]
  ∧ (∃ l, variables s1 !! "t1" = Some l
          ∧ h1 !! l = Some {["approved" := 1%Z]})
  ∧ (let s2 := snd (DeleteTask s "t1") in
     tasks s2 !! "t1" = None ∧ comments s2 !! "t1" = None
     ∧ attachments s2 !! "t1" = None ∧ variables s2 !! "t1" = None).
Proof.
  vm_compute. split_and!; try reflexivity.
  eexists. split; reflexivity.
Qed.


(** A run of calls that keep the invariant: save, claim, re-claim by the
    same user, unclaim, edit candidates, complete. *)
Definition careful_calls : list (@Op Z) :=
  [OpSaveTask (NewTask "t1" "u-0" 100) "u-1";
   OpSaveTask (NewTask "" "u-2" 100) "u-3";
   OpClaim "t1" "alice" 110;
   OpClaim "t1" "bob" 111;
   OpClaim "t1" "alice" 112;
   OpAddCandidateUser "u-2" "carol";
   OpUnclaim "t1";
   OpClaim "u-2" "carol" 113;
   OpSetPriority "t1" 9;
   OpCompleteWithVariables "t1" None].


(** The task store after alice has claimed "t1". *)
Definition claimed_by_alice : taskServiceImpl Z unit unit :=
  snd (calls (∅ : gmap positive (gmap string Z), empty_service)
         [OpSaveTask (NewTask "t1" "u-0" 100) "u-1";
          OpClaim "t1" "alice" 110]).

Lemma Claim_by_other_rejected_witness :
  Claim claimed_by_alice "t1" "bob" 120
  = (Some (already_claimed "alice"), claimed_by_alice)
  ∧ ∃ k', tasks (snd (Claim claimed_by_alice "t1" "bob" 120)) !! "t1" = Some k'
          ∧ Task.Assignee k' = "alice"
          ∧ Task.ClaimTime k' = Some 110%Z.
Proof.
  apply (Claim_by_other_rejected claimed_by_alice "t1"
           (Task.with_ClaimTime
              (Task.with_Assignee (NewTask "t1" "u-0" 100) "alice")
              (Some 110%Z))
           "alice" "bob" 120).
  - vm_compute. reflexivity.
  - reflexivity.
  - discriminate.
  - discriminate.
Defined.

(** A runtime store with one started instance "e1", a task "t1" waiting on
    its root execution, and the caller's variable map at location 1. *)
Definition approval_form : gmap positive (gmap string Z) :=
  {[1%positive := {["approved" := 1%Z; "amount" := 250%Z]}]}.

Definition order_definition : ProcessDefinition.t :=
  ProcessDefinition.mk "order:1" "order" "Order" "" 1 "" "d-1" "order.json"
    "" false "" false false.

Definition waiting_task : Task.t :=
  Task.mk "t1" "Approve" "" 5 "" "" None "" "" "" "e1" "order:1" "e1"
    "approve" 100 None "" false [] [].

Definition waiting : gmap positive (gmap string Z) * taskServiceImpl Z unit unit :=
  let '(_, h, rt) :=
    Runtime.startProcessInstance approval_form (Runtime.NewRuntimeService false)
      order_definition "" None "e1" 90 in
  (h, snd (SaveTask (with_runtimeService empty_service rt) waiting_task "u-1")).

Lemma Complete_propagates_variables_witness :
  ∃ h1 s1,
    CompleteWithVariables (fst waiting) (snd waiting) "t1" (Some 1%positive)
    = (None, h1, s1)
    ∧ tasks s1 !! "t1" = None
    ∧ (∀ vars, CompleteWithVariables h1 s1 "t1" vars
               = (Some (task_not_found "t1"), h1, s1))
    ∧ GetTaskVariables h1 s1 "t1" = (inr (task_not_found "t1"), h1)
    ∧ ∃ l h2 result,
        Runtime.GetVariables h1 (runtimeService s1) "e1" = (inl l, h2)
        ∧ h2 !! l = Some result
        ∧ result
          = {["approved" := 1%Z; "amount" := 250%Z]}
            ∪ scope_entries (fst waiting)
                (Runtime.variables (runtimeService (snd waiting))) "e1"
        ∧ ∀ key v,
            ({["approved" := 1%Z; "amount" := 250%Z]} : gmap string Z) !! key
            = Some v →
            result !! key = Some v.
Proof.
  apply (Complete_propagates_variables (fst waiting) (snd waiting) "t1"
           waiting_task
           (Execution.mk "e1" "e1" "" "" true false true false false "")
           1%positive {["approved" := 1%Z; "amount" := 250%Z]}).
  - vm_compute. reflexivity.
  - discriminate.
  - vm_compute. reflexivity.
  - vm_compute. reflexivity.
Defined.

(** A downstream that fails on every call and counts its calls in the
    world. *)
Definition always_failing : Engine.Exec Z nat unit :=
  λ _ _ st,
    (Ret (None, Some (errorString "connection refused")),
     Engine.mkState (S (Engine.world st)) (Engine.logs st) (Engine.trace st)).

Definition noop : Engine.Command Z nat unit :=
  Engine.mkCommand "*commands.NoopCommand" (λ _ _ w, ((None, None), w)).

Definition idle : Engine.State Z nat unit := Engine.mkState 0 [] [].

(** C8 (counterexample): with the retry bound -1 the loop body never runs:
    the downstream is not called at all (its counter stays 0) and the
    error returned wraps nothing. *)
Lemma retry_negative_bound_never_calls :
  Engine.RetryInterceptor_Execute (-1) (Some always_failing)
    Engine.Background noop idle
  = (Ret (None, Some (errorString "command failed after -1 retries: %!w(<nil>)")),
     Engine.mkState 0 [] [Engine.Enter Engine.KRetry]).
Proof. vm_compute. reflexivity. Qed.

Lemma retry_nonretryable_once_witness :
  ∃ r e st1,
    always_failing Engine.Background noop (entered Engine.KRetry idle)
    = (Ret (r, Some e), st1)
    ∧ Engine.RetryInterceptor_Execute 3 (Some always_failing)
        Engine.Background noop idle
      = (Ret (None,
              Some (wrapError (Engine.retries_message 3 +:+ Error e) e)), st1)
    ∧ Engine.world st1 = S (Engine.world idle)
    ∧ errors_Is (wrapError (Engine.retries_message 3 +:+ Error e) e) e = true.
Proof.
  apply (retry_nonretryable_once 3 always_failing (λ w, w)
           Engine.Background noop idle).
  - lia.
  - intros ctx' cmd' st'. eexists _, _, _. split_and!; reflexivity.
Defined.

(** The message of the error of the run above. *)
Example retry_exhausted_message :
  Error (wrapError (Engine.retries_message 3 +:+ "connection refused")
           (errorString "connection refused"))
  = "command failed after 3 retries: connection refused".
Proof. vm_compute. reflexivity. Qed.

Section PipelineRuns.

Import Engine.

(** A command that has done half its work when it fails: it returns a
    value beside its error. *)
Definition half_done : Command Z nat unit :=
  mkCommand "*commands.HalfDoneCommand"
    (λ _ _ w, ((Some 7%Z, Some (errorString "disk full")), S w)).

(** The caller's context with a command context published in it. *)
Definition prepared : Context Z unit :=
  WithValue Background commandContextKey (NewCommandContext Background tt).

(** C9 (counterexample): the invoker alone, and the invoker behind the
    logging interceptor, return the value and the error of the command;
    with the transaction interceptor in front the value is gone.  Through
    the chain of the claim the command's direct result is not what the
    executor returns either. *)
Lemma Transaction_drops_failed_result :
  fst (CommandExecutor_Execute (mkCommandExecutor [CommandInvoker])
         prepared (Some half_done) idle)
  = Ret (Some 7%Z, Some (errorString "disk full"))
  ∧ fst (CommandExecutor_Execute
           (mkCommandExecutor [LoggingInterceptor; CommandInvoker])
           prepared (Some half_done) idle)
    = Ret (Some 7%Z, Some (errorString "disk full"))
  ∧ fst (CommandExecutor_Execute
           (mkCommandExecutor [TransactionInterceptor; CommandInvoker])
           prepared (Some half_done) idle)
    = Ret (None, Some (errorString "disk full"))
  ∧ fst (Execute half_done (published tt Background)
           (fresh_context tt Background) 0)
    = (Some 7%Z, Some (errorString "disk full"))
  ∧ fst (CommandExecutor_Execute
           (mkCommandExecutor [LoggingInterceptor; TransactionInterceptor;
                               ContextInterceptor tt; CommandInvoker])
           Background (Some half_done) idle)
    = Ret (None, Some (errorString "disk full")).
Proof. vm_compute. split_and!; reflexivity. Qed.

End PipelineRuns.

End Runs.

(** ** Further runs

    The stores below are built through the services' own methods; each
    lemma runs one of the general properties above on them. *)

Module MoreRuns.

Section TaskRuns.

Import TaskService Props.

(** A task service holding the one task "t1", saved fresh from [NewTask]. *)
Definition open_task : Task.t := NewTask "t1" "u-0" 100.

Definition desk : taskServiceImpl Z unit unit :=
  snd (SaveTask empty_service open_task "u-1").

(** The same with a comment, two attachments and a task variable. *)
Definition busy_run
    : gmap positive (gmap string Z) * taskServiceImpl Z unit unit :=
  calls (∅, desk)
    [OpAddComment "t1" "please review" "c-1" 101;
     OpCreateAttachment "t1" "text/plain" "notes.txt" "" [] "a-1" 102;
     OpCreateAttachment "t1" "text/plain" "more.txt" "" [] "a-2" 103;
     OpSetTaskVariable "t1" "approved" 1%Z].

Definition busy_heap : gmap positive (gmap string Z) := fst busy_run.

Definition busy_desk : taskServiceImpl Z unit unit := snd busy_run.

(** A task waiting on an execution the runtime store does not hold. *)
Definition stray_task : Task.t :=
  Task.mk "t2" "Approve" "" 5 "" "" None "" "" "" "e9" "order:1" "e9"
    "approve" 100 None "" false [] [].

Definition stray_desk : taskServiceImpl Z unit unit :=
  snd (SaveTask empty_service stray_task "u-1").

Definition no_maps : gmap positive (gmap string Z) := ∅.

Lemma AddCandidate_is_idempotent_witness :
  (∃ k1 s1,
     AddCandidateUser desk "t1" "carol" = (None, s1)
     ∧ tasks s1 !! "t1" = Some k1
     ∧ "carol" ∈ Task.CandidateUsers k1
     ∧ (∀ y, occurrences y (Task.CandidateUsers k1)
             = if decide ("carol" = y ∧ "carol" ∉ Task.CandidateUsers
                 open_task) then 1
               else occurrences y (Task.CandidateUsers open_task))
     ∧ AddCandidateUser s1 "t1" "carol" = (None, s1))
  ∧ (∃ k1 s1,
       AddCandidateGroup desk "t1" "carol" = (None, s1)
       ∧ tasks s1 !! "t1" = Some k1
       ∧ "carol" ∈ Task.CandidateGroups k1
       ∧ (∀ y, occurrences y (Task.CandidateGroups k1)
               = if decide ("carol" = y ∧ "carol" ∉ Task.CandidateGroups
                   open_task) then 1
                 else occurrences y (Task.CandidateGroups open_task))
       ∧ AddCandidateGroup s1 "t1" "carol" = (None, s1)).
Proof.
  apply (AddCandidate_is_idempotent desk "t1" "carol" open_task).
  vm_compute. reflexivity.
Defined.

(** A task saved with a list of candidate users that names carol twice. *)
Definition crowded_task : Task.t :=
  Task.mk "t3" "Review" "" 5 "" "" None "" "" "" "" "" "" "review" 100 None ""
    false ["alice"; "carol"; "bob"; "carol"] ["staff"].

Definition crowded_desk : taskServiceImpl Z unit unit :=
  snd (SaveTask empty_service crowded_task "u-1").

Lemma DeleteCandidateUser_removes_one_witness :
  (∃ k1 s1,
     DeleteCandidateUser crowded_desk "t3" "carol" = (None, s1)
     ∧ tasks s1 !! "t3" = Some k1
     ∧ Task.CandidateUsers k1 = ["alice"; "bob"; "carol"]
     ∧ occurrences "carol" (Task.CandidateUsers k1) = 1
     ∧ occurrences "alice" (Task.CandidateUsers k1) = 1)
  ∧ (∃ s2 s3 k3,
       DeleteCandidateUser crowded_desk "t3" "dave" = (None, crowded_desk)
       ∧ AddCandidateUser crowded_desk "t3" "dave" = (None, s2)
       ∧ DeleteCandidateUser s2 "t3" "dave" = (None, s3)
       ∧ tasks s3 !! "t3" = Some k3
       ∧ Task.CandidateUsers k3 = ["alice"; "carol"; "bob"; "carol"]).
Proof.
  split.
  - destruct (DeleteCandidateUser_removes_one crowded_desk "t3" "carol"
                crowded_task)
      as (k1 & s1 & Hdel & Hk1 & Hocc & Hfirst & _).
    { vm_compute. reflexivity. }
    exists k1, s1. split_and!; [done|done| |by rewrite Hocc..].
    apply (Hfirst ["alice"] ["bob"; "carol"]); [reflexivity|].
    intros Hin. apply list_elem_of_singleton in Hin. discriminate Hin.
  - destruct (DeleteCandidateUser_removes_one crowded_desk "t3" "dave"
                crowded_task)
      as (k1 & s1 & Hdel & _ & _ & _ & Habsent).
    { vm_compute. reflexivity. }
    destruct Habsent as (-> & s2 & s3 & k3 & Hadd & Hdel2 & Hk3 & Hus).
    { cbn. intros Hin. repeat (apply elem_of_cons in Hin as [Hin|Hin];
        [discriminate Hin|]). by apply elem_of_nil in Hin. }
    exists s2, s3, k3. split_and!; done.
Defined.

Lemma Claim_reserves_task_witness :
  ∃ s1,
    Claim desk "t1" "alice" 110%Z = (None, s1)
    ∧ tasks s1 !! "t1"
      = Some (Task.with_ClaimTime (Task.with_Assignee open_task "alice") (Some
          110%Z))
    ∧ (∀ u2 t2, u2 ≠ "alice" →
         Claim s1 "t1" u2 t2 = (Some (already_claimed "alice"), s1))
    ∧ (∀ t2, Claim s1 "t1" "alice" t2 = Claim desk "t1" "alice" t2).
Proof.
  apply (Claim_reserves_task desk "t1" "alice" open_task 110).
  - vm_compute. reflexivity.
  - reflexivity.
  - discriminate.
Defined.

Lemma Unclaim_undoes_Claim_witness :
  Unclaim (snd (Claim desk "t1" "alice" 110%Z)) "t1" = (None, desk)
  ∧ (∃ s0, Claim desk "t1" "" 110%Z = (None, s0)
           ∧ tasks s0 !! "t1"
             = Some (Task.with_ClaimTime open_task (Some 110%Z))
           ∧ ∀ u t, fst (Claim s0 "t1" u t) = None).
Proof.
  apply (Unclaim_undoes_Claim desk "t1" "alice" open_task 110).
  - vm_compute. reflexivity.
  - reflexivity.
  - reflexivity.
Defined.

Lemma DeleteTask_cascades_witness :
  ∃ s1,
    DeleteTask busy_desk "t1" = (None, s1)
    ∧ tasks s1 !! "t1" = None ∧ comments s1 !! "t1" = None
    ∧ attachments s1 !! "t1" = None ∧ variables s1 !! "t1" = None
    ∧ (∀ id, id ≠ "t1" →
         tasks s1 !! id = tasks busy_desk !! id
         ∧ comments s1 !! id = comments busy_desk !! id
         ∧ attachments s1 !! id = attachments busy_desk !! id
         ∧ variables s1 !! id = variables busy_desk !! id)
    ∧ runtimeService s1 = runtimeService busy_desk
    ∧ DeleteTask s1 "t1" = (Some (task_not_found "t1"), s1).
Proof.
  apply (DeleteTask_cascades busy_desk "t1" open_task).
  vm_compute. reflexivity.
Defined.

Lemma absent_task_is_reported_witness :
  let nf := task_not_found "t9" in
  DeleteTask busy_desk "t9" = (Some nf, busy_desk)
  ∧ (∀ u now, Claim busy_desk "t9" u now = (Some nf, busy_desk))
  ∧ Unclaim busy_desk "t9" = (Some nf, busy_desk)
  ∧ (∀ vars, CompleteWithVariables busy_heap busy_desk "t9" vars = (Some nf,
      busy_heap, busy_desk))
  ∧ Complete busy_heap busy_desk "t9" = (Some nf, busy_heap, busy_desk)
  ∧ (∀ u, SetAssignee busy_desk "t9" u = (Some nf, busy_desk))
  ∧ (∀ u, SetOwner busy_desk "t9" u = (Some nf, busy_desk))
  ∧ (∀ u, AddCandidateUser busy_desk "t9" u = (Some nf, busy_desk))
  ∧ (∀ g, AddCandidateGroup busy_desk "t9" g = (Some nf, busy_desk))
  ∧ (∀ u, DeleteCandidateUser busy_desk "t9" u = (Some nf, busy_desk))
  ∧ (∀ g, DeleteCandidateGroup busy_desk "t9" g = (Some nf, busy_desk))
  ∧ (∀ p, SetPriority busy_desk "t9" p = (Some nf, busy_desk))
  ∧ (∀ d, SetDueDate busy_desk "t9" d = (Some nf, busy_desk))
  ∧ GetTaskVariables busy_heap busy_desk "t9" = (inr nf, busy_heap)
  ∧ (∀ n, GetTaskVariable busy_heap busy_desk "t9" n = inr nf)
  ∧ (∀ n v, SetTaskVariable busy_heap busy_desk "t9" n v = (Some nf, busy_heap,
      busy_desk))
  ∧ (∀ vars, SetTaskVariables busy_heap busy_desk "t9" vars = (Some nf,
      busy_heap, busy_desk))
  ∧ (∀ n, RemoveTaskVariable busy_heap busy_desk "t9" n = (Some nf, busy_heap))
  ∧ (∀ m u now, AddComment busy_desk "t9" m u now = (inr nf, busy_desk))
  ∧ GetTaskComments busy_desk "t9" = inr nf
  ∧ (∀ ty n d c u now, CreateAttachment busy_desk "t9" ty n d c u now = (inr
      nf, busy_desk))
  ∧ GetTaskAttachments busy_desk "t9" = inr nf.
Proof.
  apply (absent_task_is_reported busy_heap busy_desk "t9").
  vm_compute. reflexivity.
Defined.

Lemma SetTaskVariable_then_read_witness :
  ∃ h1 s1,
    SetTaskVariable busy_heap busy_desk "t1" "amount" 250%Z = (None, h1, s1)
    ∧ tasks s1 = tasks busy_desk
    ∧ GetTaskVariable h1 s1 "t1" "amount" = inl (Some 250%Z)
    ∧ (∀ n, n ≠ "amount" →
         GetTaskVariable h1 s1 "t1" n = GetTaskVariable busy_heap busy_desk
             "t1" n)
    ∧ ∃ l h2,
        GetTaskVariables h1 s1 "t1" = (inl l, h2)
        ∧ h1 !! l = None
        ∧ variables s1 !! "t1" ≠ Some l
        ∧ h2 !! l
          = Some (<["amount" := 250%Z]>
                    (scope_entries busy_heap (variables busy_desk) "t1")).
Proof.
  apply (SetTaskVariable_then_read busy_heap busy_desk "t1"
           "amount" 250%Z open_task).
  vm_compute. reflexivity.
Defined.

Lemma AddComment_appends_witness :
  (∃ cs s1,
     GetTaskComments busy_desk "t1" = inl cs
     ∧ AddComment busy_desk "t1" "looks fine" "c-2" 104%Z
       = (inl (Comment.mk "c-2" "t1" "" "looks fine" 104%Z), s1)
     ∧ GetTaskComments s1 "t1"
       = inl (cs ++ [Comment.mk "c-2" "t1" "" "looks fine" 104%Z])
     ∧ GetTaskAttachments s1 "t1" = GetTaskAttachments busy_desk "t1"
     ∧ ∀ id, id ≠ "t1" → GetTaskComments s1 id = GetTaskComments busy_desk id)
  ∧ (∃ ats s1 a,
       GetTaskAttachments busy_desk "t1" = inl ats
       ∧ CreateAttachment busy_desk "t1" "text/plain" "last.txt" "" [] "c-2"
           104%Z = (inl a, s1)
       ∧ Attachment.ProcessInstanceID a = Task.ProcessInstanceID open_task
       ∧ Attachment.ID a = "c-2" ∧ Attachment.TaskID a = "t1"
       ∧ GetTaskAttachments s1 "t1" = inl (ats ++ [a])
       ∧ GetTaskComments s1 "t1" = GetTaskComments busy_desk "t1"
       ∧ ∀ id, id ≠ "t1" → GetTaskAttachments s1 id = GetTaskAttachments
           busy_desk id).
Proof.
  apply (AddComment_appends busy_desk "t1" "looks fine" "c-2" 104
           open_task "text/plain" "last.txt" "" []).
  vm_compute. reflexivity.
Defined.

Lemma Complete_fails_on_missing_execution_witness :
  let cause := Runtime.execution_not_found (Task.ExecutionID stray_task) in
  let e := Errorf_w (match (@None positive) with
                     | Some _ => "failed to set variables: "
                     | None => "failed to signal execution: "
                     end) (Some cause) in
  CompleteWithVariables no_maps stray_desk "t2" (@None positive) = (Some e,
      no_maps, stray_desk)
  ∧ errors_Is e cause = true
  ∧ tasks stray_desk !! "t2" = Some stray_task.
Proof.
  apply (Complete_fails_on_missing_execution no_maps stray_desk "t2"
           stray_task None).
  - vm_compute. reflexivity.
  - discriminate.
  - vm_compute. reflexivity.
Defined.

Lemma Complete_without_execution_drops_variables_witness :
  CompleteWithVariables busy_heap busy_desk "t1" (Some 1%positive)
  = (None, busy_heap, with_tasks busy_desk (delete "t1" (tasks busy_desk)))
  ∧ Complete busy_heap busy_desk "t1" = CompleteWithVariables busy_heap
      busy_desk "t1" (Some 1%positive).
Proof.
  apply (Complete_without_execution_drops_variables busy_heap busy_desk
           "t1" open_task (Some 1%positive)).
  - vm_compute. reflexivity.
  - reflexivity.
Defined.

(** Three tasks with attachments: two on "t1", one each on "t2" and "t3". *)
Definition archive : taskServiceImpl Z unit unit :=
  snd (calls (∅ : gmap positive (gmap string Z), empty_service)
         [OpSaveTask (NewTask "t1" "u-0" 100) "u-1";
          OpSaveTask (NewTask "t2" "u-0" 100) "u-1";
          OpSaveTask (NewTask "t3" "u-0" 100) "u-1";
          OpCreateAttachment "t1" "text/plain" "notes.txt" "" [] "a-1" 102;
          OpCreateAttachment "t2" "text/plain" "plan.txt" "" [] "a-3" 103;
          OpCreateAttachment "t1" "text/plain" "more.txt" "" [] "a-2" 104;
          OpCreateAttachment "t3" "text/plain" "bill.txt" "" [] "a-4" 105]).

Definition notes : Attachment.t :=
  Attachment.mk "a-1" "notes.txt" "" "text/plain" "t1" "" "" [] 102.
Definition more : Attachment.t :=
  Attachment.mk "a-2" "more.txt" "" "text/plain" "t1" "" "" [] 104.
Definition plan : Attachment.t :=
  Attachment.mk "a-3" "plan.txt" "" "text/plain" "t2" "" "" [] 103.
Definition bill : Attachment.t :=
  Attachment.mk "a-4" "bill.txt" "" "text/plain" "t3" "" "" [] 105.

(** Two orders in which the loop may visit the three lists. *)
Definition forwards : list (string * list Attachment.t) :=
  [("t1", [notes; more]); ("t2", [plan]); ("t3", [bill])].

Definition backwards : list (string * list Attachment.t) :=
  [("t3", [bill]); ("t2", [plan]); ("t1", [notes; more])].

Lemma archive_attachments :
  map_to_list (attachments archive)
  = [("t3", [bill]); ("t1", [notes; more]); ("t2", [plan])].
Proof. vm_compute. reflexivity. Qed.

Lemma forwards_visits_all : forwards ≡ₚ map_to_list (attachments archive).
Proof.
  rewrite archive_attachments. unfold forwards.
  symmetry. apply (Permutation_cons_append [_; _]).
Qed.

Lemma backwards_visits_all : backwards ≡ₚ map_to_list (attachments archive).
Proof.
  rewrite archive_attachments. unfold backwards.
  apply perm_skip, perm_swap.
Qed.

Lemma archive_lists (id : string) (a : list Attachment.t) :
  attachments archive !! id = Some a →
  (id = "t1" ∧ a = [notes; more]) ∨ (id = "t2" ∧ a = [plan])
  ∨ (id = "t3" ∧ a = [bill]).
Proof.
  intros Hl. apply elem_of_map_to_list in Hl.
  rewrite archive_attachments in Hl.
  repeat (apply elem_of_cons in Hl as [[= -> ->]|Hl]; [tauto|]).
  by apply elem_of_nil in Hl.
Qed.

Lemma DeleteAttachment_any_order_witness :
  DeleteAttachment_ranging forwards archive "a-9"
  = (Some (Errorf_s "attachment not found: " "a-9"), archive)
  ∧ DeleteAttachment_ranging backwards archive "a-9"
    = (Some (Errorf_s "attachment not found: " "a-9"), archive)
  ∧ DeleteAttachment_ranging forwards archive "a-2"
    = (None,
       with_attachments archive (<["t1" := [notes]]> (attachments archive)))
  ∧ DeleteAttachment_ranging backwards archive "a-2"
    = (None,
       with_attachments archive (<["t1" := [notes]]> (attachments archive)))
  ∧ attachments (snd (DeleteAttachment_ranging backwards archive "a-2")) !! "t2"
    = Some [plan]
  ∧ attachments (snd (DeleteAttachment_ranging backwards archive "a-2")) !! "t3"
    = Some [bill].
Proof.
  assert (Hmiss : ∀ id a att, attachments archive !! id = Some a → att ∈ a →
                              Attachment.ID att ≠ "a-9").
  { intros id a att Hl Hin.
    destruct (archive_lists id a Hl) as [[-> ->] | [[-> ->] | [-> ->]]];
      repeat (apply elem_of_cons in Hin as [->|Hin]; [discriminate|]);
      by apply elem_of_nil in Hin. }
  assert (Hone : ∀ id a att, attachments archive !! id = Some a → id ≠ "t1" →
                             att ∈ a → Attachment.ID att ≠ "a-2").
  { intros id a att Hl Hne Hin.
    destruct (archive_lists id a Hl) as [[-> ->] | [[-> ->] | [-> ->]]];
      [done| |];
      repeat (apply elem_of_cons in Hin as [->|Hin]; [discriminate|]);
      by apply elem_of_nil in Hin. }
  assert (Hhit : ∃ att, att ∈ [notes; more] ∧ Attachment.ID att = "a-2").
  { exists more. split; [|reflexivity]. apply elem_of_cons. right. left. }
  assert (Ht1 : attachments archive !! "t1" = Some [notes; more]).
  { vm_compute. reflexivity. }
  destruct (DeleteAttachment_any_order archive "a-9" forwards
              forwards_visits_all) as [Hf9 _].
  destruct (DeleteAttachment_any_order archive "a-9" backwards
              backwards_visits_all) as [Hb9 _].
  destruct (DeleteAttachment_any_order archive "a-2" forwards
              forwards_visits_all) as [_ Hf2].
  destruct (DeleteAttachment_any_order archive "a-2" backwards
              backwards_visits_all) as [_ Hb2].
  destruct (Hf2 "t1" [notes; more] Ht1 Hhit Hone) as (rf & Hrf & _ & _ & Hdf).
  destruct (Hb2 "t1" [notes; more] Ht1 Hhit Hone) as (rb & Hrb & _ & _ & Hdb).
  assert (Hr : remove_attachment [notes; more] "a-2" = Some [notes]).
  { vm_compute. reflexivity. }
  rewrite Hr in Hrf, Hrb. injection Hrf as <-. injection Hrb as <-.
  split_and!.
  - by apply Hf9.
  - by apply Hb9.
  - exact Hdf.
  - exact Hdb.
  - rewrite Hdb. vm_compute. reflexivity.
  - rewrite Hdb. vm_compute. reflexivity.
Defined.


End TaskRuns.


Section RuntimeRuns.

Import Runtime.

Definition order_v1 : ProcessDefinition.t :=
  ProcessDefinition.mk "order:1" "order" "Order" "" 1 "" "d-1" "order.json"
    "" false "" false false.

(** The caller's variable map, at location 1 of the heap. *)
Definition form : gmap positive (gmap string Z) :=
  {[1%positive := {["approved" := 1%Z; "amount" := 250%Z]}]}.

(** The runtime store after instance "e1" was started with the form. *)
Definition started_run
    : (ProcessInstance.t + error) * gmap positive (gmap string Z)
      * runtimeServiceImpl :=
  startProcessInstance form (NewRuntimeService false) order_v1 ""
    (Some 1%positive) "e1" 90.

Definition running_heap : gmap positive (gmap string Z) :=
  snd (fst started_run).

Definition running : runtimeServiceImpl := snd started_run.

Definition root_execution : Execution.t :=
  Execution.mk "e1" "e1" "" "" true false true false false "".

Definition order_instance : ProcessInstance.t :=
  ProcessInstance.mk "e1" "order:1" "order" "Order" "" 90 None "" false ""
    "e1" "".

Lemma SetVariable_then_GetVariable_witness :
  ∃ h1 s1,
    SetVariable running_heap running "e1" "approved" 0%Z = (None, h1, s1)
    ∧ executions s1 = executions running
    ∧ processInstances s1 = processInstances running
    ∧ GetVariable h1 s1 "e1" "approved" = inl (Some 0%Z)
    ∧ (∀ n, n ≠ "approved" →
         GetVariable h1 s1 "e1" n = GetVariable running_heap running "e1" n)
    ∧ ∃ h2,
        RemoveVariable h1 s1 "e1" "approved" = (None, h2)
        ∧ GetVariable h2 s1 "e1" "approved" = inl None
        ∧ ∀ n, n ≠ "approved" →
            GetVariable h2 s1 "e1" n = GetVariable running_heap running "e1" n.
Proof.
  apply (SetVariable_then_GetVariable running_heap running "e1"
           "approved" 0%Z root_execution).
  vm_compute. reflexivity.
Defined.

Lemma SetVariables_merges_witness :
  (∃ h1 s1,
     SetVariables running_heap running "e1" (Some 1%positive) = (None, h1, s1)
     ∧ ∀ n, GetVariable h1 s1 "e1" n
            = inl (match entries running_heap (Some 1%positive) !! n with
                   | Some v => Some v
                   | None => scope_entries running_heap (variables running)
                       "e1" !! n
                   end))
  ∧ match (Some 1%positive) with
    | Some a =>
        SignalWithVariables running_heap running "e1" (Some a)
        = SetVariables running_heap running "e1" (Some a)
    | None => SignalWithVariables running_heap running "e1" None = (None,
        running_heap, running)
    end
  ∧ Signal running_heap running "e1" = (None, running_heap, running).
Proof.
  apply (SetVariables_merges running_heap running "e1"
           (Some 1%positive) root_execution).
  vm_compute. reflexivity.
Defined.

Lemma GetVariables_returns_copy_witness :
  ∃ l h1,
    GetVariables running_heap running "e1" = (inl l, h1)
    ∧ running_heap !! l = None
    ∧ variables running !! "e1" ≠ Some l
    ∧ h1 = <[l := scope_entries running_heap (variables running) "e1"]>
        running_heap
    ∧ ∀ m n, GetVariable (<[l := m]> h1) running "e1" n
             = GetVariable running_heap running "e1" n.
Proof.
  apply (GetVariables_returns_copy running_heap running "e1"
           root_execution).
  - vm_compute. reflexivity.
  - intros l0 Hl0. vm_compute in Hl0. injection Hl0 as <-.
    vm_compute. by eexists.
Defined.

Lemma Suspend_then_Activate_witness :
  ∃ s1,
    SuspendProcessInstance running "e1" = (None, s1)
    ∧ GetProcessInstance s1 "e1"
      = inl (ProcessInstance.with_Suspended order_instance true)
    ∧ (∀ id, id ≠ "e1" →
         processInstances s1 !! id = processInstances running !! id)
    ∧ executions s1 = executions running
    ∧ variables s1 = variables running
    ∧ SuspendProcessInstance s1 "e1" = (None, s1)
    ∧ (ProcessInstance.Suspended order_instance = false →
       ActivateProcessInstance s1 "e1" = (None, running)).
Proof.
  apply (Suspend_then_Activate running "e1" order_instance).
  vm_compute. reflexivity.
Defined.

Lemma Delete_undoes_start_witness :
  ∃ P h1 s1,
    startProcessInstance running_heap running order_v1 "bk-7" (Some 1%positive)
        "e2" 95%Z = (inl P, h1, s1)
    ∧ GetProcessInstance s1 "e2" = inl P
    ∧ DeleteProcessInstance s1 "e2" "cancelled" = (None, running).
Proof.
  apply (Delete_undoes_start running_heap running order_v1 "bk-7"
           (Some 1%positive) "e2" "cancelled" 95%Z).
  - reflexivity.
  - vm_compute. reflexivity.
  - vm_compute. reflexivity.
  - vm_compute. reflexivity.
  - intros id x Hx. apply elem_of_map_to_list in Hx.
    replace (map_to_list (executions running))
      with [("e1", root_execution)] in Hx by (vm_compute; reflexivity).
    apply list_elem_of_singleton in Hx. injection Hx as -> ->. discriminate.
Defined.


End RuntimeRuns.


Section RepositoryRuns.

Import Repository.

Definition order_v2 : ProcessDefinition.t :=
  ProcessDefinition.mk "order:2" "order" "Order" "" 2 "" "d-2" "order.json"
    "" false "" false false.

Definition invoice_v1 : ProcessDefinition.t :=
  ProcessDefinition.mk "invoice:1" "invoice" "Invoice" "" 1 "" "d-2"
    "invoice.json" "" false "" false false.

(** A repository holding two versions of "order" and one of "invoice". *)
Definition shelf : repositoryServiceImpl :=
  mk "" "" ∅
    {["order:1" := order_v1; "order:2" := order_v2; "invoice:1" := invoice_v1]}.

(** A stand-in for [json.Unmarshal] on the two documents of the runs:
    content that starts with an opening brace decodes to an order process,
    anything else is refused. *)
(** The stored definitions, visited last to first. *)
Definition newest_first : list ProcessDefinition.t :=
  reverse (values (definitions shelf)).

(** The text of a process definition: an object with the members id,
    name, nodes and edges, its keys and strings between double quotes. *)
Definition quoted (s : string) : string :=
  String JSON.quote (s +:+ String JSON.quote "").

Definition order_text : string :=
  "{" +:+ quoted "id" +:+ ": " +:+ quoted "order" +:+ ", "
  +:+ quoted "name" +:+ ": " +:+ quoted "Order" +:+ ", "
  +:+ quoted "nodes" +:+ ": [{" +:+ quoted "id" +:+ ": " +:+ quoted "start"
  +:+ "}], " +:+ quoted "edges" +:+ ": []}".

(** The same text cut off after the name. *)
Definition cut_text : string :=
  "{" +:+ quoted "id" +:+ ": " +:+ quoted "invoice" +:+ ", "
  +:+ quoted "name" +:+ ": " +:+ quoted "Invoice" +:+ ", ".

Definition order_document : gmap string jsonValue :=
  {["id" := jsonString "order"; "name" := jsonString "Order";
    "nodes" := jsonOther; "edges" := jsonOther]}.

Definition order_json : Resource.t :=
  Resource.mk "" "order.json" "" (String.list_byte_of_string order_text) "".

Definition cut_json : Resource.t :=
  Resource.mk "" "invoice.json" "" (String.list_byte_of_string cut_text) "".

Definition end_of_input : error := errorString "unexpected end of JSON input".

Definition ids (n : nat) : string := "u-" +:+ pretty n.

Lemma shelf_definitions (id : string) (d : ProcessDefinition.t) :
  definitions shelf !! id = Some d →
  d = order_v1 ∨ d = order_v2 ∨ d = invoice_v1.
Proof.
  intros Hd. apply elem_of_map_to_list in Hd.
  assert (Hl : ∃ l, map_to_list (definitions shelf) = l
                    ∧ Forall (λ p, p.2 = order_v1 ∨ p.2 = order_v2
                                   ∨ p.2 = invoice_v1) l).
  { eexists. split; [vm_compute; reflexivity|].
    repeat (apply Forall_cons; split;
            [first [by left | by right; left | by right; right]|]).
    constructor. }
  destruct Hl as (l & Hl & Hall). rewrite Hl in Hd.
  by apply (proj1 (Forall_forall _ _) Hall (id, d)).
Qed.

Lemma GetProcessDefinitionByKey_latest_witness :
  match GetProcessDefinitionByKey_ranging newest_first "order" with
  | inl d =>
      (∃ id, definitions shelf !! id = Some d)
      ∧ ProcessDefinition.Key d = "order"
      ∧ ∀ id d', definitions shelf !! id = Some d' →
                 ProcessDefinition.Key d' = "order" →
                 (ProcessDefinition.Version d' ≤ ProcessDefinition.Version d)%Z
  | inr e =>
      e = key_not_found "order"
      ∧ ∀ id d', definitions shelf !! id = Some d' → ProcessDefinition.Key d' ≠
          "order"
  end.
Proof.
  apply (GetProcessDefinitionByKey_latest shelf "order" newest_first).
  apply reverse_Permutation.
Defined.

Lemma next_version_is_one_above_witness :
  let v := next_version_ranging newest_first "order" in
  (1 ≤ v)%Z
  ∧ (∀ id d, (definitions shelf) !! id = Some d → ProcessDefinition.Key d =
      "order" →
             (ProcessDefinition.Version d < v)%Z)
  ∧ (v = 1%Z ∨ ∃ id d, (definitions shelf) !! id = Some d
                       ∧ ProcessDefinition.Key d = "order"
                       ∧ v = (ProcessDefinition.Version d + 1)%Z)
  ∧ v = next_version_ranging (values (definitions shelf)) "order".
Proof.
  apply (next_version_is_one_above (definitions shelf) "order" newest_first).
  - apply reverse_Permutation.
  - intros id d Hd _.
    destruct (shelf_definitions id d Hd) as [-> | [-> | ->]];
      unfold fits, GoInt.max_int; cbn; lia.
Defined.

Lemma Deploy_then_lookup_witness :
  ∃ dep def resources' s1,
    DeployInternal JSON.Unmarshal shelf "orders" "" "" [order_json] ids 120%Z
    = (inl dep, resources', s1)
    ∧ Deployment.ID dep = ids 0
    ∧ GetDeployment s1 (ids 0) = inl dep
    ∧ definitions s1 = <[ProcessDefinition.ID def := def]> (definitions shelf)
    ∧ ProcessDefinition.Key def = as_string (order_document !! "id")
    ∧ ProcessDefinition.DeploymentID def = ids 0
    ∧ ProcessDefinition.Suspended def = false
    ∧ (∀ id d, definitions shelf !! id = Some d →
               ProcessDefinition.Key d = ProcessDefinition.Key def →
               (ProcessDefinition.Version d < ProcessDefinition.Version def)%Z)
    ∧ (∀ order, order ≡ₚ values (definitions s1) →
         GetProcessDefinitionByKey_ranging order (ProcessDefinition.Key def)
         = inl def)
    ∧ GetProcessModel s1 (ProcessDefinition.ID def)
      = inl (Resource.Content order_json).
Proof.
  apply (Deploy_then_lookup JSON.Unmarshal shelf "orders" "" "" order_json
           ids 120%Z order_document).
  - vm_compute. reflexivity.
  - unfold well_formed, order_document. split_and!; vm_compute; by eexists.
  - intros id d Hd _.
    destruct (shelf_definitions id d Hd) as [-> | [-> | ->]];
      unfold fits, GoInt.max_int; cbn; lia.
Defined.

Lemma Deploy_failure_leaves_definitions_witness :
  ∃ def resources' s1 e,
    DeployInternal JSON.Unmarshal shelf "orders" "" "" (order_json :: cut_json
        :: [])
      ids 120%Z = (inr e, resources', s1)
    ∧ e = Errorf_w ("failed to parse process definition '"
                    +:+ Resource.Name cut_json +:+ "': ") (Some end_of_input)
    ∧ errors_Is e end_of_input = true
    ∧ deployments s1 = deployments shelf
    ∧ definitions s1 = <[ProcessDefinition.ID def := def]> (definitions shelf)
    ∧ ProcessDefinition.DeploymentID def = ids 0
    ∧ GetProcessDefinition s1 (ProcessDefinition.ID def) = inl def
    ∧ GetProcessModel s1 (ProcessDefinition.ID def)
      = inr (deployment_not_found (ids 0)).
Proof.
  apply (Deploy_failure_leaves_definitions JSON.Unmarshal shelf "orders" "" ""
           order_json cut_json [] ids 120%Z order_document end_of_input).
  - vm_compute. reflexivity.
  - unfold well_formed, order_document. split_and!; vm_compute; by eexists.
  - vm_compute. reflexivity.
  - vm_compute. reflexivity.
Defined.


End RepositoryRuns.

Section StartRuns.

Import Repository Runtime.

Definition idle_runtime : runtimeServiceImpl := NewRuntimeService false.

Lemma Suspended_definition_cannot_start_witness :
  ∃ repo1 repo2,
    SuspendProcessDefinition shelf "order:1" = (None, repo1)
    ∧ StartProcessInstanceByID form idle_runtime repo1 "order:1" (Some
        1%positive) "e1" 90%Z
      = (inr (definition_suspended (ProcessDefinition.ID order_v1)), form,
          idle_runtime)
    ∧ ActivateProcessDefinition repo1 "order:1" = (None, repo2)
    ∧ (∃ P h1 rt1,
         StartProcessInstanceByID form idle_runtime repo2 "order:1" (Some
             1%positive) "e1" 90%Z = (inl P, h1, rt1)
         ∧ ProcessInstance.ProcessDefinitionID P = ProcessDefinition.ID order_v1
         ∧ ProcessInstance.BusinessKey P = ""
         ∧ GetProcessInstance rt1 "e1" = inl P)
    ∧ ∀ missing, definitions shelf !! missing = None →
        StartProcessInstanceByID form idle_runtime shelf missing (Some
            1%positive) "e1" 90%Z
        = (inr (get_definition_failed (definition_not_found missing)), form,
            idle_runtime).
Proof.
  apply (Suspended_definition_cannot_start form idle_runtime
           shelf "order:1" order_v1 (Some 1%positive) "e1" 90%Z).
  vm_compute. reflexivity.
Defined.


End StartRuns.


Section EngineRuns.

Import Engine.

(** A command that counts its calls in the services' state and returns 7. *)
Definition counting : Command Z nat unit :=
  mkCommand "*commands.CountingCommand"
    (λ _ _ w, ((Some 7%Z, None), S w)).

Definition fresh : State Z nat unit := mkState 0 [] [].

(** The builder as [NewCommandExecutorBuilder] leaves it, with retry
    switched on. *)
Definition with_retry : CommandExecutorBuilder Z nat unit :=
  mkBuilder tt [] true true true 3.

Lemma built_pipeline_runs_command_once_witness :
  let direct :=
    Execute counting (published (b_engine with_retry) Background)
        (fresh_context (b_engine with_retry) Background)
      (world fresh) in
  let out :=
    if enableRetry with_retry
    then retried (retryAttempts with_retry) (rethrown (fst direct))
    else rethrown (fst direct) in
  Build with_retry = Ret (mkCommandExecutor (Build_interceptors with_retry))
  ∧ ∃ st',
      CommandExecutor_Execute (mkCommandExecutor (Build_interceptors
          with_retry))
        Background (Some counting) fresh = (Ret out, st')
      ∧ world st' = snd direct
      ∧ trace st'
        = trace fresh ++ (Enter <$> wrappers with_retry)
          ++ [Enter KContext; CommandExecute KContext;
              Closed (recorded (b_engine with_retry) Background (fst direct))]
      ∧ cc_Exception (recorded (b_engine with_retry) Background (fst direct))
        = snd (fst direct)
      ∧ logs st'
        = logs fresh
          ++ (if enableLogging with_retry
              then [LogExecuting (typeName counting);
                    match snd out with
                    | Some e => LogFailed (typeName counting) e
                    | None => LogCompleted (typeName counting)
                    end]
              else []).
Proof.
  apply (built_pipeline_runs_command_once with_retry Background counting fresh).
  - reflexivity.
  - intros _. cbn. lia.
Defined.


End EngineRuns.


Section LinkedRuns.

Import Engine Linked.

(** Four interceptors fresh from their constructors, made one after the
    other. *)
Definition made_logging : positive * gmap positive (object Z nat unit) :=
  New ∅ LoggingInterceptor.

Definition made_transaction : positive * gmap positive (object Z nat unit) :=
  New (snd made_logging) TransactionInterceptor.

Definition made_context : positive * gmap positive (object Z nat unit) :=
  New (snd made_transaction) (ContextInterceptor tt).

Definition made_invoker : positive * gmap positive (object Z nat unit) :=
  New (snd made_context) CommandInvoker.

Definition logging : positive := fst made_logging.
Definition transaction : positive := fst made_transaction.
Definition context : positive := fst made_context.
Definition invoker : positive := fst made_invoker.

Definition parts : gmap positive (object Z nat unit) := snd made_invoker.

(** The heap after an executor was built over logging, context and
    invoker: the logging interceptor now points to the context
    interceptor. *)
Definition used : gmap positive (object Z nat unit) :=
  snd (NewCommandExecutor parts [logging; context; invoker]).


End LinkedRuns.



Section CommandRuns.

Import Commands.

(** The task and runtime services the commands of the runs talk to: the
    task store with its heap, [GetTask] reading the task map, the clock
    standing at 110, and a runtime service that holds no execution. *)
Definition store_api
    : TaskAPI (gmap positive (gmap string Z)
               * TaskService.taskServiceImpl Z unit unit) :=
  mkTaskAPI _
    (λ st taskID,
       (match TaskService.tasks st.2 !! taskID with
        | Some task => inl task
        | None => inr (TaskService.task_not_found taskID)
        end, st))
    (λ st taskID userID,
       let '(err, s1) := TaskService.Claim st.2 taskID userID 110 in
       (err, (st.1, s1)))
    (λ st taskID,
       let '(err, h1, s1) := TaskService.Complete st.1 st.2 taskID in
       (err, (h1, s1))).

Definition no_executions
    : RuntimeAPI (gmap positive (gmap string Z)
                  * TaskService.taskServiceImpl Z unit unit) Z :=
  mkRuntimeAPI _ _
    (λ st executionID _, (Some (Runtime.execution_not_found executionID), st)).

(** The desk with "carol" as the only candidate of "t1". *)
Definition carols_desk : TaskService.taskServiceImpl Z unit unit :=
  snd (TaskService.AddCandidateUser desk "t1" "carol").

Definition carols_task : Task.t :=
  Task.with_CandidateUsers open_task ["carol"].

Definition carol_claims : ClaimTaskCommand.t :=
  ClaimTaskCommand.mk "t1" "carol".

Definition bob_claims : ClaimTaskCommand.t :=
  ClaimTaskCommand.mk "t1" "bob".

Definition approve_stray : CompleteTaskCommand.t Z :=
  CompleteTaskCommand.mk "t2" (Some {["approved" := 1%Z]}).

Definition carols_store
    : gmap positive (gmap string Z) * TaskService.taskServiceImpl Z unit unit :=
  (∅, carols_desk).

Definition claimed_store
    : gmap positive (gmap string Z) * TaskService.taskServiceImpl Z unit unit :=
  (∅, snd (TaskService.Claim carols_desk "t1" "carol" 110)).

Definition stray_store
    : gmap positive (gmap string Z) * TaskService.taskServiceImpl Z unit unit :=
  (∅, stray_desk).

Lemma ClaimTaskCommand_success_witness :
  (@None unit) = None
  ∧ ClaimTaskCommand.TaskID carol_claims ≠ ""
  ∧ ClaimTaskCommand.UserID carol_claims ≠ ""
  ∧ ∃ task s1,
      GetTask store_api carols_store (ClaimTaskCommand.TaskID carol_claims) =
          (inl task, s1)
      ∧ (Task.Assignee task = ""
         ∨ Task.Assignee task = ClaimTaskCommand.UserID carol_claims)
      ∧ (Task.CandidateUsers task = []
         ∨ ClaimTaskCommand.UserID carol_claims ∈ Task.CandidateUsers task)
      ∧ Claim store_api s1 (ClaimTaskCommand.TaskID carol_claims)
          (ClaimTaskCommand.UserID carol_claims) = (None, claimed_store).
Proof.
  apply (ClaimTaskCommand_success store_api carol_claims carols_store
           claimed_store (@None unit)).
  vm_compute. reflexivity.
Defined.

Lemma ClaimTaskCommand_rejects_witness :
  ∃ e,
    @ClaimTaskCommand_Execute _ unit store_api bob_claims carols_store =
        ((None, Some e), carols_store)
    ∧ e = if decide (Task.Assignee carols_task ≠ ""
                     ∧ Task.Assignee carols_task ≠ ClaimTaskCommand.UserID
                         bob_claims)
          then errorString
                 ("task '" +:+ ClaimTaskCommand.TaskID bob_claims
                  +:+ "' is already claimed by user '"
                  +:+ Task.Assignee carols_task +:+ "'")
          else errorString
                 ("user '" +:+ ClaimTaskCommand.UserID bob_claims
                  +:+ "' is not a candidate for task '"
                  +:+ ClaimTaskCommand.TaskID bob_claims +:+ "'").
Proof.
  apply (ClaimTaskCommand_rejects store_api bob_claims carols_store
           carols_store carols_task).
  - discriminate.
  - discriminate.
  - vm_compute. reflexivity.
  - right. split; [discriminate|].
    cbn. intros Hin. apply list_elem_of_singleton in Hin. discriminate Hin.
Defined.

Lemma CompleteTaskCommand_stops_early_witness :
  let run := @CompleteTaskCommand_Execute _ Z unit store_api no_executions
    approve_stray stray_store in
  (Task.Suspended stray_task = true →
   run = ((None, Some (errorString ("cannot complete suspended task '"
                                    +:+ CompleteTaskCommand.TaskID
                                        approve_stray +:+ "'"))),
          stray_store))
  ∧ (Task.Suspended stray_task = false →
     ∀ m, CompleteTaskCommand.Variables approve_stray = Some m → m ≠ ∅ →
          Task.ExecutionID stray_task ≠ "" →
          ∀ err s2,
            SetVariables no_executions stray_store (Task.ExecutionID
                stray_task) m
            = (Some err, s2) →
            run = ((None, Some (Errorf_w "failed to set variables: " (Some
                err))),
                   s2))
  ∧ (Task.Suspended stray_task = false →
     (CompleteTaskCommand.Variables approve_stray = None
      ∨ CompleteTaskCommand.Variables approve_stray = Some ∅
      ∨ Task.ExecutionID stray_task = "") →
     run = match Complete store_api stray_store (CompleteTaskCommand.TaskID
         approve_stray) with
           | (Some err, s3) =>
               ((None, Some (Errorf_w "failed to complete task: " (Some err))),
                s3)
           | (None, s3) => ((None, None), s3)
           end).
Proof.
  apply (CompleteTaskCommand_stops_early store_api no_executions
           approve_stray stray_store stray_store stray_task).
  - discriminate.
  - vm_compute. reflexivity.
Defined.


End CommandRuns.

Section StartCommandRuns.

Import Commands Repository.

(** The shelf with the newer version of "order" suspended. *)
Definition held_v2 : ProcessDefinition.t :=
  ProcessDefinition.mk "order:2" "order" "Order" "" 2 "" "d-2" "order.json"
    "" true "" false false.

Definition shelf_on_hold : repositoryServiceImpl :=
  snd (SuspendProcessDefinition shelf "order:2").

Definition held : list ProcessDefinition.t :=
  values (definitions shelf_on_hold).

(** Start "order:1" under the business key "bk-7". *)
Definition start_first_order : StartProcessInstanceCommand.t :=
  StartProcessInstanceCommand.mk "order:1" "" "bk-7" (Some 1%positive).

Lemma Start_by_id_with_business_key_witness :
  let run := StartProcessInstanceCommand_Execute form idle_runtime shelf_on_hold
    held held start_first_order
               "e1" 90%Z in
  if ProcessDefinition.Suspended held_v2
  then run = ((None, None), form, idle_runtime)
  else ∃ P h1 rt1,
         run = ((Some P, None), h1, rt1)
         ∧ ProcessInstance.ProcessDefinitionID P = ProcessDefinition.ID held_v2
         ∧ ProcessInstance.BusinessKey P
           = StartProcessInstanceCommand.BusinessKey start_first_order
         ∧ Runtime.GetProcessInstance rt1 "e1" = inl P.
Proof.
  apply (Start_by_id_with_business_key form idle_runtime shelf_on_hold held
           held start_first_order "e1" 90%Z order_v1 held_v2).
  - discriminate.
  - discriminate.
  - vm_compute. reflexivity.
  - reflexivity.
  - vm_compute. reflexivity.
Defined.


End StartCommandRuns.

End MoreRuns.
